(** * DecisionTree.py: a shallow embedding and its verified properties

    The development follows [DecisionTree/DecisionTree/DecisionTree.py]:
    the [Question] predicate, the [LeafNode] / [DecisionNode] tree, the
    evaluator of [DecisionTree.Decide], the tree builder
    ([GetPossibleValues], [GetChildPossibleValues], [GetQuestions],
    [CanSplit], [FindBestSplit], [GiniIndex], [Counts], [CreateTree],
    [CreateTreeRecursive]), the loaders ([LoadTrainingData] and the head
    of [Decide]) and the conversions ([ConvertToSciKitData] and the loop of
    [ConvertToCorrelMatrix]).

    Modelling conventions.
    - A Python exception is a value [Raise e] of the error monad [result].
    - A Python float is a rational number ([Q]); [==] and [<=] are
      [Qeq_bool] and [Qle_bool].  Two representations of one number
      ([1#1], [2#2]) play the part of Python's [1], [1.0] and [True], which
      are equal and hash alike.  The arithmetic of [GiniIndex] and of the
      metrics is exact; NaN is not modelled.
    - The loaders ([LoadTrainingData], the head of [Decide]) replace every
      word that [float()] accepts by its float, so a [str] found in a row is
      never accepted by [float()]: [IsFloat] is true of the floats only.
    - A Python [set] is the list of its elements in insertion order. *)

From Stdlib Require Import Ascii String.
From Stdlib Require Import List ZArith QArith Bool Lia Lqa Arith.
From Stdlib Require Import Sorting.Sorted.
Import ListNotations.

Close Scope Q_scope.
Open Scope nat_scope.

(** ** Exceptions and the error monad *)

Inductive exn : Set :=
| TypeError
| IndexError
| AttributeError
| ZeroDivisionError
| RecursionError.

Inductive result (A : Type) : Type :=
| Ok (a : A)
| Raise (e : exn).

Arguments Ok {A} a.
Arguments Raise {A} e.

Definition bind {A B : Type} (m : result A) (k : A -> result B) : result B :=
  match m with
  | Ok a => k a
  | Raise e => Raise e
  end.

Notation "x <- m ;; k" := (bind m (fun x => k))
  (at level 61, m at next level, right associativity).
Notation "' p <- m ;; k" := (bind m (fun x => let p := x in k))
  (at level 61, p pattern, m at next level, right associativity).

Definition returns {A : Type} (m : result A) : Prop := exists a, m = Ok a.

(** ** Python values *)

(** A scalar of a row: a float or a string. *)
Inductive value : Type :=
| VFloat (x : Q)
| VStr (s : string).

(** What [GetPossibleValues] collects per column: [None], a [list] of
    floats or a [set] of strings. *)
Inductive container : Type :=
| CNone
| CList (l : list Q)
| CSet (l : list string).

(** An object handed to [IsFloat] or stored in [Question.Value]: the
    builder stores scalars, [CanSplit] stores a whole container. *)
Inductive pyobj : Type :=
| OVal (v : value)
| OCont (c : container).

Definition Row := list value.

(** [float(value)] succeeds on a float and raises on a string of a row
    (see the conventions above), on a list, on a set and on [None]. *)
Definition IsFloat (o : pyobj) : bool :=
  match o with
  | OVal (VFloat _) => true
  | OVal (VStr _) => false
  | OCont _ => false
  end.

(** [a == b] for a scalar [a]. *)
Definition py_eq (a : value) (b : pyobj) : bool :=
  match a, b with
  | VFloat x, OVal (VFloat y) => Qeq_bool x y
  | VStr s, OVal (VStr t) => String.eqb s t
  | _, _ => false
  end.

(** [a <= b] for a scalar [a]: defined between two floats and between two
    strings, a [TypeError] otherwise. *)
Definition py_le (a : value) (b : pyobj) : result bool :=
  match a, b with
  | VFloat x, OVal (VFloat y) => Ok (Qle_bool x y)
  | VStr s, OVal (VStr t) => Ok (String.leb s t)
  | _, _ => Raise TypeError
  end.

(** [l[i]] with Python's negative indices. *)
Definition py_index {A : Type} (l : list A) (i : Z) : result A :=
  let n := Z.of_nat (length l) in
  let j := if (i <? 0)%Z then (n + i)%Z else i in
  if (j <? 0)%Z then Raise IndexError
  else match nth_error l (Z.to_nat j) with
       | Some a => Ok a
       | None => Raise IndexError
       end.

(** ** Question *)

Record Question : Type := mkQuestion {
  Attribute : Z;
  Value : pyobj
}.

(** [Question.Match], lines 28-33. *)
Definition Match (self : Question) (aRow : Row) : result bool :=
  val <- py_index aRow (Attribute self) ;;
  if IsFloat (OVal val) then py_le val (Value self)
  else Ok (py_eq val (Value self)).

(** The predicate of section 4.1 of the specification, in its words: the
    comparison is chosen by the kind of the reference value. *)
Definition Match_spec (self : Question) (aRow : Row) : result bool :=
  val <- py_index aRow (Attribute self) ;;
  if IsFloat (Value self) then py_le val (Value self)
  else Ok (py_eq val (Value self)).

(** ** Nodes *)

(** A [dict] from labels to counts, in insertion order.  A key is found
    with [==], as Python finds it with [hash] and [==]. *)
Definition dict := list (value * nat).

Definition val_eqb (a b : value) : bool := py_eq a (OVal b).

Fixpoint dict_has (d : dict) (k : value) : bool :=
  match d with
  | [] => false
  | (k', _) :: d' => val_eqb k k' || dict_has d' k
  end.

(** [d.setdefault(k, 0); d[k] += 1]. *)
Fixpoint dict_incr (d : dict) (k : value) : dict :=
  match d with
  | [] => [(k, 1)]
  | (k', n) :: d' =>
      if val_eqb k k' then (k', S n) :: d' else (k', n) :: dict_incr d' k
  end.

#[warnings="-register-all"]
Inductive node : Type :=
| LeafNode (Counts : dict) (Depth : nat)
| DecisionNode (Questions : list Question) (Branches : list node) (Depth : nat).

(** [LeafNode.CalculateCounts], lines 73-80. *)
Fixpoint CalculateCounts_from (counts : dict) (aRowData : list Row) : result dict :=
  match aRowData with
  | [] => Ok counts
  | row :: rest =>
      val <- py_index row (Z.of_nat (length row) - 1) ;;
      CalculateCounts_from (dict_incr counts val) rest
  end.

Definition CalculateCounts (aRowData : list Row) : result dict :=
  CalculateCounts_from [] aRowData.

(** [LeafNode.__init__], lines 69-71. *)
Definition mkLeafNode (aRowData : list Row) (aDepth : nat) : result node :=
  counts <- CalculateCounts aRowData ;;
  Ok (LeafNode counts aDepth).

(** [for i, question in enumerate(questions): if question.Match(row): ...]:
    the index and the question of the first match, [None] when the loop
    runs to its end. *)
Fixpoint first_match (questions : list Question) (i : nat) (aRow : Row)
  : result (option (nat * Question)) :=
  match questions with
  | [] => Ok None
  | question :: rest =>
      m <- Match question aRow ;;
      if m then Ok (Some (i, question)) else first_match rest (S i) aRow
  end.

(** [LeafNode.Decide] (lines 83-84) and [DecisionNode.Decide] (lines
    53-57); [pick] is [self.Branches[i].Decide(aData)]. *)
Fixpoint Decide (self : node) (aData : Row) : result dict :=
  match self with
  | LeafNode counts _ => Ok counts
  | DecisionNode questions branches _ =>
      found <- first_match questions 0 aData ;;
      let i := match found with Some (i, _) => i | None => 0 end in
      (fix pick (bs : list node) (i : nat) : result dict :=
         match bs, i with
         | [], _ => Raise IndexError
         | b :: _, O => Decide b aData
         | _ :: bs', S i' => pick bs' i'
         end) branches i
  end.

(** ** The evaluator of [DecisionTree.Decide] *)

Record Results : Type := mkResults {
  Accuracy : Q; Precision : Q; Recall : Q;
  P : nat; N : nat; Total : nat;
  TP : nat; TN : nat; FP : nat; FN : nat
}.

(** The counters of lines 160-166. *)
Record Counters : Type := mkCounters {
  c_total : nat; c_TP : nat; c_TN : nat; c_FP : nat; c_FN : nat;
  c_P : nat; c_N : nat
}.

Definition Yes : value := VStr "Yes"%string.
Definition No : value := VStr "No"%string.

(** Lines 171-174. *)
Definition guessedTrue (counts : dict) : bool :=
  dict_has counts Yes || dict_has counts (VFloat 1%Q).
Definition guessedFalse (counts : dict) : bool :=
  dict_has counts No || dict_has counts (VFloat 0%Q).
Definition wasTrue (answer : value) : bool :=
  val_eqb answer Yes || val_eqb answer (VFloat 1%Q).
Definition wasFalse (answer : value) : bool :=
  val_eqb answer No || val_eqb answer (VFloat 0%Q).

(** Lines 178-186: one turn of the loop, after [counts] and [answer]. *)
Definition tally (c : Counters) (counts : dict) (answer : value) : Counters :=
  let gT := guessedTrue counts in
  let gF := guessedFalse counts in
  let wT := wasTrue answer in
  let wF := wasFalse answer in
  let total := S (c_total c) in
  let P := if wT then S (c_P c) else c_P c in
  let N := if wT then c_N c else S (c_N c) in
  if gT && wT then mkCounters total (S (c_TP c)) (c_TN c) (c_FP c) (c_FN c) P N
  else if gF && wF then mkCounters total (c_TP c) (S (c_TN c)) (c_FP c) (c_FN c) P N
  else if gT && wF then mkCounters total (c_TP c) (c_TN c) (S (c_FP c)) (c_FN c) P N
  else if gF && wT then mkCounters total (c_TP c) (c_TN c) (c_FP c) (S (c_FN c)) P N
  else mkCounters total (c_TP c) (c_TN c) (c_FP c) (c_FN c) P N.

(** Lines 167-186. *)
Fixpoint tally_rows (root : node) (c : Counters) (testData : list Row) : result Counters :=
  match testData with
  | [] => Ok c
  | row :: rest =>
      counts <- Decide root row ;;
      answer <- py_index row (Z.of_nat (length row) - 1) ;;
      tally_rows root (tally c counts answer) rest
  end.

(** An [int] counter read as a float. *)
Definition Qnat (n : nat) : Q := inject_Z (Z.of_nat n).

(** [a / b] on two [int]s. *)
Definition py_truediv (a b : nat) : result Q :=
  if Nat.eqb b 0 then Raise ZeroDivisionError
  else Ok (Qnat a / Qnat b)%Q.

(** Lines 188-197. *)
Definition metrics (c : Counters) : result (Q * Q * Q) :=
  accuracy <-
    (if negb (Nat.eqb (c_P c + c_N c) 0)
     then (r <- py_truediv (c_TP c + c_TN c) (c_P c + c_N c) ;; Ok (r * 100)%Q)
     else Ok (-1)%Q) ;;
  precision <-
    (if negb (Nat.eqb (c_TP c + c_FP c) 0)
     then (r <- py_truediv (c_TP c) (c_TP c + c_FP c) ;; Ok (r * 100)%Q)
     else Ok (-1)%Q) ;;
  recall <-
    (if negb (Nat.eqb (c_P c) 0)
     then (r <- py_truediv (c_TP c) (c_P c) ;; Ok (r * 100)%Q)
     else Ok (-1)%Q) ;;
  Ok (accuracy, precision, recall).

(** [DecisionTree.Decide] from line 160 on, given the rows read from the
    file. *)
Definition DecisionTree_Decide (root : node) (testData : list Row) : result Results :=
  c <- tally_rows root (mkCounters 0 0 0 0 0 0 0) testData ;;
  '(accuracy, precision, recall) <- metrics c ;;
  Ok (mkResults accuracy precision recall (c_P c) (c_N c) (c_total c)
        (c_TP c) (c_TN c) (c_FP c) (c_FN c)).

(** ** The tree builder: candidate values *)

(** [len(c)] and [for val in c]; both raise on [None]. *)
Definition py_len (c : container) : result nat :=
  match c with
  | CNone => Raise TypeError
  | CList l => Ok (length l)
  | CSet l => Ok (length l)
  end.

Definition py_iter (c : container) : result (list value) :=
  match c with
  | CNone => Raise TypeError
  | CList l => Ok (map VFloat l)
  | CSet l => Ok (map VStr l)
  end.

(** [l[i] = a]. *)
Fixpoint py_setitem {A : Type} (l : list A) (i : nat) (a : A) : result (list A) :=
  match l, i with
  | [], _ => Raise IndexError
  | _ :: r, O => Ok (a :: r)
  | x :: r, S i' => r' <- py_setitem r i' a ;; Ok (x :: r')
  end.

(** [s.add(x)] on a set of strings. *)
Definition set_add (x : string) (s : list string) : list string :=
  if existsb (String.eqb x) s then s else s ++ [x].

(** [list(set(l))] on floats: one element per number, the first met. *)
Fixpoint dedupe (l : list Q) : list Q :=
  match l with
  | [] => []
  | x :: r => x :: filter (fun y => negb (Qeq_bool y x)) (dedupe r)
  end.

(** [l.sort()] on floats. *)
Fixpoint insert (x : Q) (l : list Q) : list Q :=
  match l with
  | [] => [x]
  | y :: r => if Qle_bool x y then x :: l else y :: insert x r
  end.

Fixpoint sort (l : list Q) : list Q :=
  match l with
  | [] => []
  | x :: r => insert x (sort r)
  end.

(** The two nested loops shared by [GetPossibleValues] (lines 273-280) and
    [GetChildPossibleValues] (lines 249-262): every word of every row
    updates the container of its column. *)
Section Scan.

Variable step : nat -> Row -> value -> container -> result container.

Fixpoint scan_words (row : Row) (i : nat) (words : list value)
    (possibleValues : list container) : result (list container) :=
  match words with
  | [] => Ok possibleValues
  | word :: rest =>
      c <- py_index possibleValues (Z.of_nat i) ;;
      c' <- step i row word c ;;
      possibleValues' <- py_setitem possibleValues i c' ;;
      scan_words row (S i) rest possibleValues'
  end.

Fixpoint scan_rows (rows : list Row) (possibleValues : list container)
  : result (list container) :=
  match rows with
  | [] => Ok possibleValues
  | row :: rest =>
      possibleValues' <- scan_words row 0 row possibleValues ;;
      scan_rows rest possibleValues'
  end.

End Scan.

Fixpoint mapM {A B : Type} (f : A -> result B) (l : list A) : result (list B) :=
  match l with
  | [] => Ok []
  | a :: r => b <- f a ;; r' <- mapM f r ;; Ok (b :: r')
  end.

(** Lines 275-280: a float goes to the list of its column, a string to the
    set; [append] on a set and [add] on a list raise [AttributeError]. *)
Definition record_word (word : value) (c : container) : result container :=
  match word with
  | VFloat x =>
      match c with
      | CNone => Ok (CList [x])
      | CList l => Ok (CList (l ++ [x]))
      | CSet _ => Raise AttributeError
      end
  | VStr s =>
      match c with
      | CNone => Ok (CSet [s])
      | CSet l => Ok (CSet (set_add s l))
      | CList _ => Raise AttributeError
      end
  end.

(** Lines 287-302.  [int(n / 3 * 1)], [int(n / 3 * 2)] and [int(n / 3 * 3)]
    are [n / 3], [2 * n / 3] and [n] rounded down: the binary64 quotient
    [n / 3] is within one part in 2^53 of the exact one, doubling is exact
    and tripling gives [n] back, for every length below 2^50. *)
Definition bucket (c : container) : result container :=
  match c with
  | CList l =>
      let u := sort (dedupe l) in
      if 3 <=? length u then
        let numPosVals := length u in
        a <- py_index u (Z.of_nat (numPosVals / 3) - 1) ;;
        b <- py_index u (Z.of_nat (2 * numPosVals / 3) - 1) ;;
        c <- py_index u (Z.of_nat numPosVals - 1) ;;
        Ok (CList [a; b; c])
      else Ok (CList u)
  | _ => Ok c
  end.

(** [DecisionTree.GetPossibleValues], lines 271-304; [nNames] is
    [len(self.AttributeNames)]. *)
Definition GetPossibleValues (nNames : nat) (aTrainingData : list Row)
  : result (list container) :=
  possibleValues <-
    scan_rows (fun _ _ => record_word) aTrainingData (repeat CNone nNames) ;;
  mapM bucket possibleValues.

(** [c.append(o)] and [c.add(o)].  The list of a column holds floats and
    the set strings: the object is the [Value] of a question of that column
    that matched a float (a string) of the row. *)
Definition py_append (c : container) (o : pyobj) : result container :=
  match c, o with
  | CList l, OVal (VFloat y) => Ok (CList (l ++ [y]))
  | CList _, _ => Raise TypeError
  | _, _ => Raise AttributeError
  end.

Definition py_add (c : container) (o : pyobj) : result container :=
  match c, o with
  | CSet l, OVal (VStr t) => Ok (CSet (set_add t l))
  | CSet _, _ => Raise TypeError
  | _, _ => Raise AttributeError
  end.

(** Lines 251-262. *)
Definition record_match (GlobalQuestions : list (list Question))
    (i : nat) (row : Row) (word : value) (c : container) : result container :=
  if IsFloat (OVal word) then
    let c1 := match c with CNone => CList [] | _ => c end in
    questions <- py_index GlobalQuestions (Z.of_nat i) ;;
    found <- first_match questions 0 row ;;
    match found with
    | Some (_, question) => py_append c1 (Value question)
    | None => Ok c1
    end
  else
    let c1 := match c with CNone => CSet [] | _ => c end in
    questions <- py_index GlobalQuestions (Z.of_nat i) ;;
    found <- first_match questions 0 row ;;
    match found with
    | Some (_, question) => py_add c1 (Value question)
    | None => Ok c1
    end.

(** Lines 264-267. *)
Definition resort (c : container) : container :=
  match c with
  | CList l => CList (sort (dedupe l))
  | _ => c
  end.

(** [DecisionTree.GetChildPossibleValues], lines 247-269. *)
Definition GetChildPossibleValues (nNames : nat)
    (GlobalQuestions : list (list Question)) (aDataSet : list Row)
  : result (list container) :=
  possibleValues <-
    scan_rows (record_match GlobalQuestions) aDataSet (repeat CNone nNames) ;;
  Ok (map resort possibleValues).

(** [DecisionTree.GetQuestions], lines 309-313. *)
Definition pad (gq : list (list Question)) (i : nat) : list (list Question) :=
  gq ++ repeat [] (S i - length gq).

Fixpoint append_at (gq : list (list Question)) (i : nat) (q : Question)
  : list (list Question) :=
  match gq, i with
  | [], _ => []
  | qs :: r, O => (qs ++ [q]) :: r
  | qs :: r, S i' => qs :: append_at r i' q
  end.

Fixpoint GetQuestions_from (gq : list (list Question)) (i : nat)
    (GlobalUniqueValues : list container) : result (list (list Question)) :=
  match GlobalUniqueValues with
  | [] => Ok gq
  | values :: rest =>
      vals <- py_iter values ;;
      let gq' :=
        fold_left
          (fun g val => append_at (pad g i) i (mkQuestion (Z.of_nat i) (OVal val)))
          vals gq in
      GetQuestions_from gq' (S i) rest
  end.

Definition GetQuestions (GlobalUniqueValues : list container)
  : result (list (list Question)) :=
  GetQuestions_from [] 0 GlobalUniqueValues.

(** ** The tree builder: splitting *)

(** Lines 388-398: the signed counter [answerAbs] over the rows. *)
Fixpoint sign_walk (question : Question) (rows : list Row) (answerAbs : Z)
  : result bool :=
  match rows with
  | [] => Ok false
  | row :: rest =>
      matches <- Match question row ;;
      if matches && (answerAbs <? 0)%Z then Ok true
      else if negb matches && (0 <? answerAbs)%Z then Ok true
      else sign_walk question rest
             (if matches then answerAbs + 1 else answerAbs - 1)%Z
  end.

(** Lines 383-403: the loop over [range(len(uniqueValues) - 1)]. *)
Fixpoint CanSplit_loop (aDataSet : list Row)
    (uniqueValues globalUniqueValues : list container) (attributes : list nat)
  : result bool :=
  match attributes with
  | [] => Ok false
  | attribute :: rest =>
      g <- py_index globalUniqueValues (Z.of_nat attribute) ;;
      if IsFloat (OCont g) then
        flipped <- sign_walk (mkQuestion (Z.of_nat attribute) (OCont g)) aDataSet 0 ;;
        if flipped then Ok true
        else CanSplit_loop aDataSet uniqueValues globalUniqueValues rest
      else
        u <- py_index uniqueValues (Z.of_nat attribute) ;;
        n <- py_len u ;;
        if 1 <? n then Ok true
        else CanSplit_loop aDataSet uniqueValues globalUniqueValues rest
  end.

(** [DecisionTree.CanSplit], lines 379-403. *)
Definition CanSplit (aDataSet : list Row)
    (uniqueValues globalUniqueValues : list container) : result bool :=
  lastc <- py_index uniqueValues (Z.of_nat (length uniqueValues) - 1) ;;
  n <- py_len lastc ;;
  if n =? 1 then Ok false
  else CanSplit_loop aDataSet uniqueValues globalUniqueValues
         (seq 0 (length uniqueValues - 1)).

(** [DecisionTree.Counts], lines 439-447, with [(trues, count)] the state
    of its loop. *)
Fixpoint Counts_from (trues count : nat) (aData : list Row) (aElement : value)
    (aAttributeIndex : Z) : result (nat * nat * nat) :=
  match aData with
  | [] => Ok (trues, count - trues, count)
  | data :: rest =>
      v <- py_index data aAttributeIndex ;;
      if py_eq v (OVal aElement) then
        lbl <- py_index data (Z.of_nat (length data) - 1) ;;
        if py_eq lbl (OVal Yes) || py_eq lbl (OVal (VFloat 1%Q))
        then Counts_from (S trues) (S count) rest aElement aAttributeIndex
        else Counts_from trues (S count) rest aElement aAttributeIndex
      else Counts_from trues count rest aElement aAttributeIndex
  end.

Definition Counts (aData : list Row) (aElement : value) (aAttributeIndex : Z)
  : result (nat * nat * nat) :=
  Counts_from 0 0 aData aElement aAttributeIndex.

(** Lines 428-434: the loop over [uniqueElements], [entropy] its state. *)
Fixpoint GiniIndex_loop (aDataSet : list Row) (aAttributeIndex : Z)
    (total : nat) (entropy : Q) (uniqueElements : list value) : result Q :=
  match uniqueElements with
  | [] => Ok entropy
  | ele :: rest =>
      '(trues, falses, count) <- Counts aDataSet ele aAttributeIndex ;;
      if count =? 0 then
        GiniIndex_loop aDataSet aAttributeIndex total entropy rest
      else
        t <- py_truediv trues count ;;
        f <- py_truediv falses count ;;
        let individualGini := (1 - t * t - f * f)%Q in
        totalPercent <- py_truediv count total ;;
        GiniIndex_loop aDataSet aAttributeIndex total
          (entropy + totalPercent * individualGini)%Q rest
  end.

(** [DecisionTree.GiniIndex], lines 420-436. *)
Definition GiniIndex (aDataSet : list Row) (aAttributeIndex : Z)
    (aPossibleValues : list container) : result Q :=
  uniqueElements <- py_index aPossibleValues aAttributeIndex ;;
  n <- py_len uniqueElements ;;
  if n =? 1 then Ok 0%Q
  else
    eles <- py_iter uniqueElements ;;
    GiniIndex_loop aDataSet aAttributeIndex (length aDataSet) 0%Q eles.

(** [a < b] on floats. *)
Definition Qlt_bool (a b : Q) : bool := negb (Qle_bool b a).

(** Lines 409-416, [(bestInfo, bestAttribute)] the state of the loop. *)
Fixpoint FindBestSplit_loop (aDataSet : list Row) (uniqueValues : list container)
    (bestInfo : Q) (bestAttribute : Z) (attributes : list nat) : result (Q * Z) :=
  match attributes with
  | [] => Ok (bestInfo, bestAttribute)
  | attribute :: rest =>
      u <- py_index uniqueValues (Z.of_nat attribute) ;;
      n <- py_len u ;;
      if n =? 1 then
        FindBestSplit_loop aDataSet uniqueValues bestInfo bestAttribute rest
      else
        giniIndex <- GiniIndex aDataSet (Z.of_nat attribute) uniqueValues ;;
        if Qlt_bool giniIndex bestInfo
        then FindBestSplit_loop aDataSet uniqueValues giniIndex (Z.of_nat attribute) rest
        else FindBestSplit_loop aDataSet uniqueValues bestInfo bestAttribute rest
  end.

(** [DecisionTree.FindBestSplit], lines 405-418. *)
Definition FindBestSplit (aDataSet : list Row) (uniqueValues : list container)
  : result (Q * Z) :=
  row0 <- py_index aDataSet 0 ;;
  FindBestSplit_loop aDataSet uniqueValues 2%Q (-1)%Z (seq 0 (length row0 - 1)).

(** Lines 359-366: [splitSets[i]] is [None] until a first row reaches it. *)
Fixpoint append_row (splitSets : list (option (list Row))) (i : nat) (row : Row)
  : list (option (list Row)) :=
  match splitSets, i with
  | [], _ => []
  | g :: r, O => Some (match g with None => [] | Some rows => rows end ++ [row]) :: r
  | g :: r, S i' => g :: append_row r i' row
  end.

Fixpoint SplitRows (questions : list Question) (aDataSet : list Row)
    (splitSets : list (option (list Row))) : result (list (option (list Row))) :=
  match aDataSet with
  | [] => Ok splitSets
  | row :: rest =>
      found <- first_match questions 0 row ;;
      match found with
      | Some (i, _) => SplitRows questions rest (append_row splitSets i row)
      | None => SplitRows questions rest splitSets
      end
  end.

(** Lines 354-366: the questions of the chosen attribute and the groups. *)
Definition MakeQuestions (childUniqueValues : list container) (attributeIndex : Z)
  : result (list Question) :=
  c <- py_index childUniqueValues attributeIndex ;;
  atts <- py_iter c ;;
  Ok (map (fun att => mkQuestion attributeIndex (OVal att)) atts).

Definition SplitSets (questions : list Question) (aDataSet : list Row)
  : result (list (option (list Row))) :=
  SplitRows questions aDataSet (repeat None (length questions)).

(** The fields of [DecisionTree] that the builder reads. *)
Record DecisionTree : Type := mkDecisionTree {
  TrainingData : list Row;
  Root : option node;
  AttributeNames : list string;
  Depth : nat;
  GlobalUniqueValues : list container;
  GlobalQuestions : list (list Question)
}.

(** Lines 372-374: [branches.append(self.CreateTreeRecursive(splitSets[i],
    aDepth + 1))] for every [i]; [recurse] is the recursive call and [depth]
    is [self.Depth], which the calls may raise.  A group left at [None]
    reaches [for row in aDataSet] of [GetChildPossibleValues], a
    [TypeError]. *)
Fixpoint build_branches (recurse : list Row -> nat -> result (node * nat))
    (splitSets : list (option (list Row))) (depth : nat)
  : result (list node * nat) :=
  match splitSets with
  | [] => Ok ([], depth)
  | None :: _ => Raise TypeError
  | Some rows :: rest =>
      '(branch, depth') <- recurse rows depth ;;
      '(branches, depth'') <- build_branches recurse rest depth' ;;
      Ok (branch :: branches, depth'')
  end.

(** [DecisionTree.CreateTreeRecursive], lines 332-377.  [fuel] bounds the
    depth of the recursion, as the interpreter's recursion limit does;
    [depth] is [self.Depth], the only field written. *)
Fixpoint CreateTreeRecursive (fuel : nat) (self : DecisionTree)
    (aDataSet : list Row) (aDepth : nat) (depth : nat) : result (node * nat) :=
  match fuel with
  | O => Raise RecursionError
  | S fuel' =>
      childUniqueValues <-
        GetChildPossibleValues (length (AttributeNames self))
          (GlobalQuestions self) aDataSet ;;
      can <- CanSplit aDataSet childUniqueValues (GlobalUniqueValues self) ;;
      if negb can then
        leaf <- mkLeafNode aDataSet aDepth ;;
        Ok (leaf, depth)
      else
        '(giniIndex, attributeIndex) <- FindBestSplit aDataSet childUniqueValues ;;
        let depth1 := if depth <? aDepth then aDepth else depth in
        questions <- MakeQuestions childUniqueValues attributeIndex ;;
        splitSets <- SplitSets questions aDataSet ;;
        '(branches, depth2) <-
          build_branches
            (fun rows d => CreateTreeRecursive fuel' self rows (S aDepth) d)
            splitSets depth1 ;;
        Ok (DecisionNode questions branches aDepth, depth2)
  end.

(** [DecisionTree.CreateTree], lines 315-330. *)
Definition CreateTree (fuel : nat) (self : DecisionTree) : result DecisionTree :=
  guv <- GetPossibleValues (length (AttributeNames self)) (TrainingData self) ;;
  gq <- GetQuestions_from (GlobalQuestions self) 0 guv ;;
  let self1 :=
    mkDecisionTree (TrainingData self) (Root self) (AttributeNames self)
      (Depth self) guv gq in
  '(root, depth) <- CreateTreeRecursive fuel self1 (TrainingData self) 0 (Depth self) ;;
  Ok (mkDecisionTree (TrainingData self) (Some root) (AttributeNames self)
        depth guv gq).

(** [DecisionTree.__init__], lines 119-133, with the loaded rows and
    names. *)
Definition newDecisionTree (names : list string) (data : list Row) : DecisionTree :=
  mkDecisionTree data None names 0 [] [].

(** ** Notions used in the statements *)

(** The sum of the four confusion cells. *)
Definition cells (c : Counters) : nat := c_TP c + c_TN c + c_FP c + c_FN c.

(** The label of a row, its last element. *)
Definition label_of (row : Row) : result value :=
  py_index row (Z.of_nat (length row) - 1).

(** The rows of a candidate value: those whose attribute equals it. *)
Definition in_group (a : Z) (e : value) (row : Row) : bool :=
  match py_index row a with
  | Ok v => py_eq v (OVal e)
  | Raise _ => false
  end.

Definition group (a : Z) (e : value) (ds : list Row) : list Row :=
  filter (in_group a e) ds.

(** A row counted as true by [Counts]: its label is ["Yes"] or [1]. *)
Definition positive (row : Row) : bool :=
  match label_of row with
  | Ok lbl => wasTrue lbl
  | Raise _ => false
  end.

(** A group is pure when its rows are all positive or all not. *)
Definition pure_group (a : Z) (e : value) (ds : list Row) : bool :=
  forallb positive (group a e ds)
  || forallb (fun row => negb (positive row)) (group a e ds).

(** No two candidates are equal: the elements of a Python set, or of a
    list made from one. *)
Fixpoint distinctb (l : list value) : bool :=
  match l with
  | [] => true
  | x :: r => negb (existsb (val_eqb x) r) && distinctb r
  end.

(** The rows counted over the candidates of an attribute. *)
Definition sum_counts (a : Z) (eles : list value) (ds : list Row) : nat :=
  fold_right (fun e acc => length (group a e ds) + acc) 0 eles.

(** The candidates of one attribute of a non-empty subset: a list or a set,
    not empty, no two elements equal. *)
Definition candidates_ok (c : container) : bool :=
  match py_iter c with
  | Ok eles => negb (length eles =? 0) && distinctb eles
  | Raise _ => false
  end.

(** An attribute with more than one local candidate. *)
Definition qualifies (uniqueValues : list container) (attribute : nat) : bool :=
  match nth_error uniqueValues attribute with
  | Some c => match py_len c with Ok n => 1 <? n | Raise _ => false end
  | None => false
  end.

(** The kinds of the values of a row, and a dataset whose rows all have the
    kinds [sig]: the rows have one length and every column one type. *)
Definition kinds (row : Row) : list bool := map (fun v => IsFloat (OVal v)) row.

Definition uniform (sig : list bool) (rows : list Row) : Prop :=
  Forall (fun row => kinds row = sig) rows.

(** The floats and the strings of column [j], in the order of the rows. *)
Definition col_floats (j : nat) (rows : list Row) : list Q :=
  flat_map (fun row => match nth_error row j with
                       | Some (VFloat x) => [x]
                       | _ => []
                       end) rows.

Definition col_strs (j : nat) (rows : list Row) : list string :=
  flat_map (fun row => match nth_error row j with
                       | Some (VStr s) => [s]
                       | _ => []
                       end) rows.

(** What the two nested loops do to the container of column [j]. *)
Fixpoint col_fold (step : nat -> Row -> value -> container -> result container)
    (j : nat) (rows : list Row) (c : container) : result container :=
  match rows with
  | [] => Ok c
  | row :: rest =>
      match nth_error row j with
      | Some word => c' <- step j row word c ;; col_fold step j rest c'
      | None => col_fold step j rest c
      end
  end.

(** The Python set made of the strings of a list, one after the other. *)
Definition str_set (l : list string) : list string :=
  fold_left (fun s x => set_add x s) l [].

(** What lines 294-302 make of the sorted distinct floats of a column. *)
Definition thresholds (u : list Q) : list Q :=
  if 3 <=? length u then
    [nth (length u / 3 - 1) u 0%Q; nth (2 * length u / 3 - 1) u 0%Q;
     nth (length u - 1) u 0%Q]
  else u.

(** No two floats of a list are equal. *)
Fixpoint Qdistinct (l : list Q) : Prop :=
  match l with
  | [] => True
  | x :: r => (forall y, In y r -> ~ (y == x)%Q) /\ Qdistinct r
  end.

(** The questions of column [i], one per candidate, and the questions of
    the columns from [i] on. *)
Definition questions_of (i : nat) (c : container) : list Question :=
  match py_iter c with
  | Ok vals => map (fun val => mkQuestion (Z.of_nat i) (OVal val)) vals
  | Raise _ => []
  end.

Fixpoint questions_from (i : nat) (guv : list container) : list (list Question) :=
  match guv with
  | [] => []
  | c :: rest => questions_of i c :: questions_from (S i) rest
  end.

(** A container that holds a candidate. *)
Definition nonempty (c : container) : bool :=
  match py_len c with
  | Ok n => negb (n =? 0)
  | Raise _ => false
  end.

(** The first element that satisfies [p], with its index counted from
    [i]. *)
Fixpoint find_from {A : Type} (p : A -> bool) (i : nat) (l : list A)
  : option (nat * A) :=
  match l with
  | [] => None
  | x :: r => if p x then Some (i, x) else find_from p (S i) r
  end.

(** The candidates matched by the floats [xs] of a column among the
    thresholds [g]: for each float the first threshold not below it; and by
    the strings [ss] among the set [g]. *)
Definition matched_floats (g xs : list Q) : list Q :=
  flat_map (fun x => match find (Qle_bool x) g with
                     | Some y => [y]
                     | None => []
                     end) xs.

Definition matched_strs (g ss : list string) : list string :=
  flat_map (fun s => match find (String.eqb s) g with
                     | Some t => [t]
                     | None => []
                     end) ss.

(** The containers [guv] have the kinds [sig]: a list for a float column,
    a set for a string column. *)
Definition kind_of (c : container) : option bool :=
  match c with
  | CNone => None
  | CList _ => Some true
  | CSet _ => Some false
  end.

Definition kinds_agree (sig : list bool) (guv : list container) : Prop :=
  map kind_of guv = map Some sig.

(** The local candidates of a column, from its global ones. *)
Definition local_candidates (g : container) (j : nat) (ds : list Row) : container :=
  match g with
  | CNone => CNone
  | CList g => CList (sort (dedupe (matched_floats g (col_floats j ds))))
  | CSet g => CSet (str_set (matched_strs g (col_strs j ds)))
  end.

(** [self] after lines 320 and 325 of [CreateTree], on the training rows
    [T] of kinds [sig]. *)
Definition built (self : DecisionTree) (sig : list bool) (T : list Row) : Prop :=
  T <> []
  /\ uniform sig T
  /\ length (AttributeNames self) = length sig
  /\ GetPossibleValues (length sig) T = Ok (GlobalUniqueValues self)
  /\ GetQuestions (GlobalUniqueValues self) = Ok (GlobalQuestions self).

(** The rows that line 365 appends to [splitSets[i]]. *)
Definition idx_rows (questions : list Question) (i : nat) (ds : list Row) : list Row :=
  filter (fun row => match first_match questions 0 row with
                     | Ok (Some (k, _)) => k =? i
                     | _ => false
                     end) ds.

(** The arguments on which [CreateTreeRecursive] is invoked during
    [CreateTree]: the training rows at line 330 and, at line 374, every
    entry of [splitSets] of an invocation that went on to split. *)
Inductive invoked (self : DecisionTree) (T : list Row) : option (list Row) -> Prop :=
| invoked_root : invoked self T (Some T)
| invoked_branch (ds : list Row) (uv : list container) (g : Q) (a : Z)
    (qs : list Question) (groups : list (option (list Row)))
    (grp : option (list Row)) :
    invoked self T (Some ds) ->
    GetChildPossibleValues (length (AttributeNames self)) (GlobalQuestions self) ds
      = Ok uv ->
    CanSplit ds uv (GlobalUniqueValues self) = Ok true ->
    FindBestSplit ds uv = Ok (g, a) ->
    MakeQuestions uv a = Ok qs ->
    SplitSets qs ds = Ok groups ->
    In grp groups ->
    invoked self T grp.

(** [splitSets[i]] after the rows of [idx_rows] have been appended. *)
Definition extend (g : option (list Row)) (rows : list Row) : option (list Row) :=
  match g, rows with
  | None, [] => None
  | None, _ => Some rows
  | Some old, _ => Some (old ++ rows)
  end.

(** The thresholds of float column [j] of the training rows [T], and the
    local candidates of the column over a subset [ds]. *)
Definition global_thresholds (j : nat) (T : list Row) : list Q :=
  thresholds (sort (dedupe (col_floats j T))).

Definition local_thresholds (j : nat) (T ds : list Row) : list Q :=
  sort (dedupe (matched_floats (global_thresholds j T) (col_floats j ds))).

(** The same for a string column. *)
Definition global_strs (j : nat) (T : list Row) : list string :=
  str_set (col_strs j T).

Definition local_strs (j : nat) (T ds : list Row) : list string :=
  str_set (matched_strs (global_strs j T) (col_strs j ds)).

(** ** Notions used for the rest of the code *)

(** [counts.get(k)]: the value stored under a key equal to [k]. *)
Fixpoint dict_get (d : dict) (k : value) : option nat :=
  match d with
  | [] => None
  | (k', n) :: d' => if val_eqb k k' then Some n else dict_get d' k
  end.

(** The sum of the values of a [dict]. *)
Fixpoint dict_total (d : dict) : nat :=
  match d with
  | [] => 0
  | (_, n) :: d' => n + dict_total d'
  end.

(** The rows whose label equals [k]. *)
Definition has_label (k : value) (row : Row) : bool :=
  match label_of row with
  | Ok l => val_eqb l k
  | Raise _ => false
  end.

(** The calls of [build_branches]: group after group, each call starting
    from the [self.Depth] the call before it left. *)
Inductive chain (recurse : list Row -> nat -> result (node * nat))
  : list (list Row) -> nat -> list node -> nat -> Prop :=
| chain_nil (d : nat) : chain recurse [] d [] d
| chain_cons (g : list Row) (gs : list (list Row)) (d d1 d' : nat)
    (b : node) (bs : list node) :
    recurse g d = Ok (b, d1) ->
    chain recurse gs d1 bs d' ->
    chain recurse (g :: gs) d (b :: bs) d'.

(** A tree as the builder makes them: a leaf holds counts; a decision node
    has as many branches as questions, at least two, one level below it. *)
#[warnings="-register-all"]
Inductive well_formed : nat -> node -> Prop :=
| wf_leaf (counts : dict) (d : nat) :
    counts <> [] -> well_formed d (LeafNode counts d)
| wf_split (qs : list Question) (bs : list node) (d : nat) :
    length qs = length bs ->
    2 <= length qs ->
    Forall (well_formed (S d)) bs ->
    well_formed d (DecisionNode qs bs d).

(** The number of training rows counted in the leaves of a tree. *)
Fixpoint leaf_total (n : node) : nat :=
  match n with
  | LeafNode counts _ => dict_total counts
  | DecisionNode _ bs _ =>
      (fix total (l : list node) : nat :=
         match l with
         | [] => 0
         | b :: r => leaf_total b + total r
         end) bs
  end.

(** The largest [Depth] of a decision node of a tree, 0 when it has none. *)
Fixpoint split_depth (n : node) : nat :=
  match n with
  | LeafNode _ _ => 0
  | DecisionNode _ bs d =>
      (fix deepest (l : list node) : nat :=
         match l with
         | [] => d
         | b :: r => Nat.max (split_depth b) (deepest r)
         end) bs
  end.

(** [tree], with root [root], is what [CreateTree] returns on a fresh
    [DecisionTree] loaded with the names [names] and the rows [T], whose
    kinds are [sig]. *)
Definition trained (names : list string) (sig : list bool) (T : list Row)
    (fuel : nat) (tree : DecisionTree) (root : node) : Prop :=
  T <> []
  /\ uniform sig T
  /\ length names = length sig
  /\ CreateTree fuel (newDecisionTree names T) = Ok tree
  /\ Root tree = Some root.

(** The rows and names of a small training file, used as an example. *)
Definition example_names : list string := ["Color"; "Size"; "Label"]%string.

Definition example_rows : list Row :=
  [[VStr "Green"; VFloat 3; VStr "Yes"];
   [VStr "Yellow"; VFloat 3; VStr "Yes"];
   [VStr "Red"; VFloat 1; VStr "No"];
   [VStr "Red"; VFloat 3; VStr "Yes"]].

Definition example_kinds : list bool := [false; true; false].



(** [P] holds of the questions of every decision node of a tree. *)
Fixpoint all_splits (P : list Question -> Prop) (n : node) : Prop :=
  match n with
  | LeafNode _ _ => True
  | DecisionNode qs bs _ =>
      P qs
      /\ (fix all (l : list node) : Prop :=
            match l with
            | [] => True
            | b :: r => all_splits P b /\ all r
            end) bs
  end.

(** The questions of one decision node, as the builder makes them from
    the training rows [T] of kinds [sig]: all about one attribute column,
    never the label column; thresholds in strictly ascending order, each a
    float of that column of [T], or pairwise different strings, each found
    in that column of [T]. *)
Definition node_questions (sig : list bool) (T : list Row)
    (qs : list Question) : Prop :=
  exists b,
    b < length sig - 1
    /\ ((exists xs,
           nth_error sig b = Some true
           /\ StronglySorted Qlt xs
           /\ incl xs (col_floats b T)
           /\ qs = map (fun x => mkQuestion (Z.of_nat b) (OVal (VFloat x))) xs)
        \/ (exists ts,
              nth_error sig b = Some false
              /\ NoDup ts
              /\ incl ts (col_strs b T)
              /\ qs = map (fun t => mkQuestion (Z.of_nat b) (OVal (VStr t))) ts)).

(** ** Reading the files *)

(** [Clean], lines 136-137 and 215-216: [aStr.replace("\n", "")]. *)
Fixpoint Clean (aStr : string) : string :=
  match aStr with
  | EmptyString => EmptyString
  | String c rest =>
      if Ascii.eqb c "010"%char then Clean rest else String c (Clean rest)
  end.

(** [line.split(",")]: the pieces between the commas, one more than there
    are commas. *)
Fixpoint split_comma (line : string) : list string :=
  match line with
  | EmptyString => [EmptyString]
  | String c rest =>
      if Ascii.eqb c ","%char then EmptyString :: split_comma rest
      else match split_comma rest with
           | word :: words => String c word :: words
           | [] => [String c EmptyString]
           end
  end.

(** Lines 151-156 and 238-243 (227-231 for the names): the words whose
    index is neither ignored nor the target, then the word of the target
    when [aTargetIndex >= 0]. *)
Fixpoint kept_words {A : Type} (aIgnoredIndexes : list Z) (aTargetIndex : Z)
    (index : nat) (words : list A) : list A :=
  match words with
  | [] => []
  | word :: rest =>
      if negb (existsb (Z.eqb (Z.of_nat index)) aIgnoredIndexes)
         && negb (Z.of_nat index =? aTargetIndex)%Z
      then word :: kept_words aIgnoredIndexes aTargetIndex (S index) rest
      else kept_words aIgnoredIndexes aTargetIndex (S index) rest
  end.

Definition final_words {A : Type} (aIgnoredIndexes : list Z) (aTargetIndex : Z)
    (words : list A) : result (list A) :=
  let final := kept_words aIgnoredIndexes aTargetIndex 0 words in
  if (0 <=? aTargetIndex)%Z then
    target <- py_index words aTargetIndex ;;
    Ok (final ++ [target])
  else Ok final.

Section Loaders.

(** [float(word)]: the float read from a word, [None] when [float] raises,
    which is when [IsFloat(word)] is [False].  The files are without words
    that read as an infinity or as a NaN. *)
Variable float_of : string -> option Q.

(** Lines 147-149 and 234-236, for one word. *)
Definition convert (word : string) : value :=
  match float_of word with
  | Some x => VFloat x
  | None => VStr word
  end.

(** Lines 144-156 and 223-243: from a line to a row. *)
Definition read_row (aIgnoredIndexes : list Z) (aTargetIndex : Z) (line : string)
  : result Row :=
  final_words aIgnoredIndexes aTargetIndex
    (map convert (map Clean (split_comma line))).

(** The loop of [LoadTrainingData], lines 218-245, from line [i] of the
    file on; the state is [aRowsToGet], [self.AttributeNames] and
    [self.TrainingData]. *)
Fixpoint LoadTrainingData_from (i : nat) (lines : list string)
    (aIgnoredIndexes : list Z) (aTargetIndex : Z) (aRowsToGet : Z)
    (names : list string) (data : list Row) : result (list string * list Row) :=
  match lines with
  | [] => Ok (names, data)
  | line :: rest =>
      if (aRowsToGet =? 0)%Z then Ok (names, data)
      else if i =? 0 then
        header <- final_words aIgnoredIndexes aTargetIndex
                    (map Clean (split_comma line)) ;;
        LoadTrainingData_from (S i) rest aIgnoredIndexes aTargetIndex
          (aRowsToGet - 1)%Z (names ++ header) data
      else
        final <- read_row aIgnoredIndexes aTargetIndex line ;;
        LoadTrainingData_from (S i) rest aIgnoredIndexes aTargetIndex
          (aRowsToGet - 1)%Z names (data ++ [final])
  end.

(** [DecisionTree.LoadTrainingData], lines 214-245, on the lines of the
    file at [aPath]. *)
Definition LoadTrainingData (self : DecisionTree) (lines : list string)
    (aIgnoredIndexes : list Z) (aTargetIndex : Z) (aRowsToGet : Z)
  : result DecisionTree :=
  '(names, data) <-
    LoadTrainingData_from 0 lines aIgnoredIndexes aTargetIndex aRowsToGet
      (AttributeNames self) (TrainingData self) ;;
  Ok (mkDecisionTree data (Root self) names (Depth self)
        (GlobalUniqueValues self) (GlobalQuestions self)).

(** The loader of [DecisionTree.Decide], lines 139-158. *)
Fixpoint LoadTestData_from (i : nat) (lines : list string)
    (aIgnoredIndexes : list Z) (aTargetIndex : Z) (testData : list Row)
  : result (list Row) :=
  match lines with
  | [] => Ok testData
  | line :: rest =>
      if i =? 0 then
        LoadTestData_from (S i) rest aIgnoredIndexes aTargetIndex testData
      else
        final <- read_row aIgnoredIndexes aTargetIndex line ;;
        LoadTestData_from (S i) rest aIgnoredIndexes aTargetIndex
          (testData ++ [final])
  end.

Definition LoadTestData (lines : list string) (aIgnoredIndexes : list Z)
    (aTargetIndex : Z) : result (list Row) :=
  LoadTestData_from 0 lines aIgnoredIndexes aTargetIndex [].

(** A cell as the loaders leave it: a float, or a string that [float]
    does not read. *)
Definition loaded_cell (v : value) : Prop :=
  match v with
  | VFloat _ => True
  | VStr s => float_of s = None
  end.

End Loaders.

(** The number of lines that [LoadTrainingData] reads from a file of [n]
    lines, the line of the names included. *)
Definition lines_read (n : nat) (aRowsToGet : Z) : nat :=
  if (aRowsToGet <? 0)%Z then n else Nat.min (Z.to_nat aRowsToGet) n.

(** [DecisionTree()], lines 119-133. *)
Definition freshDecisionTree : DecisionTree := newDecisionTree [] [].

(** A reading of unsigned decimal integers, for the examples. *)
Fixpoint digits_value (s : string) (acc : nat) : option nat :=
  match s with
  | EmptyString => Some acc
  | String c rest =>
      let d := nat_of_ascii c in
      if (48 <=? d) && (d <=? 57)
      then digits_value rest (acc * 10 + (d - 48))
      else None
  end.

Definition example_float_of (word : string) : option Q :=
  match word with
  | EmptyString => None
  | _ => match digits_value word 0 with
         | Some n => Some (Qnat n)
         | None => None
         end
  end.

Definition example_lines : list string :=
  ["Id,Color,Size,Label" ++ String "010" EmptyString;
   "1,Green,3,Yes" ++ String "010" EmptyString;
   "2,Red,1,No" ++ String "010" EmptyString;
   "3,Red,3,Yes"]%string.

(** ** The conversions for the other libraries *)

(** [l.pop()]. *)
Definition py_pop {A : Type} (l : list A) : result (list A) :=
  match l with
  | [] => Raise IndexError
  | _ => Ok (removelast l)
  end.

(** [DecisionTree.ConvertToSciKitData], lines 462-471; the row that is
    popped is the copy just appended. *)
Fixpoint ConvertToSciKitData_from (rows : list Row) (trainingData : list Row)
    (target : list value) : result (list Row * list value) :=
  match rows with
  | [] => Ok (trainingData, target)
  | row :: rest =>
      popped <- py_pop row ;;
      answer <- py_index row (Z.of_nat (length row) - 1) ;;
      ConvertToSciKitData_from rest (trainingData ++ [popped]) (target ++ [answer])
  end.

Definition ConvertToSciKitData (self : DecisionTree)
  : result (list Row * list value) :=
  ConvertToSciKitData_from (TrainingData self) [] [].

(** [matrix[i].append(data)]. *)
Fixpoint append_cell (matrix : list (list value)) (i : nat) (data : value)
  : result (list (list value)) :=
  match matrix, i with
  | [], _ => Raise IndexError
  | col :: rest, O => Ok ((col ++ [data]) :: rest)
  | col :: rest, S i' => rest' <- append_cell rest i' data ;; Ok (col :: rest')
  end.

(** Lines 456-458, from the word of index [i] of a row on. *)
Fixpoint add_cells (i : nat) (words : list value) (matrix : list (list value))
  : result (list (list value)) :=
  match words with
  | [] => Ok matrix
  | data :: rest =>
      let matrix1 := if length matrix <? i + 1 then matrix ++ [[]] else matrix in
      matrix2 <- append_cell matrix1 i data ;;
      add_cells (S i) rest matrix2
  end.

(** Lines 453-458 of [DecisionTree.ConvertToCorrelMatrix]: the matrix that
    is handed to [np.corrcoef]. *)
Fixpoint ConvertToCorrelMatrix_from (rows : list Row) (matrix : list (list value))
  : result (list (list value)) :=
  match rows with
  | [] => Ok matrix
  | row :: rest =>
      matrix' <- add_cells 0 row matrix ;;
      ConvertToCorrelMatrix_from rest matrix'
  end.

Definition ConvertToCorrelMatrix_matrix (self : DecisionTree)
  : result (list (list value)) :=
  ConvertToCorrelMatrix_from (TrainingData self) [].

(** The cells of column [i], in the order of the rows that have one. *)
Definition column (i : nat) (rows : list Row) : list value :=
  flat_map (fun row => match nth_error row i with
                       | Some v => [v]
                       | None => []
                       end) rows.

(** The length of the longest row. *)
Definition widest (rows : list Row) : nat :=
  fold_right (fun row w => Nat.max (length row) w) 0 rows.

(** * Properties *)

(** ** The error monad *)

Lemma bind_Ok {A B : Type} (m : result A) (k : A -> result B) (b : B) :
  bind m k = Ok b -> exists a, m = Ok a /\ k a = Ok b.
Proof.
  destruct m as [a|e]; simpl; intros H.
  - exists a. split; [reflexivity | exact H].
  - discriminate H.
Qed.

Lemma py_index_nat {A : Type} (l : list A) (i : nat) :
  py_index l (Z.of_nat i) =
  match nth_error l i with Some a => Ok a | None => Raise IndexError end.
Proof.
  unfold py_index.
  destruct (Z.ltb_spec (Z.of_nat i) 0) as [H|H]; [lia|].
  destruct (Z.ltb_spec (Z.of_nat i) 0) as [H'|H']; [lia|].
  now rewrite Nat2Z.id.
Qed.

Lemma py_index_last {A : Type} (l : list A) (a : A) :
  py_index (l ++ [a]) (Z.of_nat (length (l ++ [a])) - 1) = Ok a.
Proof.
  rewrite length_app. simpl.
  replace (Z.of_nat (length l + 1) - 1)%Z with (Z.of_nat (length l)) by lia.
  rewrite py_index_nat, nth_error_app2 by lia.
  now rewrite Nat.sub_diag.
Qed.

(** ** Question.Match *)

(** C1, as amended: the comparison is chosen by the kind of the value found
    in the row, [<=] for a float and [==] otherwise; when the row's value
    and the reference value are of one kind this is what section 4.1
    says. *)
Theorem Match_by_row_value (q : Question) (row : Row) (val : value) :
  py_index row (Attribute q) = Ok val ->
  Match q row =
    (if IsFloat (OVal val) then py_le val (Value q)
     else Ok (py_eq val (Value q)))
  /\ (IsFloat (OVal val) = IsFloat (Value q) -> Match q row = Match_spec q row).
Proof.
  intros Hval. unfold Match, Match_spec. rewrite Hval. unfold bind.
  split; [reflexivity|].
  intros Hkind. rewrite Hkind. reflexivity.
Qed.

Lemma Match_by_row_value_witness :
  Match (mkQuestion 0 (OVal (VFloat 3%Q))) [VFloat 1%Q; VStr "Yes"] = Ok true
  /\ Match (mkQuestion 0 (OVal (VFloat 3%Q))) [VFloat 1%Q; VStr "Yes"]
     = Match_spec (mkQuestion 0 (OVal (VFloat 3%Q))) [VFloat 1%Q; VStr "Yes"].
Proof.
  destruct (Match_by_row_value (mkQuestion 0 (OVal (VFloat 3%Q)))
              [VFloat 1%Q; VStr "Yes"] (VFloat 1%Q) eq_refl) as [H1 H2].
  split.
  - rewrite H1. reflexivity.
  - apply H2. reflexivity.
Defined.

(** C1, as stated, fails: against a string reference a float of the row is
    compared with [<=], a [TypeError], where the stated rule answers
    [False]; against a float reference a string of the row is compared with
    [==], where the stated rule raises. *)
Lemma Match_not_by_reference_value :
  Match (mkQuestion 0 (OVal (VStr "a"))) [VFloat 2%Q] = Raise TypeError
  /\ Match_spec (mkQuestion 0 (OVal (VStr "a"))) [VFloat 2%Q] = Ok false
  /\ Match (mkQuestion 0 (OVal (VFloat 2%Q))) [VStr "a"] = Ok false
  /\ Match_spec (mkQuestion 0 (OVal (VFloat 2%Q))) [VStr "a"] = Raise TypeError.
Proof. repeat split. Qed.

(** ** DecisionNode.Decide *)

Lemma Decide_DecisionNode (qs : list Question) (bs : list node) (d : nat) (row : Row) :
  Decide (DecisionNode qs bs d) row =
  (found <- first_match qs 0 row ;;
   match nth_error bs (match found with Some (i, _) => i | None => 0 end) with
   | Some b => Decide b row
   | None => Raise IndexError
   end).
Proof.
  simpl. destruct (first_match qs 0 row) as [found|e]; simpl; [|reflexivity].
  generalize (match found with Some (i, _) => i | None => 0 end).
  induction bs as [|b bs IH]; intros [|i]; simpl; try reflexivity.
  apply IH.
Qed.

Lemma first_match_hit (qs : list Question) (row : Row) (i : nat) (q : Question) :
  forall k,
  nth_error qs i = Some q ->
  (forall j q', j < i -> nth_error qs j = Some q' -> Match q' row = Ok false) ->
  Match q row = Ok true ->
  first_match qs k row = Ok (Some (k + i, q)).
Proof.
  revert i. induction qs as [|q0 qs IH]; intros [|i] k Hq Hbefore Hm; simpl in *;
    try discriminate.
  - injection Hq as ->. rewrite Hm. simpl. now rewrite Nat.add_0_r.
  - rewrite (Hbefore 0 q0) by (simpl; auto; lia). simpl.
    rewrite (IH i (S k) Hq); [f_equal; f_equal; f_equal; lia| |exact Hm].
    intros j q' Hj Hq'. apply (Hbefore (S j) q'); [lia|exact Hq'].
Qed.

Lemma first_match_miss (qs : list Question) (row : Row) :
  forall k,
  (forall q, In q qs -> Match q row = Ok false) ->
  first_match qs k row = Ok None.
Proof.
  induction qs as [|q0 qs IH]; intros k H; simpl; [reflexivity|].
  rewrite (H q0) by (left; reflexivity). simpl.
  apply IH. intros q Hq. apply H. right. exact Hq.
Qed.

(** C3: a decision node with as many branches as questions, and at least
    one, answers with the branch of the first question that matches the row
    and, when no question matches, with its first branch. *)
Theorem Decide_first_match_or_first_branch
    (qs : list Question) (bs : list node) (d : nat) (row : Row) :
  qs <> [] ->
  length qs = length bs ->
  (forall i q,
      nth_error qs i = Some q ->
      (forall j q', j < i -> nth_error qs j = Some q' -> Match q' row = Ok false) ->
      Match q row = Ok true ->
      exists b, nth_error bs i = Some b
                /\ Decide (DecisionNode qs bs d) row = Decide b row)
  /\ ((forall q, In q qs -> Match q row = Ok false) ->
      exists b0, nth_error bs 0 = Some b0
                 /\ Decide (DecisionNode qs bs d) row = Decide b0 row).
Proof.
  intros Hne Hlen. split.
  - intros i q Hq Hbefore Hm.
    assert (Hi : i < length bs).
    { rewrite <- Hlen. apply nth_error_Some. rewrite Hq. discriminate. }
    destruct (nth_error bs i) as [b|] eqn:Hb.
    2:{ apply nth_error_None in Hb. lia. }
    exists b. split; [reflexivity|].
    rewrite Decide_DecisionNode.
    rewrite (first_match_hit qs row i q 0 Hq Hbefore Hm). simpl.
    now rewrite Hb.
  - intros Hnone.
    destruct bs as [|b0 bs].
    { destruct qs; [contradiction|discriminate]. }
    exists b0. split; [reflexivity|].
    rewrite Decide_DecisionNode, (first_match_miss qs row 0 Hnone).
    reflexivity.
Qed.

Lemma Decide_first_match_or_first_branch_witness :
  let qs := [mkQuestion 0 (OVal (VFloat 1%Q)); mkQuestion 0 (OVal (VFloat 3%Q))] in
  let bs := [LeafNode [(Yes, 1)] 1; LeafNode [(No, 1)] 1] in
  Decide (DecisionNode qs bs 0) [VFloat 2%Q] = Ok [(No, 1)]
  /\ Decide (DecisionNode qs bs 0) [VFloat 5%Q] = Ok [(Yes, 1)].
Proof.
  intros qs bs.
  assert (Hne : qs <> []) by discriminate.
  assert (Hlen : length qs = length bs) by reflexivity.
  split.
  - destruct (Decide_first_match_or_first_branch qs bs 0 [VFloat 2%Q] Hne Hlen)
      as [Hhit _].
    destruct (Hhit 1 (mkQuestion 0 (OVal (VFloat 3%Q))) eq_refl) as (b & Hb & ->).
    + intros [|j] q' Hj Hq'; [|lia].
      injection Hq' as <-. reflexivity.
    + reflexivity.
    + injection Hb as <-. reflexivity.
  - destruct (Decide_first_match_or_first_branch qs bs 0 [VFloat 5%Q] Hne Hlen)
      as [_ Hmiss].
    destruct Hmiss as (b0 & Hb & ->).
    + intros q [<-|[<-|[]]]; reflexivity.
    + injection Hb as <-. reflexivity.
Defined.

(** ** The evaluator *)

Lemma dict_has_iff (d : dict) (k : value) :
  dict_has d k = true <-> exists k' n, In (k', n) d /\ val_eqb k k' = true.
Proof.
  induction d as [|[k0 n0] d IH]; simpl.
  - split; [discriminate|]. intros (k' & n & [] & _).
  - rewrite orb_true_iff, IH. split.
    + intros [H|(k' & n & Hin & H)].
      * exists k0, n0. auto.
      * exists k', n. auto.
    + intros (k' & n & [Heq|Hin] & H).
      * injection Heq as <- <-. auto.
      * right. exists k', n. auto.
Qed.

Lemma val_eqb_str (s : string) (k : value) :
  val_eqb (VStr s) k = true <-> k = VStr s.
Proof.
  destruct k as [x|t]; simpl.
  - split; discriminate.
  - rewrite String.eqb_eq. split; [intros ->; reflexivity|intros H; now injection H].
Qed.

Lemma val_eqb_float (x : Q) (k : value) :
  val_eqb (VFloat x) k = true <-> exists y, k = VFloat y /\ (x == y)%Q.
Proof.
  destruct k as [y|t]; simpl.
  - rewrite Qeq_bool_iff. split.
    + intros H. exists y. auto.
    + intros (y' & Hy & H). injection Hy as ->. exact H.
  - split; [discriminate|]. intros (y & Hy & _). discriminate.
Qed.

(** C8: the guess is positive iff a key ["Yes"] or [1] is in the counts,
    negative iff a key ["No"] or [0] is; a row moves at most one of the
    four cells, by one; it moves exactly one when a single guess flag holds
    and the answer is one of the four canonical labels; with both flags up
    the true positive wins over the false negative and the true negative
    over the false positive; with no flag up no cell moves. *)
Theorem tally_one_cell (c : Counters) (counts : dict) (answer : value) :
  (guessedTrue counts = true <->
     exists k n, In (k, n) counts
                 /\ (k = Yes \/ exists y, k = VFloat y /\ (1 == y)%Q))
  /\ (guessedFalse counts = true <->
     exists k n, In (k, n) counts
                 /\ (k = No \/ exists y, k = VFloat y /\ (0 == y)%Q))
  /\ (c_TP c <= c_TP (tally c counts answer)
      /\ c_TN c <= c_TN (tally c counts answer)
      /\ c_FP c <= c_FP (tally c counts answer)
      /\ c_FN c <= c_FN (tally c counts answer)
      /\ cells (tally c counts answer) <= S (cells c))
  /\ (xorb (guessedTrue counts) (guessedFalse counts) = true ->
      wasTrue answer || wasFalse answer = true ->
      cells (tally c counts answer) = S (cells c))
  /\ (guessedTrue counts = true -> guessedFalse counts = true ->
      (wasTrue answer = true ->
         c_TP (tally c counts answer) = S (c_TP c)
         /\ c_FN (tally c counts answer) = c_FN c)
      /\ (wasTrue answer = false -> wasFalse answer = true ->
         c_TN (tally c counts answer) = S (c_TN c)
         /\ c_FP (tally c counts answer) = c_FP c))
  /\ (guessedTrue counts = false -> guessedFalse counts = false ->
      cells (tally c counts answer) = cells c).
Proof.
  split; [|split]; [| |split; [|split; [|split]]].
  - unfold guessedTrue. rewrite orb_true_iff, !dict_has_iff. split.
    + intros [(k & n & Hin & H)|(k & n & Hin & H)]; exists k, n; split; auto.
      * left. now apply val_eqb_str in H.
      * right. now apply val_eqb_float in H.
    + intros (k & n & Hin & [->|H]).
      * left. exists Yes, n. split; [exact Hin|reflexivity].
      * right. exists k, n. split; [exact Hin|]. now apply val_eqb_float.
  - unfold guessedFalse. rewrite orb_true_iff, !dict_has_iff. split.
    + intros [(k & n & Hin & H)|(k & n & Hin & H)]; exists k, n; split; auto.
      * left. now apply val_eqb_str in H.
      * right. now apply val_eqb_float in H.
    + intros (k & n & Hin & [->|H]).
      * left. exists No, n. split; [exact Hin|reflexivity].
      * right. exists k, n. split; [exact Hin|]. now apply val_eqb_float.
  - unfold tally, cells.
    destruct (guessedTrue counts), (guessedFalse counts),
      (wasTrue answer), (wasFalse answer); simpl; lia.
  - unfold tally, cells.
    destruct (guessedTrue counts), (guessedFalse counts),
      (wasTrue answer), (wasFalse answer); simpl; intros; try discriminate; lia.
  - unfold tally. intros HgT HgF. rewrite HgT, HgF. split.
    + intros HwT. rewrite HwT. simpl. auto.
    + intros HwT HwF. rewrite HwT, HwF. simpl. auto.
  - unfold tally, cells. intros HgT HgF. rewrite HgT, HgF. reflexivity.
Qed.

Lemma tally_one_cell_witness :
  let c := mkCounters 0 0 0 0 0 0 0 in
  cells (tally c [(Yes, 5)] No) = 1
  /\ c_TP (tally c [(Yes, 1); (No, 1)] Yes) = 1.
Proof.
  intros c. split.
  - destruct (tally_one_cell c [(Yes, 5)] No) as (_ & _ & _ & Hone & _).
    apply Hone; reflexivity.
  - destruct (tally_one_cell c [(Yes, 1); (No, 1)] Yes)
      as (_ & _ & _ & _ & Hboth & _).
    destruct (Hboth eq_refl eq_refl) as [Htp _].
    apply Htp. reflexivity.
Defined.

(** C9: the three metrics are the stated quotients, times 100, when their
    denominators are positive and [-1] otherwise; the computation never
    raises. *)
Theorem metrics_sentinels (c : Counters) :
  metrics c =
  Ok ((if 0 <? c_P c + c_N c
       then Qnat (c_TP c + c_TN c) / Qnat (c_P c + c_N c) * 100
       else -1)%Q,
      (if 0 <? c_TP c + c_FP c
       then Qnat (c_TP c) / Qnat (c_TP c + c_FP c) * 100
       else -1)%Q,
      (if 0 <? c_P c
       then Qnat (c_TP c) / Qnat (c_P c) * 100
       else -1)%Q).
Proof.
  unfold metrics, py_truediv.
  destruct (c_P c + c_N c) as [|pn]; destruct (c_TP c + c_FP c) as [|tf];
    destruct (c_P c) as [|p]; reflexivity.
Qed.

(** ** Equality of values *)

Lemma val_eqb_refl (a : value) : val_eqb a a = true.
Proof.
  destruct a as [x|s]; simpl; [apply Qeq_bool_refl|apply String.eqb_refl].
Qed.

Lemma val_eqb_sym (a b : value) : val_eqb a b = val_eqb b a.
Proof.
  destruct a as [x|s], b as [y|t]; simpl; try reflexivity.
  - apply Qeq_bool_comm.
  - apply String.eqb_sym.
Qed.

Lemma val_eqb_trans (a b c : value) :
  val_eqb a b = true -> val_eqb b c = true -> val_eqb a c = true.
Proof.
  destruct a as [x|s], b as [y|t], c as [z|u]; simpl; try discriminate.
  - apply Qeq_bool_trans.
  - rewrite !String.eqb_eq. congruence.
Qed.

(** ** Counts and GiniIndex *)

Lemma py_index_Ok_nonempty {A : Type} (l : list A) (i : Z) (a : A) :
  py_index l i = Ok a -> l <> [].
Proof.
  intros H ->. unfold py_index in H. simpl in H.
  destruct (i <? 0)%Z; simpl in H.
  - destruct (i <? 0)%Z; [discriminate|].
    destruct (Z.to_nat i); discriminate.
  - destruct (i <? 0)%Z; [discriminate|].
    destruct (Z.to_nat i); discriminate.
Qed.

Lemma label_of_nonempty (row : Row) :
  row <> [] -> exists lbl, label_of row = Ok lbl.
Proof.
  intros H. destruct (exists_last H) as (l & a & ->).
  exists a. apply py_index_last.
Qed.

Lemma Counts_from_spec (a : Z) (e : value) (ds : list Row) :
  (forall row, In row ds -> exists v, py_index row a = Ok v) ->
  forall trues count,
  Counts_from trues count ds e a =
  Ok (trues + length (filter positive (group a e ds)),
      (count + length (group a e ds))
      - (trues + length (filter positive (group a e ds))),
      count + length (group a e ds)).
Proof.
  induction ds as [|row ds IH]; intros Hrows trues count.
  - simpl. now rewrite !Nat.add_0_r.
  - destruct (Hrows row (or_introl eq_refl)) as (v & Hv).
    assert (IH' := IH (fun r Hr => Hrows r (or_intror Hr))).
    assert (Hig : in_group a e row = py_eq v (OVal e)).
    { unfold in_group. now rewrite Hv. }
    unfold group in *. cbn [Counts_from filter]. rewrite Hv, Hig. cbn [bind].
    destruct (py_eq v (OVal e)) eqn:Heq.
    + destruct (label_of_nonempty _ (py_index_Ok_nonempty _ _ _ Hv)) as (lbl & Hlbl).
      assert (Hpos : positive row = wasTrue lbl).
      { unfold positive. now rewrite Hlbl. }
      unfold label_of in Hlbl. rewrite Hlbl. cbn [bind filter]. rewrite Hpos.
      change (py_eq lbl (OVal Yes) || py_eq lbl (OVal (VFloat 1%Q)))
        with (wasTrue lbl).
      destruct (wasTrue lbl); rewrite IH'; cbn [length]; f_equal; (apply f_equal2; [apply f_equal2|]); lia.
    + apply IH'.
Qed.

Lemma positive_le_group (a : Z) (e : value) (ds : list Row) :
  length (filter positive (group a e ds)) <= length (group a e ds).
Proof. apply filter_length_le. Qed.

Lemma Qnat_plus (n m : nat) : Qnat (n + m) = (Qnat n + Qnat m)%Q.
Proof. unfold Qnat. now rewrite Nat2Z.inj_add, inject_Z_plus. Qed.

Lemma Qnat_minus (n m : nat) : m <= n -> (Qnat (n - m) == Qnat n - Qnat m)%Q.
Proof.
  intros H. unfold Qnat. rewrite Nat2Z.inj_sub by exact H.
  unfold Qeq. simpl. lia.
Qed.

Lemma Qnat_le (n m : nat) : n <= m -> (Qnat n <= Qnat m)%Q.
Proof. intros H. unfold Qnat. rewrite <- Zle_Qle. lia. Qed.

Lemma Qnat_pos (n : nat) : 0 < n -> (0 < Qnat n)%Q.
Proof. intros H. unfold Qnat, Qlt. simpl. lia. Qed.

Lemma Qnat_nonneg (n : nat) : (0 <= Qnat n)%Q.
Proof. unfold Qnat, Qle. simpl. lia. Qed.

Lemma gini_term_Q (P C : Q) :
  (0 <= P -> P <= C -> 0 < C ->
   0 <= 1 - (P / C) * (P / C) - ((C - P) / C) * ((C - P) / C) <= 1)%Q.
Proof.
  intros HP HPC HC.
  assert (Hp0 : (0 <= P / C)%Q) by (apply Qle_shift_div_l; lra).
  assert (Hp1 : (P / C <= 1)%Q) by (apply Qle_shift_div_r; lra).
  assert (Hf : ((C - P) / C == 1 - P / C)%Q) by (field; lra).
  rewrite Hf. split; nra.
Qed.

Lemma gini_term_pure (P C : Q) :
  (0 < C -> P == C \/ P == 0 ->
   1 - (P / C) * (P / C) - ((C - P) / C) * ((C - P) / C) == 0)%Q.
Proof.
  intros HC [H|H]; rewrite H; field; lra.
Qed.

Lemma py_truediv_Ok (a b : nat) :
  0 < b -> py_truediv a b = Ok (Qnat a / Qnat b)%Q.
Proof.
  intros H. unfold py_truediv. destruct b; [lia|reflexivity].
Qed.

Lemma group_le (a : Z) (e : value) (ds : list Row) :
  length (group a e ds) <= length ds.
Proof. apply filter_length_le. Qed.

Lemma pure_group_counts (a : Z) (e : value) (ds : list Row) :
  pure_group a e ds = true ->
  length (filter positive (group a e ds)) = length (group a e ds)
  \/ length (filter positive (group a e ds)) = 0.
Proof.
  unfold pure_group. generalize (group a e ds) as g.
  intros g H. apply orb_true_iff in H. destruct H as [H|H].
  - left. induction g as [|r g IH]; simpl in *; [reflexivity|].
    apply andb_true_iff in H. destruct H as [Hr Hg].
    rewrite Hr. simpl. now rewrite IH.
  - right. induction g as [|r g IH]; simpl in *; [reflexivity|].
    apply andb_true_iff in H. destruct H as [Hr Hg].
    apply negb_true_iff in Hr. rewrite Hr. now apply IH.
Qed.

Lemma GiniIndex_loop_spec (a : Z) (ds : list Row) :
  (forall row, In row ds -> exists v, py_index row a = Ok v) ->
  0 < length ds ->
  forall eles entropy,
  exists g,
    GiniIndex_loop ds a (length ds) entropy eles = Ok g
    /\ (entropy <= g)%Q
    /\ (g <= entropy + Qnat (sum_counts a eles ds) / Qnat (length ds))%Q
    /\ (forallb (fun e => pure_group a e ds) eles = true -> (g == entropy)%Q).
Proof.
  intros Hrows Hlen.
  assert (HT : (0 < Qnat (length ds))%Q) by now apply Qnat_pos.
  induction eles as [|e eles IH]; intros entropy.
  - exists entropy. simpl. unfold Qdiv. repeat split; try reflexivity; try lra.
    change (Qnat 0) with 0%Q. lra.
  - cbn [GiniIndex_loop sum_counts fold_right forallb].
    fold (sum_counts a eles ds).
    unfold Counts. rewrite (Counts_from_spec a e ds Hrows 0 0).
    cbn [bind Nat.add].
    set (c := length (group a e ds)).
    set (t := length (filter positive (group a e ds))).
    assert (Htc : t <= c) by apply positive_le_group.
    assert (HcT : c <= length ds) by apply group_le.
    destruct (Nat.eqb_spec c 0) as [Hc0|Hc0].
    + destruct (IH entropy) as (g & Hg & Hlo & Hhi & Hpure).
      exists g. rewrite Hc0. cbn [Nat.add].
      repeat split; auto.
      intros H. apply andb_true_iff in H. apply Hpure, H.
    + assert (Hc : 0 < c) by lia.
      assert (HC : (0 < Qnat c)%Q) by now apply Qnat_pos.
      rewrite !py_truediv_Ok by lia. cbn [bind].
      set (gi := (1 - Qnat t / Qnat c * (Qnat t / Qnat c)
                  - Qnat (c - t) / Qnat c * (Qnat (c - t) / Qnat c))%Q).
      assert (Hgi_eq :
        (gi == 1 - Qnat t / Qnat c * (Qnat t / Qnat c)
               - (Qnat c - Qnat t) / Qnat c * ((Qnat c - Qnat t) / Qnat c))%Q).
      { unfold gi. now rewrite (Qnat_minus c t Htc). }
      assert (Hgi : (0 <= gi <= 1)%Q).
      { rewrite Hgi_eq. apply gini_term_Q; auto using Qnat_nonneg, Qnat_le. }
      assert (Hw0 : (0 <= Qnat c / Qnat (length ds))%Q).
      { apply Qle_shift_div_l; [exact HT|]. pose proof (Qnat_nonneg c). lra. }
      destruct (IH (entropy + Qnat c / Qnat (length ds) * gi)%Q)
        as (g & Hg & Hlo & Hhi & Hpure).
      exists g. split; [exact Hg|].
      assert (Hsum :
        (Qnat (c + sum_counts a eles ds) / Qnat (length ds)
         == Qnat c / Qnat (length ds)
            + Qnat (sum_counts a eles ds) / Qnat (length ds))%Q).
      { rewrite Qnat_plus. field. lra. }
      split; [|split].
      * nra.
      * rewrite Hsum. nra.
      * intros H. apply andb_true_iff in H. destruct H as [He Hes].
        rewrite (Hpure Hes).
        assert (Hz : (gi == 0)%Q).
        { rewrite Hgi_eq. apply gini_term_pure; [exact HC|].
          destruct (pure_group_counts a e ds He) as [H1|H1]; fold t c in H1.
          - left. now rewrite H1.
          - right. now rewrite H1. }
        rewrite Hz. lra.
Qed.

Lemma in_group_distinct (a : Z) (row : Row) (e0 : value) (eles : list value) :
  in_group a e0 row = true ->
  existsb (val_eqb e0) eles = false ->
  filter (fun e => in_group a e row) eles = [].
Proof.
  unfold in_group. destruct (py_index row a) as [v|]; [|discriminate].
  intros H0 Hnone.
  induction eles as [|e eles IH]; simpl in *; [reflexivity|].
  apply orb_false_iff in Hnone. destruct Hnone as [He Hes].
  destruct (py_eq v (OVal e)) eqn:Hve; [|now apply IH].
  exfalso. rewrite <- not_true_iff_false in He. apply He.
  apply val_eqb_trans with v; [|exact Hve].
  rewrite val_eqb_sym. exact H0.
Qed.

Lemma hits_le_1 (a : Z) (row : Row) (eles : list value) :
  distinctb eles = true ->
  length (filter (fun e => in_group a e row) eles) <= 1.
Proof.
  induction eles as [|e eles IH]; simpl; intros H; [lia|].
  apply andb_true_iff in H. destruct H as [He Hes].
  apply negb_true_iff in He.
  destruct (in_group a e row) eqn:Hin.
  - rewrite (in_group_distinct a row e eles Hin He). simpl. lia.
  - now apply IH.
Qed.

Lemma sum_counts_cons (a : Z) (row : Row) (ds : list Row) (eles : list value) :
  sum_counts a eles (row :: ds) =
  length (filter (fun e => in_group a e row) eles) + sum_counts a eles ds.
Proof.
  induction eles as [|e eles IH]; [reflexivity|].
  cbn [sum_counts fold_right filter]. fold (sum_counts a eles (row :: ds)).
  fold (sum_counts a eles ds). rewrite IH. unfold group. cbn [filter].
  destruct (in_group a e row); cbn [length]; lia.
Qed.

Lemma sum_counts_le (a : Z) (eles : list value) (ds : list Row) :
  distinctb eles = true -> sum_counts a eles ds <= length ds.
Proof.
  intros Hd. induction ds as [|row ds IH].
  - induction eles as [|e eles IHe]; simpl in *; [lia|].
    apply andb_true_iff in Hd. destruct Hd as [_ Hd]. now apply IHe.
  - rewrite sum_counts_cons. simpl.
    pose proof (hits_le_1 a row eles Hd). lia.
Qed.

Lemma GiniIndex_sum (ds : list Row) (a : Z) (uv : list container)
    (c : container) (eles : list value) :
  ds <> [] ->
  (forall row, In row ds -> exists v, py_index row a = Ok v) ->
  py_index uv a = Ok c ->
  py_iter c = Ok eles ->
  exists g,
    GiniIndex ds a uv = Ok g
    /\ (0 <= g)%Q
    /\ (g <= Qnat (sum_counts a eles ds) / Qnat (length ds))%Q
    /\ (forallb (fun e => pure_group a e ds) eles = true -> (g == 0)%Q).
Proof.
  intros Hds Hrows Hc Heles.
  assert (Hpos : 0 < length ds) by (destruct ds; [contradiction|simpl; lia]).
  assert (Hq : (0 <= Qnat (sum_counts a eles ds) / Qnat (length ds))%Q).
  { apply Qle_shift_div_l; [now apply Qnat_pos|].
    rewrite Qmult_0_l. apply Qnat_nonneg. }
  unfold GiniIndex. rewrite Hc. cbn [bind].
  assert (Hlen : py_len c = Ok (length eles)).
  { destruct c as [|l|l]; simpl in *; try discriminate;
      injection Heles as <-; now rewrite length_map. }
  rewrite Hlen. cbn [bind].
  destruct (Nat.eqb_spec (length eles) 1) as [H1|H1].
  - exists 0%Q. repeat split; try reflexivity; try lra.
  - rewrite Heles. cbn [bind].
    destruct (GiniIndex_loop_spec a ds Hrows Hpos eles 0%Q)
      as (g & Hg & Hlo & Hhi & Hpure).
    exists g. split; [exact Hg|]. split; [exact Hlo|].
    split; [lra|exact Hpure].
Qed.

Lemma sum_counts_fraction (a : Z) (eles : list value) (ds : list Row) :
  ds <> [] -> distinctb eles = true ->
  (Qnat (sum_counts a eles ds) / Qnat (length ds) <= 1)%Q.
Proof.
  intros Hds Hdist.
  assert (Hpos : 0 < length ds) by (destruct ds; [contradiction|simpl; lia]).
  apply Qle_shift_div_r; [now apply Qnat_pos|].
  rewrite Qmult_1_l. apply Qnat_le, sum_counts_le, Hdist.
Qed.



(** ** FindBestSplit *)

Section BestSplit.

Variables (ds : list Row) (uv : list container) (width : nat).

Hypothesis ds_nonempty : ds <> [].
Hypothesis rows_width : Forall (fun row => length row = width) ds.
Hypothesis candidates :
  forall a, a < width - 1 ->
  exists c, nth_error uv a = Some c /\ candidates_ok c = true.

Lemma attribute_Gini (a : nat) :
  a < width - 1 ->
  exists c n g,
    nth_error uv a = Some c /\ py_len c = Ok n /\ 1 <= n
    /\ GiniIndex ds (Z.of_nat a) uv = Ok g /\ (0 <= g <= 1)%Q.
Proof.
  intros Ha. destruct (candidates a Ha) as (c & Hc & Hok).
  unfold candidates_ok in Hok.
  destruct (py_iter c) as [eles|] eqn:Heles; [|discriminate].
  apply andb_true_iff in Hok. destruct Hok as [Hne Hdist].
  apply negb_true_iff, Nat.eqb_neq in Hne.
  destruct (GiniIndex_sum ds (Z.of_nat a) uv c eles)
    as (g & Hg & Hlo & Hhi & _); auto.
  - intros row Hrow. rewrite Forall_forall in rows_width.
    specialize (rows_width row Hrow). rewrite py_index_nat.
    destruct (nth_error row a) as [v|] eqn:Hv; [now exists v|].
    apply nth_error_None in Hv. lia.
  - rewrite py_index_nat, Hc. reflexivity.
  - assert (Hone := sum_counts_fraction (Z.of_nat a) eles ds ds_nonempty Hdist).
    exists c, (length eles), g. repeat split; auto.
    + destruct c as [|l|l]; simpl in *; try discriminate;
        injection Heles as <-; now rewrite length_map.
    + lia.
    + eapply Qle_trans; eassumption.
Qed.

Lemma FindBestSplit_loop_spec (m : nat) :
  forall k bestInfo bestAttribute,
  k + m <= width - 1 ->
  exists g best,
    FindBestSplit_loop ds uv bestInfo bestAttribute (seq k m) = Ok (g, best)
    /\ ((g = bestInfo /\ best = bestAttribute
         /\ forall a ga, k <= a < k + m -> qualifies uv a = true ->
              GiniIndex ds (Z.of_nat a) uv = Ok ga -> (bestInfo <= ga)%Q)
        \/ (exists b,
              best = Z.of_nat b /\ k <= b < k + m /\ qualifies uv b = true
              /\ GiniIndex ds (Z.of_nat b) uv = Ok g /\ (g < bestInfo)%Q
              /\ forall a ga, k <= a < k + m -> qualifies uv a = true ->
                   GiniIndex ds (Z.of_nat a) uv = Ok ga ->
                   (g <= ga)%Q /\ (a < b -> (g < ga)%Q))).
Proof.
  induction m as [|m IH]; intros k bi ba Hk.
  - exists bi, ba. split; [reflexivity|]. left. repeat split. intros; lia.
  - cbn [seq FindBestSplit_loop].
    destruct (attribute_Gini k) as (c & n & gk & Hc & Hn & Hn1 & Hgk & Hbk); [lia|].
    rewrite py_index_nat, Hc. cbn [bind]. rewrite Hn. cbn [bind].
    assert (Hq : qualifies uv k = negb (n =? 1)).
    { unfold qualifies. rewrite Hc, Hn.
      destruct (Nat.eqb_spec n 1), (Nat.ltb_spec 1 n); simpl; auto; lia. }
    destruct (Nat.eqb_spec n 1) as [Hone|Hmany]; cbn [negb] in Hq.
    + destruct (IH (S k) bi ba) as (g & best & Hrun & Hres); [lia|].
      exists g, best. split; [exact Hrun|].
      destruct Hres as [(-> & -> & Hall)|(b & -> & Hb & Hqb & Hgb & Hlt & Hall)].
      * left. repeat split. intros a ga Ha Hqa Hga.
        destruct (Nat.eq_dec a k) as [->|Hak]; [congruence|].
        apply Hall with a; auto. lia.
      * right. exists b.
        split; [reflexivity|]. split; [lia|]. split; [exact Hqb|].
        split; [exact Hgb|]. split; [exact Hlt|].
        intros a ga Ha Hqa Hga.
        destruct (Nat.eq_dec a k) as [->|Hak]; [congruence|].
        apply Hall; auto. lia.
    + rewrite Hgk. cbn [bind]. unfold Qlt_bool.
      destruct (Qle_bool bi gk) eqn:Hcmp; cbn [negb].
      * apply Qle_bool_iff in Hcmp.
        destruct (IH (S k) bi ba) as (g & best & Hrun & Hres); [lia|].
        exists g, best. split; [exact Hrun|].
        destruct Hres as [(-> & -> & Hall)|(b & -> & Hb & Hqb & Hgb & Hlt & Hall)].
        -- left. repeat split. intros a ga Ha Hqa Hga.
           destruct (Nat.eq_dec a k) as [->|Hak].
           ++ rewrite Hgk in Hga. injection Hga as <-. exact Hcmp.
           ++ apply Hall with a; auto. lia.
        -- right. exists b.
           split; [reflexivity|]. split; [lia|]. split; [exact Hqb|].
           split; [exact Hgb|]. split; [exact Hlt|].
           intros a ga Ha Hqa Hga.
           destruct (Nat.eq_dec a k) as [->|Hak].
           ++ rewrite Hgk in Hga. injection Hga as <-. split; [lra|intros _; lra].
           ++ apply Hall; auto. lia.
      * assert (Hlt : (gk < bi)%Q).
        { apply Qnot_le_lt. intros H. apply Qle_bool_iff in H. congruence. }
        destruct (IH (S k) gk (Z.of_nat k)) as (g & best & Hrun & Hres); [lia|].
        exists g, best. split; [exact Hrun|]. right.
        destruct Hres as [(-> & -> & Hall)|(b & -> & Hb & Hqb & Hgb & Hlt' & Hall)].
        -- exists k.
           split; [reflexivity|]. split; [lia|]. split; [exact Hq|].
           split; [exact Hgk|]. split; [exact Hlt|].
           intros a ga Ha Hqa Hga.
           destruct (Nat.eq_dec a k) as [->|Hak].
           ++ rewrite Hgk in Hga. injection Hga as <-. split; [lra|intros; lia].
           ++ split; [|intros; lia]. apply Hall with a; auto. lia.
        -- exists b.
           split; [reflexivity|]. split; [lia|]. split; [exact Hqb|].
           split; [exact Hgb|]. split; [lra|].
           intros a ga Ha Hqa Hga.
           destruct (Nat.eq_dec a k) as [->|Hak].
           ++ rewrite Hgk in Hga. injection Hga as <-. split; [lra|intros _; lra].
           ++ apply Hall; auto. lia.
Qed.

End BestSplit.



(** ** The nested loops, column by column *)

Lemma py_setitem_spec {A : Type} (l : list A) (i : nat) (a : A) :
  i < length l ->
  exists l',
    py_setitem l i a = Ok l'
    /\ length l' = length l
    /\ nth_error l' i = Some a
    /\ forall j, j <> i -> nth_error l' j = nth_error l j.
Proof.
  revert i. induction l as [|x l IH]; intros [|i] Hi; simpl in *; try lia.
  - exists (a :: l). repeat split. intros [|j] Hj; [congruence|reflexivity].
  - destruct (IH i) as (l' & -> & Hlen & Hnth & Hother); [lia|].
    exists (x :: l'). simpl. repeat split; auto.
    intros [|j] Hj; [reflexivity|]. apply Hother. congruence.
Qed.

Section ScanColumns.

Variable step : nat -> Row -> value -> container -> result container.

Lemma scan_words_spec (row : Row) (words : list value) :
  forall i pv,
  i + length words <= length pv ->
  (forall k w c, nth_error words k = Some w -> nth_error pv (i + k) = Some c ->
                 returns (step (i + k) row w c)) ->
  exists pv',
    scan_words step row i words pv = Ok pv'
    /\ length pv' = length pv
    /\ (forall j, j < i \/ i + length words <= j ->
                  nth_error pv' j = nth_error pv j)
    /\ (forall k w c, nth_error words k = Some w ->
                      nth_error pv (i + k) = Some c ->
                      exists c', step (i + k) row w c = Ok c'
                                 /\ nth_error pv' (i + k) = Some c').
Proof.
  induction words as [|word words IH]; intros i pv Hlen Hstep.
  - exists pv. simpl. repeat split; auto. intros [|k]; discriminate.
  - cbn [scan_words]. rewrite py_index_nat.
    destruct (nth_error pv i) as [c|] eqn:Hc.
    2:{ apply nth_error_None in Hc. simpl in Hlen. lia. }
    cbn [bind].
    destruct (Hstep 0 word c) as (c1 & Hc1); [reflexivity|now rewrite Nat.add_0_r|].
    rewrite Nat.add_0_r in Hc1. rewrite Hc1. cbn [bind].
    destruct (py_setitem_spec pv i c1) as (pv1 & Hset & Hlen1 & Hat & Hother).
    { simpl in Hlen. lia. }
    rewrite Hset. cbn [bind].
    destruct (IH (S i) pv1) as (pv' & Hrun & Hlen' & Hout & Hin).
    { simpl in Hlen. lia. }
    { intros k w c0 Hw Hc0. rewrite Hother in Hc0 by lia.
      replace (S i + k) with (i + S k) in * by lia.
      apply Hstep; assumption. }
    exists pv'. split; [exact Hrun|]. split; [lia|]. split.
    + intros j Hj. simpl in Hj. rewrite Hout by lia. apply Hother. lia.
    + intros [|k] w c0 Hw Hc0; simpl in Hw.
      * injection Hw as <-. rewrite Nat.add_0_r in *.
        rewrite Hc in Hc0. injection Hc0 as <-.
        exists c1. split; [exact Hc1|]. rewrite Hout by lia. exact Hat.
      * replace (i + S k) with (S i + k) in * by lia.
        apply Hin; [exact Hw|]. rewrite Hother by lia. exact Hc0.
Qed.

Lemma scan_rows_columns (rows : list Row) :
  forall pv,
  Forall (fun row => length row = length pv) rows ->
  (forall j c, nth_error pv j = Some c -> returns (col_fold step j rows c)) ->
  exists pv',
    scan_rows step rows pv = Ok pv'
    /\ length pv' = length pv
    /\ forall j c, nth_error pv j = Some c ->
         exists c', col_fold step j rows c = Ok c' /\ nth_error pv' j = Some c'.
Proof.
  induction rows as [|row rows IH]; intros pv Hlen Hcols.
  - exists pv. simpl. repeat split. intros j c Hc. now exists c.
  - inversion Hlen as [|? ? Hrow Hrest]; subst.
    assert (Hword : forall j c, nth_error pv j = Some c ->
              exists w c1, nth_error row j = Some w /\ step j row w c = Ok c1
                           /\ returns (col_fold step j rows c1)).
    { intros j c Hc. destruct (Hcols j c Hc) as (cf & Hcf). simpl in Hcf.
      destruct (nth_error row j) as [w|] eqn:Hw.
      - destruct (step j row w c) as [c1|] eqn:Hc1; [|discriminate].
        exists w, c1. split; [reflexivity|]. split; [exact Hc1|].
        exists cf. exact Hcf.
      - apply nth_error_None in Hw.
        assert (j < length pv) by (apply nth_error_Some; congruence). lia. }
    destruct (scan_words_spec row row 0 pv) as (pv1 & Hrun1 & Hlen1 & _ & Hin).
    { lia. }
    { intros k w c Hw Hc. simpl in *.
      destruct (Hword k c Hc) as (w' & c1 & Hw' & Hc1 & _).
      rewrite Hw in Hw'. injection Hw' as <-. unfold returns. now exists c1. }
    cbn [scan_rows]. rewrite Hrun1. cbn [bind].
    destruct (IH pv1) as (pv' & Hrun & Hlen' & Hcol').
    { rewrite Hlen1. exact Hrest. }
    { intros j c1 Hc1.
      assert (Hj : j < length pv) by (rewrite <- Hlen1; apply nth_error_Some; congruence).
      destruct (nth_error pv j) as [c|] eqn:Hc.
      2:{ apply nth_error_None in Hc. lia. }
      destruct (Hword j c Hc) as (w & c1' & Hw & Hstep1 & Hret).
      destruct (Hin j w c Hw Hc) as (c1'' & Hstep2 & Hat). simpl in *.
      congruence. }
    exists pv'. split; [exact Hrun|]. split; [lia|].
    intros j c Hc.
    destruct (Hword j c Hc) as (w & c1 & Hw & Hstep1 & _).
    destruct (Hin j w c Hw Hc) as (c1' & Hstep2 & Hat). simpl in *.
    rewrite Hstep1 in Hstep2. injection Hstep2 as <-.
    destruct (Hcol' j c1 Hat) as (c' & Hfold & Hat').
    exists c'. split; [|exact Hat'].
    rewrite Hw, Hstep1. exact Hfold.
Qed.

End ScanColumns.

(** ** Sorting and removing duplicates *)

Lemma In_insert (x y : Q) (l : list Q) : In y (insert x l) <-> y = x \/ In y l.
Proof.
  induction l as [|z l IH]; simpl.
  - intuition.
  - destruct (Qle_bool x z); simpl; [|rewrite IH]; intuition.
Qed.

Lemma In_sort (y : Q) (l : list Q) : In y (sort l) <-> In y l.
Proof.
  induction l as [|x l IH]; simpl; [reflexivity|].
  rewrite In_insert, IH. intuition.
Qed.

Lemma length_insert (x : Q) (l : list Q) : length (insert x l) = S (length l).
Proof.
  induction l as [|z l IH]; simpl; [reflexivity|].
  destruct (Qle_bool x z); simpl; [reflexivity|now rewrite IH].
Qed.

Lemma length_sort (l : list Q) : length (sort l) = length l.
Proof.
  induction l as [|x l IH]; simpl; [reflexivity|].
  now rewrite length_insert, IH.
Qed.

Lemma insert_sorted (x : Q) (l : list Q) :
  StronglySorted Qlt l ->
  (forall y, In y l -> ~ (y == x)%Q) ->
  StronglySorted Qlt (insert x l).
Proof.
  induction l as [|z l IH]; intros Hs Hd; simpl.
  - repeat constructor.
  - apply StronglySorted_inv in Hs. destruct Hs as [Hs Hz].
    destruct (Qle_bool x z) eqn:Hxz.
    + apply Qle_bool_iff in Hxz.
      assert (Hlt : (x < z)%Q).
      { destruct (Qle_lt_or_eq _ _ Hxz) as [H|H]; [exact H|].
        exfalso. apply (Hd z); [now left|]. now symmetry. }
      constructor; [constructor; assumption|].
      constructor; [exact Hlt|].
      rewrite Forall_forall in Hz |- *. intros y Hy.
      apply Qlt_trans with z; auto.
    + assert (Hlt : (z < x)%Q).
      { apply Qnot_le_lt. intros H. apply Qle_bool_iff in H. congruence. }
      constructor.
      * apply IH; [exact Hs|]. intros y Hy. apply Hd. now right.
      * rewrite Forall_forall in Hz |- *. intros y Hy.
        apply In_insert in Hy. destruct Hy as [->|Hy]; auto.
Qed.

Lemma sort_sorted (l : list Q) : Qdistinct l -> StronglySorted Qlt (sort l).
Proof.
  induction l as [|x l IH]; simpl; intros Hd; [constructor|].
  destruct Hd as [Hx Hd]. apply insert_sorted; [now apply IH|].
  intros y Hy. apply Hx. now apply In_sort.
Qed.

Lemma Qdistinct_filter (f : Q -> bool) (l : list Q) :
  Qdistinct l -> Qdistinct (filter f l).
Proof.
  induction l as [|x l IH]; simpl; intros Hd; [exact I|].
  destruct Hd as [Hx Hd]. destruct (f x); simpl; [split|]; auto.
  intros y Hy. apply Hx. apply filter_In in Hy. tauto.
Qed.

Lemma Qdistinct_dedupe (l : list Q) : Qdistinct (dedupe l).
Proof.
  induction l as [|x l IH]; simpl; [exact I|]. split.
  - intros y Hy. apply filter_In in Hy. destruct Hy as [_ Hy].
    apply negb_true_iff in Hy. now apply Qeq_bool_neq.
  - now apply Qdistinct_filter.
Qed.

Lemma In_dedupe (y : Q) (l : list Q) : In y (dedupe l) -> In y l.
Proof.
  induction l as [|x l IH]; simpl; [tauto|].
  intros [->|Hy]; [now left|]. right. apply IH.
  apply filter_In in Hy. tauto.
Qed.

Lemma dedupe_covers (x : Q) (l : list Q) :
  In x l -> exists y, In y (dedupe l) /\ (x == y)%Q.
Proof.
  induction l as [|z l IH]; simpl; [tauto|].
  intros [->|Hx].
  - exists x. split; [now left|reflexivity].
  - destruct (IH Hx) as (y & Hy & Hxy).
    destruct (Qeq_bool y z) eqn:Hyz.
    + exists z. split; [now left|]. apply Qeq_bool_iff in Hyz.
      now rewrite Hxy.
    + exists y. split; [|exact Hxy]. right. apply filter_In.
      split; [exact Hy|]. now rewrite Hyz.
Qed.

Lemma sorted_distinct_sorted (l : list Q) : StronglySorted Qlt (sort (dedupe l)).
Proof. apply sort_sorted, Qdistinct_dedupe. Qed.

(** ** GetPossibleValues *)

Lemma bucket_CList (l : list Q) :
  bucket (CList l) = Ok (CList (thresholds (sort (dedupe l)))).
Proof.
  unfold bucket, thresholds. set (u := sort (dedupe l)).
  destruct (Nat.leb_spec 3 (length u)) as [H3|H3]; [|reflexivity].
  assert (H1 : 1 <= length u / 3).
  { change 1 with (3 / 3). apply Nat.Div0.div_le_mono. exact H3. }
  assert (H2 : 2 * length u / 3 <= length u).
  { apply Nat.Div0.div_le_upper_bound. lia. }
  assert (H2' : 1 <= 2 * length u / 3).
  { change 1 with (3 / 3). apply Nat.Div0.div_le_mono. lia. }
  assert (Hd : length u / 3 <= length u) by (apply Nat.Div0.div_le_upper_bound; lia).
  replace (Z.of_nat (length u / 3) - 1)%Z with (Z.of_nat (length u / 3 - 1)) by lia.
  replace (Z.of_nat (2 * length u / 3) - 1)%Z
    with (Z.of_nat (2 * length u / 3 - 1)) by lia.
  replace (Z.of_nat (length u) - 1)%Z with (Z.of_nat (length u - 1)) by lia.
  rewrite !py_index_nat.
  rewrite !(nth_error_nth' u 0%Q) by lia.
  reflexivity.
Qed.

Lemma bucket_returns (c : container) : returns (bucket c).
Proof.
  destruct c as [|l|l]; try (eexists; reflexivity).
  rewrite bucket_CList. eexists; reflexivity.
Qed.

Lemma mapM_spec {A B : Type} (f : A -> result B) (l : list A) :
  (forall a, In a l -> returns (f a)) ->
  exists l',
    mapM f l = Ok l'
    /\ length l' = length l
    /\ forall j a, nth_error l j = Some a ->
         exists b, f a = Ok b /\ nth_error l' j = Some b.
Proof.
  induction l as [|a l IH]; intros Hret.
  - exists []. repeat split. intros [|j]; discriminate.
  - destruct (Hret a (or_introl eq_refl)) as (b & Hb).
    destruct IH as (l' & Hl' & Hlen & Hnth).
    { intros a' Ha'. apply Hret. now right. }
    exists (b :: l'). simpl. rewrite Hb, Hl'. simpl.
    split; [reflexivity|]. split; [now rewrite Hlen|].
    intros [|j] a' Ha'; simpl in *.
    + injection Ha' as <-. now exists b.
    + now apply Hnth.
Qed.

Lemma kinds_float (sig : list bool) (row : Row) (j : nat) :
  kinds row = sig -> nth_error sig j = Some true ->
  exists x, nth_error row j = Some (VFloat x).
Proof.
  intros <- H. unfold kinds in H. rewrite nth_error_map in H.
  destruct (nth_error row j) as [[x|s]|]; simpl in H; try discriminate.
  now exists x.
Qed.

Lemma kinds_str (sig : list bool) (row : Row) (j : nat) :
  kinds row = sig -> nth_error sig j = Some false ->
  exists s, nth_error row j = Some (VStr s).
Proof.
  intros <- H. unfold kinds in H. rewrite nth_error_map in H.
  destruct (nth_error row j) as [[x|s]|]; simpl in H; try discriminate.
  now exists s.
Qed.

Lemma kinds_length (sig : list bool) (row : Row) :
  kinds row = sig -> length row = length sig.
Proof. intros <-. unfold kinds. now rewrite length_map. Qed.

Lemma record_word_floats (j : nat) (rows : list Row) :
  (forall row, In row rows -> exists x, nth_error row j = Some (VFloat x)) ->
  forall acc,
  col_fold (fun _ _ => record_word) j rows (CList acc)
  = Ok (CList (acc ++ col_floats j rows)).
Proof.
  induction rows as [|row rows IH]; intros Hrows acc; simpl.
  - now rewrite app_nil_r.
  - destruct (Hrows row (or_introl eq_refl)) as (x & ->). simpl.
    rewrite IH by (intros r Hr; apply Hrows; now right).
    now rewrite <- app_assoc.
Qed.

Lemma record_word_strs (j : nat) (rows : list Row) :
  (forall row, In row rows -> exists s, nth_error row j = Some (VStr s)) ->
  forall acc,
  col_fold (fun _ _ => record_word) j rows (CSet acc)
  = Ok (CSet (fold_left (fun s x => set_add x s) (col_strs j rows) acc)).
Proof.
  induction rows as [|row rows IH]; intros Hrows acc; simpl.
  - reflexivity.
  - destruct (Hrows row (or_introl eq_refl)) as (x & ->). simpl.
    now rewrite IH by (intros r Hr; apply Hrows; now right).
Qed.

Lemma record_word_column (sig : list bool) (rows : list Row) (j : nat) (b : bool) :
  rows <> [] -> uniform sig rows -> nth_error sig j = Some b ->
  col_fold (fun _ _ => record_word) j rows CNone
  = Ok (if b then CList (col_floats j rows) else CSet (str_set (col_strs j rows))).
Proof.
  intros Hne Huni Hj. destruct rows as [|row rows]; [contradiction|].
  unfold uniform in Huni. rewrite Forall_forall in Huni.
  destruct b.
  - assert (Hall : forall r, In r (row :: rows) ->
                             exists x, nth_error r j = Some (VFloat x)).
    { intros r Hr. apply kinds_float with sig; auto. }
    destruct (Hall row (or_introl eq_refl)) as (x & Hx).
    simpl. rewrite Hx. simpl.
    now rewrite record_word_floats by (intros r Hr; apply Hall; now right).
  - assert (Hall : forall r, In r (row :: rows) ->
                             exists s, nth_error r j = Some (VStr s)).
    { intros r Hr. apply kinds_str with sig; auto. }
    destruct (Hall row (or_introl eq_refl)) as (x & Hx).
    simpl. rewrite Hx. simpl.
    now rewrite record_word_strs by (intros r Hr; apply Hall; now right).
Qed.

Lemma nth_error_repeat {A : Type} (a : A) (n j : nat) :
  j < n -> nth_error (repeat a n) j = Some a.
Proof.
  revert j. induction n as [|n IH]; intros [|j] Hj; simpl; try lia; auto.
  apply IH. lia.
Qed.

Lemma GetPossibleValues_spec (sig : list bool) (rows : list Row) :
  rows <> [] -> uniform sig rows ->
  exists pv,
    GetPossibleValues (length sig) rows = Ok pv
    /\ length pv = length sig
    /\ forall j b, nth_error sig j = Some b ->
         nth_error pv j =
         Some (if b then CList (thresholds (sort (dedupe (col_floats j rows))))
               else CSet (str_set (col_strs j rows))).
Proof.
  intros Hne Huni. unfold GetPossibleValues.
  assert (Hcol : forall j c, nth_error (repeat CNone (length sig)) j = Some c ->
            exists b, nth_error sig j = Some b /\ c = CNone).
  { intros j c Hc.
    assert (Hj : j < length sig).
    { rewrite <- (repeat_length CNone (length sig)).
      apply nth_error_Some. congruence. }
    rewrite nth_error_repeat in Hc by exact Hj. injection Hc as <-.
    destruct (nth_error sig j) as [b|] eqn:Hb; [now exists b|].
    apply nth_error_None in Hb. lia. }
  destruct (scan_rows_columns (fun _ _ => record_word) rows
              (repeat CNone (length sig))) as (pv0 & Hrun & Hlen0 & Hcols).
  { rewrite repeat_length. unfold uniform in Huni.
    eapply Forall_impl; [|exact Huni]. intros row. apply kinds_length. }
  { intros j c Hc. destruct (Hcol j c Hc) as (b & Hb & ->).
    rewrite (record_word_column sig rows j b Hne Huni Hb). eexists; reflexivity. }
  rewrite Hrun. cbn [bind].
  destruct (mapM_spec bucket pv0 (fun a _ => bucket_returns a))
    as (pv & Hmap & Hlen & Hnth).
  exists pv. split; [exact Hmap|]. rewrite repeat_length in Hlen0.
  split; [lia|].
  intros j b Hb.
  assert (Hj : j < length sig) by (apply nth_error_Some; congruence).
  destruct (Hcols j CNone (nth_error_repeat CNone _ _ Hj)) as (c' & Hfold & Hc').
  rewrite (record_word_column sig rows j b Hne Huni Hb) in Hfold.
  injection Hfold as <-.
  destruct (Hnth j _ Hc') as (c2 & Hbucket & Hc2). rewrite Hc2. f_equal.
  destruct b.
  - rewrite bucket_CList in Hbucket. now injection Hbucket.
  - simpl in Hbucket. now injection Hbucket.
Qed.



(** ** CanSplit *)

Lemma CanSplit_loop_rows (ds ds' : list Row) (uv guv : list container)
    (attributes : list nat) :
  CanSplit_loop ds uv guv attributes = CanSplit_loop ds' uv guv attributes.
Proof.
  induction attributes as [|a attributes IH]; simpl; [reflexivity|].
  destruct (py_index guv (Z.of_nat a)) as [g|e]; simpl; [|reflexivity].
  destruct (py_index uv (Z.of_nat a)) as [u|e]; simpl; [|reflexivity].
  destruct (py_len u) as [n|e]; simpl; [|reflexivity].
  now rewrite IH.
Qed.

Lemma CanSplit_loop_count (ds : list Row) (uv guv : list container)
    (attributes : list nat) :
  (forall a, In a attributes -> a < length guv) ->
  (forall a, In a attributes ->
     exists c n, nth_error uv a = Some c /\ py_len c = Ok n) ->
  CanSplit_loop ds uv guv attributes = Ok (existsb (qualifies uv) attributes).
Proof.
  induction attributes as [|a attributes IH]; intros Hg Hu; simpl; [reflexivity|].
  rewrite py_index_nat.
  destruct (nth_error guv a) as [g|] eqn:Hga.
  2:{ apply nth_error_None in Hga. specialize (Hg a (or_introl eq_refl)). lia. }
  simpl. destruct (Hu a (or_introl eq_refl)) as (c & n & Hc & Hn).
  rewrite py_index_nat, Hc. simpl. rewrite Hn. simpl.
  unfold qualifies at 1. rewrite Hc, Hn.
  destruct (1 <? n); simpl; [reflexivity|].
  apply IH; intros a' Ha'; [apply Hg|apply Hu]; now right.
Qed.

(** [CanSplit] never reads the rows.  The test
    [IsFloat(globalUniqueValues[attribute])] of line 384 is applied to the
    list or set of candidates, never a float, so every attribute is decided
    by its number of local candidates: with a container per column,
    [CanSplit] is false when the label has one local candidate and
    otherwise tells whether some other attribute has more than one. *)
Theorem CanSplit_never_walks (ds : list Row) (uv guv : list container) :
  CanSplit ds uv guv = CanSplit [] uv guv
  /\ (forall lastc n,
        length guv = length uv ->
        (forall a, a < length uv ->
           exists c m, nth_error uv a = Some c /\ py_len c = Ok m) ->
        nth_error uv (length uv - 1) = Some lastc ->
        py_len lastc = Ok n ->
        CanSplit ds uv guv =
        Ok (negb (n =? 1) && existsb (qualifies uv) (seq 0 (length uv - 1)))).
Proof.
  split.
  - unfold CanSplit.
    destruct (py_index uv (Z.of_nat (length uv) - 1)) as [c|e]; simpl; [|reflexivity].
    destruct (py_len c) as [n|e]; simpl; [|reflexivity].
    destruct (n =? 1); [reflexivity|]. apply CanSplit_loop_rows.
  - intros lastc n Hlen Hcols Hlast Hn. unfold CanSplit.
    assert (Hpos : 0 < length uv).
    { destruct uv; [simpl in Hlast; discriminate|simpl; lia]. }
    replace (Z.of_nat (length uv) - 1)%Z with (Z.of_nat (length uv - 1)) by lia.
    rewrite py_index_nat, Hlast. simpl. rewrite Hn. simpl.
    destruct (n =? 1); [reflexivity|]. simpl.
    apply CanSplit_loop_count.
    + intros a Ha. apply in_seq in Ha. lia.
    + intros a Ha. apply in_seq in Ha. apply Hcols. lia.
Qed.

(** C2 at the first call of the build on the training rows
    [[1.0, "Yes"], [2.0, "No"], [3.0, "Yes"]]: the float attribute has three
    local candidates and [CanSplit] answers [True] without walking; the walk
    of lines 387-398, had it been entered with the question of line 387,
    compares a float of the row with the list of candidates and raises, and
    with the candidate [3.0] for its question it finds no flip. *)
Lemma CanSplit_numeric_attribute :
  let ds := [[VFloat 1; VStr "Yes"]; [VFloat 2; VStr "No"];
             [VFloat 3; VStr "Yes"]] in
  let guv := [CList [1%Q; 2%Q; 3%Q]; CSet ["Yes"; "No"]%string] in
  GetPossibleValues 2 ds = Ok guv
  /\ (gq <- GetQuestions guv ;; GetChildPossibleValues 2 gq ds) = Ok guv
  /\ CanSplit ds guv guv = Ok true
  /\ sign_walk (mkQuestion 0 (OCont (CList [1%Q; 2%Q; 3%Q]))) ds 0 = Raise TypeError
  /\ sign_walk (mkQuestion 0 (OVal (VFloat 3%Q))) ds 0 = Ok false.
Proof. repeat split. Qed.

(** ** GetQuestions *)

Lemma append_at_last (gq : list (list Question)) (qs : list Question) (q : Question) :
  append_at (gq ++ [qs]) (length gq) q = gq ++ [qs ++ [q]].
Proof.
  induction gq as [|x gq IH]; simpl; [reflexivity|]. now rewrite IH.
Qed.

Lemma pad_full (gq : list (list Question)) (qs : list Question) :
  pad (gq ++ [qs]) (length gq) = gq ++ [qs].
Proof.
  unfold pad.
  replace (S (length gq) - length (gq ++ [qs])) with 0
    by (rewrite length_app; cbn [length]; lia).
  simpl. apply app_nil_r.
Qed.

Lemma add_questions (gq : list (list Question)) (vals : list value) :
  forall qs,
  fold_left
    (fun g val =>
       append_at (pad g (length gq)) (length gq)
         (mkQuestion (Z.of_nat (length gq)) (OVal val)))
    vals (gq ++ [qs])
  = gq ++ [qs ++ map (fun val => mkQuestion (Z.of_nat (length gq)) (OVal val)) vals].
Proof.
  induction vals as [|val vals IH]; intros qs; simpl.
  - now rewrite app_nil_r.
  - rewrite pad_full, append_at_last, IH. now rewrite <- app_assoc.
Qed.

Lemma GetQuestions_from_spec (guv : list container) :
  forall gq,
  (forall c, In c guv -> nonempty c = true) ->
  GetQuestions_from gq (length gq) guv
  = Ok (gq ++ questions_from (length gq) guv).
Proof.
  induction guv as [|c guv IH]; intros gq Hne; simpl.
  - now rewrite app_nil_r.
  - assert (Hc := Hne c (or_introl eq_refl)). unfold nonempty in Hc.
    unfold questions_of.
    destruct (py_iter c) as [vals|] eqn:Hvals.
    2:{ destruct c; simpl in *; discriminate. }
    simpl.
    assert (Hvne : vals <> []).
    { intros ->. destruct c as [|l|l]; simpl in *; try discriminate;
        injection Hvals as Hl; apply map_eq_nil in Hl; subst; discriminate. }
    destruct vals as [|val vals]; [contradiction|].
    cbn [fold_left].
    assert (Hfirst :
      append_at (pad gq (length gq)) (length gq)
        (mkQuestion (Z.of_nat (length gq)) (OVal val))
      = gq ++ [[mkQuestion (Z.of_nat (length gq)) (OVal val)]]).
    { unfold pad. replace (S (length gq) - length gq) with 1 by lia.
      simpl. apply (append_at_last gq []). }
    rewrite Hfirst, add_questions.
    specialize (IH (gq ++
      [[mkQuestion (Z.of_nat (length gq)) (OVal val)] ++
       map (fun val0 => mkQuestion (Z.of_nat (length gq)) (OVal val0)) vals])).
    rewrite length_app in IH. cbn [length app] in IH.
    replace (length gq + 1) with (S (length gq)) in IH by lia.
    cbn [app]. rewrite IH by (intros c' Hc'; apply Hne; now right).
    cbn [map]. now rewrite <- app_assoc.
Qed.

Lemma GetQuestions_spec (guv : list container) :
  (forall c, In c guv -> nonempty c = true) ->
  GetQuestions guv = Ok (questions_from 0 guv).
Proof. intros H. apply (GetQuestions_from_spec guv [] H). Qed.

Lemma nth_error_questions_from (guv : list container) :
  forall i j c,
  nth_error guv j = Some c ->
  nth_error (questions_from i guv) j = Some (questions_of (i + j) c).
Proof.
  induction guv as [|c0 guv IH]; intros i [|j] c H; simpl in *; try discriminate.
  - injection H as <-. now rewrite Nat.add_0_r.
  - rewrite (IH (S i) j c H). f_equal. f_equal. lia.
Qed.

Lemma length_questions_from (guv : list container) (i : nat) :
  length (questions_from i guv) = length guv.
Proof.
  revert i. induction guv as [|c guv IH]; intros i; simpl; [reflexivity|].
  now rewrite IH.
Qed.

(** ** GetChildPossibleValues *)

Lemma find_from_find {A : Type} (p : A -> bool) (l : list A) :
  forall i, option_map snd (find_from p i l) = find p l.
Proof.
  induction l as [|x l IH]; intros i; simpl; [reflexivity|].
  destruct (p x); [reflexivity|apply IH].
Qed.

Lemma first_match_floats (a : Z) (row : Row) (x : Q) (l : list Q) :
  py_index row a = Ok (VFloat x) ->
  forall k,
  first_match (map (fun y => mkQuestion a (OVal (VFloat y))) l) k row
  = Ok (option_map (fun iy => (fst iy, mkQuestion a (OVal (VFloat (snd iy)))))
          (find_from (Qle_bool x) k l)).
Proof.
  intros Hx. induction l as [|y l IH]; intros k; simpl; [reflexivity|].
  unfold Match. cbn [Attribute Value]. rewrite Hx. simpl.
  destruct (Qle_bool x y); [reflexivity|apply IH].
Qed.

Lemma first_match_strs (a : Z) (row : Row) (s : string) (l : list string) :
  py_index row a = Ok (VStr s) ->
  forall k,
  first_match (map (fun t => mkQuestion a (OVal (VStr t))) l) k row
  = Ok (option_map (fun it => (fst it, mkQuestion a (OVal (VStr (snd it)))))
          (find_from (String.eqb s) k l)).
Proof.
  intros Hs. induction l as [|t l IH]; intros k; simpl; [reflexivity|].
  unfold Match. cbn [Attribute Value]. rewrite Hs. simpl.
  destruct (String.eqb s t); [reflexivity|apply IH].
Qed.

Lemma record_match_float (gq : list (list Question)) (j : nat) (row : Row)
    (x : Q) (g acc : list Q) (c : container) :
  nth_error gq j = Some (questions_of j (CList g)) ->
  nth_error row j = Some (VFloat x) ->
  c = CNone \/ c = CList acc ->
  (c = CNone -> acc = []) ->
  record_match gq j row (VFloat x) c
  = Ok (CList (acc ++ matched_floats g [x])).
Proof.
  intros Hq Hx Hc Hacc. unfold record_match. cbn [IsFloat].
  rewrite py_index_nat, Hq. cbn [bind].
  unfold questions_of. cbn [py_iter]. rewrite map_map.
  rewrite (first_match_floats (Z.of_nat j) row x g)
    by (rewrite py_index_nat, Hx; reflexivity).
  cbn [bind]. unfold matched_floats. cbn [flat_map]. rewrite app_nil_r.
  rewrite <- (find_from_find (Qle_bool x) g 0).
  assert (Hc1 : match c with CNone => CList [] | _ => c end = CList acc).
  { destruct Hc as [->| ->]; [now rewrite Hacc|reflexivity]. }
  rewrite Hc1.
  destruct (find_from (Qle_bool x) 0 g) as [[i y]|]; simpl.
  - reflexivity.
  - now rewrite app_nil_r.
Qed.

Lemma find_eqb_self (s : string) (g : list string) (t : string) :
  find (String.eqb s) g = Some t -> t = s.
Proof.
  intros H. apply find_some in H. destruct H as [_ H].
  apply String.eqb_eq in H. now symmetry.
Qed.

Lemma record_match_str (gq : list (list Question)) (j : nat) (row : Row)
    (s : string) (g acc : list string) (c : container) :
  nth_error gq j = Some (questions_of j (CSet g)) ->
  nth_error row j = Some (VStr s) ->
  c = CNone \/ c = CSet acc ->
  (c = CNone -> acc = []) ->
  record_match gq j row (VStr s) c
  = Ok (CSet (fold_left (fun u x => set_add x u) (matched_strs g [s]) acc)).
Proof.
  intros Hq Hs Hc Hacc. unfold record_match. cbn [IsFloat].
  rewrite py_index_nat, Hq. cbn [bind].
  unfold questions_of. cbn [py_iter]. rewrite map_map.
  rewrite (first_match_strs (Z.of_nat j) row s g)
    by (rewrite py_index_nat, Hs; reflexivity).
  cbn [bind]. unfold matched_strs. cbn [flat_map]. rewrite app_nil_r.
  rewrite <- (find_from_find (String.eqb s) g 0).
  assert (Hc1 : match c with CNone => CSet [] | _ => c end = CSet acc).
  { destruct Hc as [->| ->]; [now rewrite Hacc|reflexivity]. }
  rewrite Hc1.
  destruct (find_from (String.eqb s) 0 g) as [[i y]|]; reflexivity.
Qed.

Lemma matched_floats_app (g xs ys : list Q) :
  matched_floats g (xs ++ ys) = matched_floats g xs ++ matched_floats g ys.
Proof. unfold matched_floats. apply flat_map_app. Qed.

Lemma matched_strs_app (g xs ys : list string) :
  matched_strs g (xs ++ ys) = matched_strs g xs ++ matched_strs g ys.
Proof. unfold matched_strs. apply flat_map_app. Qed.

Lemma record_match_floats (gq : list (list Question)) (j : nat) (g : list Q)
    (rows : list Row) :
  nth_error gq j = Some (questions_of j (CList g)) ->
  (forall row, In row rows -> exists x, nth_error row j = Some (VFloat x)) ->
  forall acc,
  col_fold (record_match gq) j rows (CList acc)
  = Ok (CList (acc ++ matched_floats g (col_floats j rows))).
Proof.
  intros Hq. induction rows as [|row rows IH]; intros Hrows acc.
  - simpl. now rewrite app_nil_r.
  - destruct (Hrows row (or_introl eq_refl)) as (x & Hx).
    cbn [col_fold col_floats flat_map]. rewrite Hx.
    rewrite (record_match_float gq j row x g acc (CList acc) Hq Hx)
      by (auto; discriminate).
    cbn [bind]. rewrite IH by (intros r Hr; apply Hrows; now right).
    fold (col_floats j rows).
    rewrite matched_floats_app. now rewrite app_assoc.
Qed.

Lemma record_match_strs (gq : list (list Question)) (j : nat) (g : list string)
    (rows : list Row) :
  nth_error gq j = Some (questions_of j (CSet g)) ->
  (forall row, In row rows -> exists s, nth_error row j = Some (VStr s)) ->
  forall acc,
  col_fold (record_match gq) j rows (CSet acc)
  = Ok (CSet (fold_left (fun u x => set_add x u)
                (matched_strs g (col_strs j rows)) acc)).
Proof.
  intros Hq. induction rows as [|row rows IH]; intros Hrows acc.
  - reflexivity.
  - destruct (Hrows row (or_introl eq_refl)) as (s & Hs).
    cbn [col_fold col_strs flat_map]. rewrite Hs.
    rewrite (record_match_str gq j row s g acc (CSet acc) Hq Hs)
      by (auto; discriminate).
    cbn [bind]. rewrite IH by (intros r Hr; apply Hrows; now right).
    fold (col_strs j rows).
    rewrite matched_strs_app, fold_left_app. reflexivity.
Qed.

Lemma kinds_agree_nth (sig : list bool) (guv : list container) (j : nat) (c : container) :
  kinds_agree sig guv -> nth_error guv j = Some c ->
  exists b, nth_error sig j = Some b /\ kind_of c = Some b.
Proof.
  unfold kinds_agree. intros H Hc.
  assert (H' : nth_error (map kind_of guv) j = Some (kind_of c))
    by (rewrite nth_error_map, Hc; reflexivity).
  rewrite H, nth_error_map in H'.
  destruct (nth_error sig j) as [b|]; simpl in H'; [|discriminate].
  exists b. split; [reflexivity|]. now injection H'.
Qed.

Lemma kinds_agree_length (sig : list bool) (guv : list container) :
  kinds_agree sig guv -> length guv = length sig.
Proof.
  unfold kinds_agree. intros H.
  rewrite <- (length_map kind_of guv), H. apply length_map.
Qed.

Lemma record_match_column (sig : list bool) (guv : list container)
    (rows : list Row) (j : nat) (c : container) :
  rows <> [] -> uniform sig rows -> kinds_agree sig guv ->
  nth_error guv j = Some c ->
  exists c',
    col_fold (record_match (questions_from 0 guv)) j rows CNone = Ok c'
    /\ resort c' = local_candidates c j rows.
Proof.
  intros Hne Huni Hagree Hc.
  destruct (kinds_agree_nth sig guv j c Hagree Hc) as (b & Hb & Hkind).
  assert (Hq := nth_error_questions_from guv 0 j c Hc). simpl in Hq.
  destruct rows as [|row rows]; [contradiction|].
  unfold uniform in Huni. rewrite Forall_forall in Huni.
  destruct c as [|g|g]; simpl in Hkind; try discriminate;
    injection Hkind as <-.
  - assert (Hall : forall r, In r (row :: rows) ->
                             exists x, nth_error r j = Some (VFloat x)).
    { intros r Hr. apply kinds_float with sig; auto. }
    destruct (Hall row (or_introl eq_refl)) as (x & Hx).
    cbn [col_fold]. rewrite Hx.
    rewrite (record_match_float _ j row x g [] CNone Hq Hx) by auto.
    cbn [bind app].
    rewrite (record_match_floats _ j g rows Hq)
      by (intros r Hr; apply Hall; now right).
    eexists. split; [reflexivity|].
    cbn [resort local_candidates col_floats flat_map]. rewrite Hx.
    now rewrite matched_floats_app.
  - assert (Hall : forall r, In r (row :: rows) ->
                             exists s, nth_error r j = Some (VStr s)).
    { intros r Hr. apply kinds_str with sig; auto. }
    destruct (Hall row (or_introl eq_refl)) as (s & Hs).
    cbn [col_fold]. rewrite Hs.
    rewrite (record_match_str _ j row s g [] CNone Hq Hs) by auto.
    cbn [bind].
    rewrite (record_match_strs _ j g rows Hq)
      by (intros r Hr; apply Hall; now right).
    eexists. split; [reflexivity|].
    cbn [resort local_candidates col_strs flat_map]. rewrite Hs.
    unfold str_set. now rewrite matched_strs_app, fold_left_app.
Qed.

Lemma GetChildPossibleValues_spec (sig : list bool) (guv : list container)
    (ds : list Row) :
  ds <> [] -> uniform sig ds -> kinds_agree sig guv ->
  exists uv,
    GetChildPossibleValues (length sig) (questions_from 0 guv) ds = Ok uv
    /\ length uv = length sig
    /\ forall j c, nth_error guv j = Some c ->
         nth_error uv j = Some (local_candidates c j ds).
Proof.
  intros Hne Huni Hagree. unfold GetChildPossibleValues.
  assert (Hlen := kinds_agree_length sig guv Hagree).
  assert (Hcol : forall j c0, nth_error (repeat CNone (length sig)) j = Some c0 ->
            c0 = CNone /\ exists c, nth_error guv j = Some c).
  { intros j c0 Hc0.
    assert (Hj : j < length sig).
    { rewrite <- (repeat_length CNone (length sig)).
      apply nth_error_Some. congruence. }
    rewrite nth_error_repeat in Hc0 by exact Hj. injection Hc0 as <-.
    split; [reflexivity|].
    destruct (nth_error guv j) as [c|] eqn:Hc; [now exists c|].
    apply nth_error_None in Hc. lia. }
  destruct (scan_rows_columns (record_match (questions_from 0 guv)) ds
              (repeat CNone (length sig))) as (pv0 & Hrun & Hlen0 & Hcols).
  { rewrite repeat_length. unfold uniform in Huni.
    eapply Forall_impl; [|exact Huni]. intros row. apply kinds_length. }
  { intros j c0 Hc0. destruct (Hcol j c0 Hc0) as (-> & c & Hc).
    destruct (record_match_column sig guv ds j c Hne Huni Hagree Hc)
      as (c' & Hfold & _).
    exists c'. exact Hfold. }
  rewrite Hrun. cbn [bind]. eexists. split; [reflexivity|].
  rewrite length_map, Hlen0, repeat_length. split; [reflexivity|].
  intros j c Hc.
  assert (Hj : j < length sig).
  { rewrite <- Hlen. apply nth_error_Some. congruence. }
  destruct (Hcols j CNone (nth_error_repeat CNone _ _ Hj)) as (c' & Hfold & Hc').
  destruct (record_match_column sig guv ds j c Hne Huni Hagree Hc)
    as (c'' & Hfold' & Hres).
  rewrite Hfold in Hfold'. injection Hfold' as <-.
  rewrite nth_error_map, Hc'. simpl. now rewrite Hres.
Qed.

(** ** Thresholds cover their column *)

Lemma sorted_nth_lt (u : list Q) :
  StronglySorted Qlt u ->
  forall i k, i < k -> k < length u -> (nth i u 0 < nth k u 0)%Q.
Proof.
  induction 1 as [|x u Hs IH Hx]; intros i k Hik Hk; simpl in *; [lia|].
  destruct k as [|k]; [lia|]. destruct i as [|i].
  - rewrite Forall_forall in Hx. apply Hx, nth_In. lia.
  - apply IH; lia.
Qed.

Lemma sorted_le_last (u : list Q) (y : Q) :
  StronglySorted Qlt u -> In y u -> (y <= nth (length u - 1) u 0)%Q.
Proof.
  intros Hs Hy. destruct (In_nth u y 0%Q Hy) as (i & Hi & <-).
  destruct (Nat.eq_dec i (length u - 1)) as [->|Hne]; [apply Qle_refl|].
  apply Qlt_le_weak, sorted_nth_lt; auto; lia.
Qed.

Lemma sorted_eq_unique (u : list Q) (y z : Q) :
  StronglySorted Qlt u -> In y u -> In z u -> (y == z)%Q -> y = z.
Proof.
  induction 1 as [|x u Hs IH Hx]; intros Hy Hz Heq; [contradiction|].
  rewrite Forall_forall in Hx.
  destruct Hy as [Hy|Hy], Hz as [Hz|Hz]; auto.
  - congruence.
  - subst x. specialize (Hx z Hz). rewrite Heq in Hx.
    exfalso. eapply Qlt_irrefl, Hx.
  - subst x. specialize (Hx y Hy). rewrite Heq in Hx.
    exfalso. eapply Qlt_irrefl, Hx.
Qed.

Lemma thirds_lt (n : nat) :
  3 <= n -> 1 <= n / 3 /\ n / 3 < 2 * n / 3 /\ 2 * n / 3 < n.
Proof.
  intros H.
  pose proof (Nat.div_mod_eq n 3) as E1.
  pose proof (Nat.mod_upper_bound n 3 ltac:(lia)) as B1.
  pose proof (Nat.div_mod_eq (2 * n) 3) as E2.
  pose proof (Nat.mod_upper_bound (2 * n) 3 ltac:(lia)) as B2.
  lia.
Qed.

Lemma thresholds_incl (u : list Q) (y : Q) : In y (thresholds u) -> In y u.
Proof.
  unfold thresholds. destruct (Nat.leb_spec 3 (length u)) as [H3|H3]; [|tauto].
  destruct (thirds_lt _ H3) as (H1 & H2 & H4).
  intros [<-|[<-|[<-|[]]]]; apply nth_In; lia.
Qed.

Lemma thresholds_sorted (u : list Q) :
  StronglySorted Qlt u -> StronglySorted Qlt (thresholds u).
Proof.
  intros Hs. unfold thresholds.
  destruct (Nat.leb_spec 3 (length u)) as [H3|H3]; [|exact Hs].
  destruct (thirds_lt _ H3) as (H1 & H2 & H4).
  assert (Hab := sorted_nth_lt u Hs (length u / 3 - 1) (2 * length u / 3 - 1)
                   ltac:(lia) ltac:(lia)).
  assert (Hbc := sorted_nth_lt u Hs (2 * length u / 3 - 1) (length u - 1)
                   ltac:(lia) ltac:(lia)).
  repeat constructor; auto. eapply Qlt_trans; eauto.
Qed.

Lemma thresholds_cover (u : list Q) (x y : Q) :
  StronglySorted Qlt u -> In y u -> (x == y)%Q ->
  exists z, find (Qle_bool x) (thresholds u) = Some z.
Proof.
  intros Hs Hy Hxy.
  destruct (find (Qle_bool x) (thresholds u)) as [z|] eqn:Hfind; [now exists z|].
  exfalso.
  assert (Hnone := find_none _ _ Hfind).
  unfold thresholds in Hnone.
  destruct (Nat.leb_spec 3 (length u)) as [H3|H3].
  - assert (Hlast := sorted_le_last u y Hs Hy).
    specialize (Hnone (nth (length u - 1) u 0%Q)
                  (or_intror (or_intror (or_introl eq_refl)))).
    rewrite <- Hxy in Hlast. apply Qle_bool_iff in Hlast. congruence.
  - specialize (Hnone y Hy).
    assert (Hle : (x <= y)%Q) by (rewrite Hxy; apply Qle_refl).
    apply Qle_bool_iff in Hle. congruence.
Qed.

Lemma In_col_floats (j : nat) (rows : list Row) (x : Q) :
  In x (col_floats j rows) <->
  exists row, In row rows /\ nth_error row j = Some (VFloat x).
Proof.
  unfold col_floats. rewrite in_flat_map. split.
  - intros (row & Hrow & Hx). exists row. split; [exact Hrow|].
    destruct (nth_error row j) as [[y|s]|]; simpl in Hx; try tauto.
    destruct Hx as [->|[]]. reflexivity.
  - intros (row & Hrow & Hx). exists row. split; [exact Hrow|].
    rewrite Hx. now left.
Qed.

Lemma In_col_strs (j : nat) (rows : list Row) (s : string) :
  In s (col_strs j rows) <->
  exists row, In row rows /\ nth_error row j = Some (VStr s).
Proof.
  unfold col_strs. rewrite in_flat_map. split.
  - intros (row & Hrow & Hs). exists row. split; [exact Hrow|].
    destruct (nth_error row j) as [[y|t]|]; simpl in Hs; try tauto.
    destruct Hs as [->|[]]. reflexivity.
  - intros (row & Hrow & Hs). exists row. split; [exact Hrow|].
    rewrite Hs. now left.
Qed.

Lemma In_set_add (x y : string) (s : list string) :
  In y (set_add x s) <-> y = x \/ In y s.
Proof.
  unfold set_add. destruct (existsb (String.eqb x) s) eqn:H.
  - apply existsb_exists in H. destruct H as (z & Hz & Hxz).
    apply String.eqb_eq in Hxz. subst z. intuition (subst; auto).
  - rewrite in_app_iff. simpl. intuition.
Qed.

Lemma NoDup_set_add (x : string) (s : list string) :
  NoDup s -> NoDup (set_add x s).
Proof.
  intros Hs. unfold set_add. destruct (existsb (String.eqb x) s) eqn:H; [exact Hs|].
  apply NoDup_app; auto.
  - repeat constructor. intros [].
  - intros y Hy [Hxy|[]]. subst y.
    assert (Hex : existsb (String.eqb x) s = true).
    { apply existsb_exists. exists x. split; [exact Hy|apply String.eqb_refl]. }
    congruence.
Qed.

Lemma fold_set_add (l : list string) :
  forall acc,
  NoDup acc ->
  NoDup (fold_left (fun s x => set_add x s) l acc)
  /\ forall y, In y (fold_left (fun s x => set_add x s) l acc) <-> In y acc \/ In y l.
Proof.
  induction l as [|x l IH]; intros acc Hacc; simpl.
  - split; [exact Hacc|]. intuition.
  - destruct (IH (set_add x acc) (NoDup_set_add x acc Hacc)) as [Hnd Hin].
    split; [exact Hnd|]. intros y. rewrite Hin, In_set_add. intuition.
Qed.

Lemma str_set_spec (l : list string) :
  NoDup (str_set l) /\ forall y, In y (str_set l) <-> In y l.
Proof.
  destruct (fold_set_add l [] (NoDup_nil _)) as [Hnd Hin].
  split; [exact Hnd|]. intros y. unfold str_set. rewrite Hin. simpl. tauto.
Qed.

(** ** The global candidates of a training set *)

Lemma col_floats_nonempty (sig : list bool) (T : list Row) (j : nat) :
  T <> [] -> uniform sig T -> nth_error sig j = Some true ->
  col_floats j T <> [].
Proof.
  intros Hne Huni Hj. destruct T as [|row T]; [contradiction|].
  unfold uniform in Huni. rewrite Forall_forall in Huni.
  assert (Hrow := Huni row (or_introl eq_refl)).
  destruct (kinds_float _ row j Hrow Hj) as (x & Hx).
  simpl. rewrite Hx. discriminate.
Qed.

Lemma col_strs_nonempty (sig : list bool) (T : list Row) (j : nat) :
  T <> [] -> uniform sig T -> nth_error sig j = Some false ->
  col_strs j T <> [].
Proof.
  intros Hne Huni Hj. destruct T as [|row T]; [contradiction|].
  unfold uniform in Huni. rewrite Forall_forall in Huni.
  assert (Hrow := Huni row (or_introl eq_refl)).
  destruct (kinds_str _ row j Hrow Hj) as (x & Hx).
  simpl. rewrite Hx. discriminate.
Qed.

Lemma nonempty_In {A : Type} (l : list A) : l <> [] -> exists a, In a l.
Proof. destruct l as [|a l]; [contradiction|]. intros _. exists a. now left. Qed.

Lemma In_nonempty {A : Type} (l : list A) (a : A) : In a l -> length l <> 0.
Proof. destruct l; simpl; [tauto|lia]. Qed.

Lemma thresholds_nonempty (l : list Q) :
  l <> [] -> length (thresholds (sort (dedupe l))) <> 0.
Proof.
  intros Hne. destruct (nonempty_In l Hne) as (x & Hx).
  destruct (dedupe_covers x l Hx) as (y & Hy & Hxy).
  apply In_sort in Hy.
  destruct (thresholds_cover _ x y (sorted_distinct_sorted l) Hy Hxy) as (z & Hz).
  apply find_some in Hz. destruct Hz as [Hz _].
  now apply In_nonempty with z.
Qed.

Lemma global_facts (sig : list bool) (T : list Row) (guv : list container) :
  T <> [] -> uniform sig T ->
  GetPossibleValues (length sig) T = Ok guv ->
  kinds_agree sig guv
  /\ (forall c, In c guv -> nonempty c = true)
  /\ forall j b, nth_error sig j = Some b ->
       nth_error guv j =
       Some (if b then CList (thresholds (sort (dedupe (col_floats j T))))
             else CSet (str_set (col_strs j T))).
Proof.
  intros Hne Huni Hrun.
  destruct (GetPossibleValues_spec sig T Hne Huni) as (pv & Hrun' & Hlen & Hcols).
  rewrite Hrun in Hrun'. injection Hrun' as <-.
  split; [|split; [|exact Hcols]].
  - unfold kinds_agree. apply nth_error_ext. intros j.
    rewrite !nth_error_map.
    destruct (nth_error sig j) as [b|] eqn:Hb.
    + rewrite (Hcols j b Hb). now destruct b.
    + apply nth_error_None in Hb.
      assert (Hg : nth_error guv j = None) by (apply nth_error_None; lia).
      now rewrite Hg.
  - intros c Hc. destruct (In_nth_error _ _ Hc) as (j & Hj).
    assert (Hjl : j < length sig).
    { rewrite <- Hlen. apply nth_error_Some. congruence. }
    destruct (nth_error sig j) as [b|] eqn:Hb.
    2:{ apply nth_error_None in Hb. lia. }
    rewrite (Hcols j b Hb) in Hj. injection Hj as <-.
    unfold nonempty. destruct b; simpl.
    + apply negb_true_iff, Nat.eqb_neq, thresholds_nonempty.
      now apply col_floats_nonempty with sig.
    + apply negb_true_iff, Nat.eqb_neq.
      destruct (nonempty_In _ (col_strs_nonempty sig T j Hne Huni Hb)) as (s & Hs).
      apply In_nonempty with s. now apply str_set_spec.
Qed.

Lemma built_questions (self : DecisionTree) (sig : list bool) (T : list Row) :
  built self sig T ->
  GlobalQuestions self = questions_from 0 (GlobalUniqueValues self).
Proof.
  intros (Hne & Huni & _ & Hrun & Hq).
  destruct (global_facts sig T _ Hne Huni Hrun) as (_ & Hnonempty & _).
  rewrite (GetQuestions_spec _ Hnonempty) in Hq. now injection Hq.
Qed.

(** ** First matches in sorted thresholds *)

Lemma find_sorted_min (l : list Q) (x z : Q) :
  StronglySorted Qlt l -> find (Qle_bool x) l = Some z ->
  forall w, In w l -> (x <= w)%Q -> (z <= w)%Q.
Proof.
  induction 1 as [|h l Hs IH Hh]; intros Hfind w Hw Hxw; [contradiction|].
  simpl in Hfind. rewrite Forall_forall in Hh.
  destruct (Qle_bool x h) eqn:Hxh.
  - injection Hfind as <-. destruct Hw as [->|Hw]; [apply Qle_refl|].
    apply Qlt_le_weak, Hh, Hw.
  - destruct Hw as [->|Hw].
    + apply Qle_bool_iff in Hxw. congruence.
    + now apply IH.
Qed.

Lemma find_sublist (g l : list Q) (x y : Q) :
  StronglySorted Qlt g -> StronglySorted Qlt l ->
  (forall w, In w l -> In w g) ->
  find (Qle_bool x) g = Some y -> In y l ->
  find (Qle_bool x) l = Some y.
Proof.
  intros Hg Hl Hincl Hfind Hy.
  destruct (find_some _ _ Hfind) as [Hyg Hxy]. apply Qle_bool_iff in Hxy.
  destruct (find (Qle_bool x) l) as [z|] eqn:Hz.
  - destruct (find_some _ _ Hz) as [Hzl Hxz]. apply Qle_bool_iff in Hxz.
    assert (H1 := find_sorted_min l x z Hl Hz y Hy Hxy).
    assert (H2 := find_sorted_min g x y Hg Hfind z (Hincl z Hzl) Hxz).
    f_equal. apply (sorted_eq_unique g z y Hg (Hincl z Hzl) Hyg).
    now apply Qle_antisym.
  - assert (Hn := find_none _ _ Hz y Hy). apply Qle_bool_iff in Hxy. congruence.
Qed.

Lemma find_from_spec {A : Type} (p : A -> bool) (l : list A) :
  forall k i y,
  find_from p k l = Some (i, y) ->
  k <= i /\ nth_error l (i - k) = Some y /\ p y = true.
Proof.
  induction l as [|x l IH]; intros k i y H; simpl in H; [discriminate|].
  destruct (p x) eqn:Hp.
  - injection H as <- <-. rewrite Nat.sub_diag. auto.
  - destruct (IH (S k) i y H) as (Hk & Hnth & Hy).
    split; [lia|]. split; [|exact Hy].
    replace (i - k) with (S (i - S k)) by lia. exact Hnth.
Qed.

Lemma find_from_of_find {A : Type} (p : A -> bool) (l : list A) (y : A) (k : nat) :
  find p l = Some y -> exists i, find_from p k l = Some (i, y).
Proof.
  intros H. rewrite <- (find_from_find p l k) in H.
  destruct (find_from p k l) as [[i z]|]; simpl in H; [|discriminate].
  injection H as ->. now exists i.
Qed.

Lemma sorted_NoDup (l : list Q) : StronglySorted Qlt l -> NoDup l.
Proof.
  induction 1 as [|x l Hs IH Hx]; constructor; [|exact IH].
  intros Hin. rewrite Forall_forall in Hx.
  apply (Qlt_irrefl x), Hx, Hin.
Qed.

Lemma find_from_index {A : Type} (p : A -> bool) (l : list A) (y : A) (i : nat) :
  NoDup l -> nth_error l i = Some y -> find p l = Some y ->
  find_from p 0 l = Some (i, y).
Proof.
  intros Hnd Hi Hfind.
  destruct (find_from_of_find p l y 0 Hfind) as (i' & Hi').
  destruct (find_from_spec p l 0 i' y Hi') as (_ & Hnth & _).
  rewrite Nat.sub_0_r in Hnth.
  assert (i' = i).
  { apply (proj1 (NoDup_nth_error l) Hnd).
    - apply nth_error_Some. congruence.
    - congruence. }
  now subst i'.
Qed.

(** ** The local candidates of a subset *)

Section LocalFloats.

Variables (T ds : list Row) (j : nat).

Hypothesis ds_in_T : incl ds T.

Lemma g_sorted : StronglySorted Qlt (global_thresholds j T).
Proof. apply thresholds_sorted, sorted_distinct_sorted. Qed.

Lemma l_sorted : StronglySorted Qlt (local_thresholds j T ds).
Proof. apply sorted_distinct_sorted. Qed.

Lemma l_in_g (w : Q) :
  In w (local_thresholds j T ds) ->
  In w (global_thresholds j T)
  /\ exists x, In x (col_floats j ds)
               /\ find (Qle_bool x) (global_thresholds j T) = Some w.
Proof.
  intros Hw. apply In_sort, In_dedupe in Hw.
  unfold matched_floats in Hw. apply in_flat_map in Hw.
  destruct Hw as (x & Hx & Hw).
  destruct (find (Qle_bool x) (global_thresholds j T)) as [y|] eqn:Hy;
    [|contradiction].
  destruct Hw as [->|[]]. split.
  - now apply find_some in Hy.
  - now exists x.
Qed.

Lemma xs_covered (x : Q) :
  In x (col_floats j ds) ->
  exists y, find (Qle_bool x) (global_thresholds j T) = Some y
            /\ In y (local_thresholds j T ds)
            /\ find (Qle_bool x) (local_thresholds j T ds) = Some y.
Proof.
  intros Hx.
  assert (HxT : In x (col_floats j T)).
  { apply In_col_floats in Hx. destruct Hx as (row & Hrow & Hnth).
    apply In_col_floats. exists row. split; [now apply ds_in_T|exact Hnth]. }
  destruct (dedupe_covers x _ HxT) as (y0 & Hy0 & Hxy0).
  apply In_sort in Hy0.
  destruct (thresholds_cover (sort (dedupe (col_floats j T))) x y0
              (sorted_distinct_sorted _) Hy0 Hxy0) as (y & Hy).
  fold (global_thresholds j T) in Hy.
  assert (Hym : In y (matched_floats (global_thresholds j T) (col_floats j ds))).
  { unfold matched_floats. apply in_flat_map. exists x. split; [exact Hx|].
    rewrite Hy. now left. }
  destruct (dedupe_covers y _ Hym) as (y2 & Hy2 & Hyy2).
  assert (Hy2l : In y2 (local_thresholds j T ds)) by now apply In_sort.
  assert (Hy2g : In y2 (global_thresholds j T)) by now apply l_in_g.
  assert (Hyg : In y (global_thresholds j T)) by now apply find_some in Hy.
  assert (y = y2)
    by (apply (sorted_eq_unique (global_thresholds j T)); auto using g_sorted).
  subst y2. exists y. split; [exact Hy|]. split; [exact Hy2l|].
  apply (find_sublist (global_thresholds j T) (local_thresholds j T ds));
    auto using g_sorted, l_sorted.
  intros w Hw. now apply l_in_g.
Qed.

End LocalFloats.

Section LocalStrs.

Variables (T ds : list Row) (j : nat).

Hypothesis ds_in_T : incl ds T.

Lemma find_eqb_In (s : string) (m : list string) :
  In s m -> find (String.eqb s) m = Some s.
Proof.
  intros Hs. destruct (find (String.eqb s) m) as [t|] eqn:Hfind.
  - f_equal. now apply find_eqb_self with m.
  - assert (H := find_none _ _ Hfind s Hs). now rewrite String.eqb_refl in H.
Qed.

Lemma strs_matched (s : string) :
  In s (matched_strs (global_strs j T) (col_strs j ds)) <-> In s (col_strs j ds).
Proof.
  unfold matched_strs. rewrite in_flat_map. split.
  - intros (t & Ht & Hs).
    destruct (find (String.eqb t) (global_strs j T)) as [t'|] eqn:Hfind;
      [|contradiction].
    destruct Hs as [<-|[]]. apply find_eqb_self in Hfind. now subst.
  - intros Hs. exists s. split; [exact Hs|].
    assert (Hg : In s (global_strs j T)).
    { apply str_set_spec. apply In_col_strs in Hs.
      destruct Hs as (row & Hrow & Hnth). apply In_col_strs.
      exists row. split; [now apply ds_in_T|exact Hnth]. }
    rewrite (find_eqb_In s (global_strs j T) Hg). now left.
Qed.

Lemma strs_local (s : string) :
  In s (local_strs j T ds) <-> In s (col_strs j ds).
Proof.
  unfold local_strs. now rewrite (proj2 (str_set_spec _)), strs_matched.
Qed.

Lemma strs_NoDup : NoDup (local_strs j T ds).
Proof. apply str_set_spec. Qed.

End LocalStrs.

(** ** The partition of a subset *)

Lemma py_index_norm {A : Type} (l : list A) (a : Z) (x : A) :
  py_index l a = Ok x ->
  exists j,
    nth_error l j = Some x
    /\ forall (B : Type) (l' : list B),
         length l' = length l ->
         py_index l' a =
         match nth_error l' j with Some b => Ok b | None => Raise IndexError end.
Proof.
  unfold py_index. intros H.
  set (k := fun n : nat => if (a <? 0)%Z then (Z.of_nat n + a)%Z else a).
  fold (k (length l)) in H.
  destruct (k (length l) <? 0)%Z eqn:Hk; [discriminate|].
  exists (Z.to_nat (k (length l))). split.
  - destruct (nth_error l (Z.to_nat (k (length l)))); [congruence|discriminate].
  - intros B l' Hlen. fold (k (length l')). rewrite Hlen, Hk. reflexivity.
Qed.

Lemma append_row_spec (sets : list (option (list Row))) (i : nat) (row : Row) :
  i < length sets ->
  length (append_row sets i row) = length sets
  /\ forall k,
       nth_error (append_row sets i row) k =
       if k =? i
       then option_map (fun g => extend g [row]) (nth_error sets k)
       else nth_error sets k.
Proof.
  revert i. induction sets as [|g sets IH]; intros [|i] Hi; simpl in *; try lia.
  - split; [reflexivity|]. intros [|k]; simpl; [|reflexivity].
    destruct g; reflexivity.
  - destruct (IH i) as [Hlen Hnth]; [lia|].
    split; [now rewrite Hlen|]. intros [|k]; simpl; [reflexivity|]. apply Hnth.
Qed.

Lemma extend_extend (g : option (list Row)) (row : Row) (rows : list Row) :
  extend (extend g [row]) rows = extend g (row :: rows).
Proof.
  destruct g as [old|]; simpl.
  - now rewrite <- app_assoc.
  - reflexivity.
Qed.

Lemma extend_nil (g : option (list Row)) : extend g [] = g.
Proof. destruct g as [old|]; simpl; [now rewrite app_nil_r|reflexivity]. Qed.

Lemma SplitRows_spec (qs : list Question) (n : nat) (ds : list Row) :
  (forall row, In row ds ->
     exists r, first_match qs 0 row = Ok r
               /\ forall i q, r = Some (i, q) -> i < n) ->
  forall sets,
  length sets = n ->
  exists sets',
    SplitRows qs ds sets = Ok sets'
    /\ length sets' = n
    /\ forall i, nth_error sets' i =
                 option_map (fun g => extend g (idx_rows qs i ds)) (nth_error sets i).
Proof.
  induction ds as [|row ds IH]; intros Hrows sets Hlen.
  - exists sets. split; [reflexivity|]. split; [exact Hlen|].
    intros i. simpl. destruct (nth_error sets i); simpl; [|reflexivity].
    now rewrite extend_nil.
  - destruct (Hrows row (or_introl eq_refl)) as (r & Hr & Hbound).
    cbn [SplitRows]. rewrite Hr. cbn [bind].
    assert (Hrows' : forall row0, In row0 ds ->
              exists r0, first_match qs 0 row0 = Ok r0
                         /\ forall i q, r0 = Some (i, q) -> i < n).
    { intros row0 H0. apply Hrows. now right. }
    destruct r as [[k q]|].
    + assert (Hk : k < length sets) by (rewrite Hlen; now apply (Hbound k q)).
      destruct (append_row_spec sets k row Hk) as [Hlen1 Hnth1].
      destruct (IH Hrows' (append_row sets k row)) as (sets' & Hrun & Hlen' & Hnth');
        [lia|].
      exists sets'. split; [exact Hrun|]. split; [exact Hlen'|].
      intros i. rewrite Hnth', Hnth1. unfold idx_rows. cbn [filter]. rewrite Hr.
      rewrite (Nat.eqb_sym k i).
      destruct (i =? k); [|reflexivity].
      destruct (nth_error sets i); simpl; [|reflexivity].
      f_equal. apply extend_extend.
    + destruct (IH Hrows' sets Hlen) as (sets' & Hrun & Hlen' & Hnth').
      exists sets'. split; [exact Hrun|]. split; [exact Hlen'|].
      intros i. rewrite Hnth'. unfold idx_rows. cbn [filter]. now rewrite Hr.
Qed.

Lemma SplitSets_spec (qs : list Question) (ds : list Row) :
  (forall row, In row ds ->
     exists r, first_match qs 0 row = Ok r
               /\ forall i q, r = Some (i, q) -> i < length qs) ->
  (forall i, i < length qs -> idx_rows qs i ds <> []) ->
  SplitSets qs ds = Ok (map (fun i => Some (idx_rows qs i ds)) (seq 0 (length qs)))
  /\ forall i, i < length qs -> idx_rows qs i ds <> [].
Proof.
  intros Hrows Hidx. split; [|exact Hidx]. unfold SplitSets.
  destruct (SplitRows_spec qs (length qs) ds Hrows (repeat None (length qs)))
    as (groups & Hrun & Hlen & Hnth); [apply repeat_length|].
  rewrite Hrun. f_equal. apply nth_error_ext. intros i.
  rewrite Hnth, nth_error_map.
  destruct (Nat.lt_ge_cases i (length qs)) as [Hi|Hi].
  - rewrite nth_error_repeat by exact Hi.
    rewrite (nth_error_nth' (seq 0 (length qs)) 0) by (rewrite length_seq; exact Hi).
    rewrite seq_nth by exact Hi. simpl.
    specialize (Hidx i Hi). destruct (idx_rows qs i ds); [contradiction|reflexivity].
  - assert (H1 : nth_error (repeat (@None (list Row)) (length qs)) i = None)
      by (apply nth_error_None; rewrite repeat_length; exact Hi).
    assert (H2 : nth_error (seq 0 (length qs)) i = None)
      by (apply nth_error_None; rewrite length_seq; exact Hi).
    now rewrite H1, H2.
Qed.

Lemma uniform_incl (sig : list bool) (T ds : list Row) :
  uniform sig T -> incl ds T -> uniform sig ds.
Proof.
  unfold uniform. rewrite !Forall_forall. intros H Hincl row Hrow.
  apply H, Hincl, Hrow.
Qed.

Lemma idx_rows_In (qs : list Question) (i : nat) (ds : list Row) (row : Row) (q : Question) :
  In row ds -> first_match qs 0 row = Ok (Some (i, q)) -> idx_rows qs i ds <> [].
Proof.
  intros Hrow Hfm Hnil.
  assert (Hin : In row (idx_rows qs i ds)).
  { unfold idx_rows. apply filter_In. split; [exact Hrow|].
    rewrite Hfm. apply Nat.eqb_refl. }
  rewrite Hnil in Hin. contradiction.
Qed.

Lemma split_floats (T ds : list Row) (j : nat) (a : Z) :
  incl ds T ->
  (forall row, In row ds ->
     exists x, nth_error row j = Some (VFloat x)
               /\ py_index row a = Ok (VFloat x)) ->
  let l := sort (dedupe (matched_floats
                           (thresholds (sort (dedupe (col_floats j T))))
                           (col_floats j ds))) in
  let qs := map (fun y => mkQuestion a (OVal (VFloat y))) l in
  SplitSets qs ds = Ok (map (fun i => Some (idx_rows qs i ds)) (seq 0 (length qs)))
  /\ forall i, i < length qs -> idx_rows qs i ds <> [].
Proof.
  intros Hincl Hrows l qs.
  assert (Hlen : length qs = length l) by apply length_map.
  apply SplitSets_spec.
  - intros row Hrow. destruct (Hrows row Hrow) as (x & Hnth & Hidx).
    eexists. split; [apply (first_match_floats a row x l Hidx 0)|].
    intros i q Hr.
    destruct (find_from (Qle_bool x) 0 l) as [[i' y]|] eqn:Hfind;
      simpl in Hr; [|discriminate].
    injection Hr as <- _.
    destruct (find_from_spec _ _ _ _ _ Hfind) as (_ & Hy & _).
    rewrite Hlen. apply nth_error_Some. rewrite Nat.sub_0_r in Hy. congruence.
  - intros i Hi. rewrite Hlen in Hi.
    destruct (nth_error l i) as [y|] eqn:Hy.
    2:{ apply nth_error_None in Hy. lia. }
    assert (Hyl : In y l) by (eapply nth_error_In; eauto).
    destruct (l_in_g T ds j y Hyl) as (_ & x & Hx & Hxy).
    destruct (xs_covered T ds j Hincl x Hx) as (y' & Hy' & _ & Hfind).
    rewrite Hxy in Hy'. injection Hy' as <-.
    apply In_col_floats in Hx. destruct Hx as (row & Hrow & Hnth).
    destruct (Hrows row Hrow) as (x' & Hnth' & Hidx).
    rewrite Hnth in Hnth'. injection Hnth' as <-.
    apply (idx_rows_In qs i ds row (mkQuestion a (OVal (VFloat y))) Hrow).
    unfold qs. rewrite (first_match_floats a row x l Hidx 0).
    rewrite (find_from_index (Qle_bool x) l y i
               (sorted_NoDup l (l_sorted T ds j)) Hy Hfind).
    reflexivity.
Qed.

Lemma split_strs (T ds : list Row) (j : nat) (a : Z) :
  incl ds T ->
  (forall row, In row ds ->
     exists s, nth_error row j = Some (VStr s)
               /\ py_index row a = Ok (VStr s)) ->
  let l := str_set (matched_strs (str_set (col_strs j T)) (col_strs j ds)) in
  let qs := map (fun t => mkQuestion a (OVal (VStr t))) l in
  SplitSets qs ds = Ok (map (fun i => Some (idx_rows qs i ds)) (seq 0 (length qs)))
  /\ forall i, i < length qs -> idx_rows qs i ds <> [].
Proof.
  intros Hincl Hrows l qs.
  assert (Hlen : length qs = length l) by apply length_map.
  apply SplitSets_spec.
  - intros row Hrow. destruct (Hrows row Hrow) as (s & Hnth & Hidx).
    eexists. split; [apply (first_match_strs a row s l Hidx 0)|].
    intros i q Hr.
    destruct (find_from (String.eqb s) 0 l) as [[i' y]|] eqn:Hfind;
      simpl in Hr; [|discriminate].
    injection Hr as <- _.
    destruct (find_from_spec _ _ _ _ _ Hfind) as (_ & Hy & _).
    rewrite Hlen. apply nth_error_Some. rewrite Nat.sub_0_r in Hy. congruence.
  - intros i Hi. rewrite Hlen in Hi.
    destruct (nth_error l i) as [t|] eqn:Ht.
    2:{ apply nth_error_None in Ht. lia. }
    assert (Htl : In t l) by (eapply nth_error_In; eauto).
    assert (Hts := proj1 (strs_local T ds j Hincl t) Htl).
    apply In_col_strs in Hts. destruct Hts as (row & Hrow & Hnth).
    destruct (Hrows row Hrow) as (s & Hnth' & Hidx).
    rewrite Hnth in Hnth'. injection Hnth' as <-.
    apply (idx_rows_In qs i ds row (mkQuestion a (OVal (VStr t))) Hrow).
    unfold qs. rewrite (first_match_strs a row t l Hidx 0).
    rewrite (find_from_index (String.eqb t) l t i
               (strs_NoDup T ds j) Ht (find_eqb_In t l Htl)).
    reflexivity.
Qed.

Lemma split_step (self : DecisionTree) (sig : list bool) (T ds : list Row)
    (uv : list container) (a : Z) (qs : list Question) :
  built self sig T -> ds <> [] -> incl ds T ->
  GetChildPossibleValues (length (AttributeNames self)) (GlobalQuestions self) ds
    = Ok uv ->
  MakeQuestions uv a = Ok qs ->
  SplitSets qs ds = Ok (map (fun i => Some (idx_rows qs i ds)) (seq 0 (length qs)))
  /\ forall i, i < length qs -> idx_rows qs i ds <> [].
Proof.
  intros Hbuilt Hne Hincl Hchild Hmake.
  assert (Hq := built_questions self sig T Hbuilt).
  destruct Hbuilt as (HT & Huni & Hnames & Hglobal & _).
  destruct (global_facts sig T _ HT Huni Hglobal) as (Hagree & _ & Hcols).
  assert (Huds := uniform_incl sig T ds Huni Hincl).
  destruct (GetChildPossibleValues_spec sig _ ds Hne Huds Hagree)
    as (uv' & Hchild' & Hlen & Hlocal).
  rewrite Hnames, Hq, Hchild' in Hchild. injection Hchild as ->.
  unfold MakeQuestions in Hmake.
  apply bind_Ok in Hmake. destruct Hmake as (c & Hc & Hmake).
  apply bind_Ok in Hmake. destruct Hmake as (atts & Hatts & Hmake).
  injection Hmake as <-.
  destruct (py_index_norm uv a c Hc) as (j & Hj & Hnorm).
  assert (Hjl : j < length sig).
  { rewrite <- Hlen. apply nth_error_Some. congruence. }
  destruct (nth_error sig j) as [b|] eqn:Hb.
  2:{ apply nth_error_None in Hb. lia. }
  rewrite (Hlocal j _ (Hcols j b Hb)) in Hj. injection Hj as <-.
  assert (Hrowidx : forall row, In row ds ->
            py_index row a =
            match nth_error row j with Some v => Ok v | None => Raise IndexError end).
  { intros row Hrow. apply Hnorm. rewrite Hlen.
    unfold uniform in Huds. rewrite Forall_forall in Huds.
    now apply kinds_length, Huds. }
  unfold uniform in Huds. rewrite Forall_forall in Huds.
  destruct b; cbn [local_candidates py_iter] in Hatts; injection Hatts as <-;
    rewrite map_map.
  - apply (split_floats T ds j a Hincl).
    intros row Hrow.
    destruct (kinds_float sig row j (Huds row Hrow) Hb) as (x & Hx).
    exists x. split; [exact Hx|]. now rewrite (Hrowidx row Hrow), Hx.
  - apply (split_strs T ds j a Hincl).
    intros row Hrow.
    destruct (kinds_str sig row j (Huds row Hrow) Hb) as (s & Hs).
    exists s. split; [exact Hs|]. now rewrite (Hrowidx row Hrow), Hs.
Qed.

(** ** A subset with one label *)

Lemma NoDup_all_equal {A : Type} (l : list A) (y : A) :
  NoDup l -> (forall z, In z l -> z = y) -> In y l -> length l = 1.
Proof.
  intros Hnd Hall Hy. destruct l as [|a l]; [contradiction|].
  destruct l as [|b l]; [reflexivity|]. exfalso.
  assert (a = y) by (apply Hall; now left).
  assert (b = y) by (apply Hall; right; now left).
  subst. inversion Hnd as [|? ? Hnotin _]. apply Hnotin. now left.
Qed.

Lemma find_Qle_Qeq (g : list Q) (x x' : Q) :
  (x == x')%Q -> find (Qle_bool x) g = find (Qle_bool x') g.
Proof.
  intros H. induction g as [|y g IH]; simpl; [reflexivity|].
  rewrite IH. now rewrite (Qleb_comp x x' H y y (Qeq_refl y)).
Qed.

Lemma label_of_nth (sig : list bool) (row : Row) :
  kinds row = sig ->
  label_of row =
  match nth_error row (length sig - 1) with
  | Some v => Ok v
  | None => Raise IndexError
  end.
Proof.
  intros Hk. unfold label_of. rewrite (kinds_length sig row Hk).
  destruct (length sig) as [|n] eqn:Hn.
  - assert (row = []).
    { apply length_zero_iff_nil. now rewrite (kinds_length sig row Hk). }
    subst. reflexivity.
  - replace (Z.of_nat (S n) - 1)%Z with (Z.of_nat n) by lia.
    rewrite py_index_nat. now replace (S n - 1) with n by lia.
Qed.

Lemma CalculateCounts_from_pure (rows : list Row) (key : value) :
  (forall row, In row rows ->
     exists l, label_of row = Ok l /\ val_eqb l key = true) ->
  forall n,
  CalculateCounts_from [(key, n)] rows = Ok [(key, n + length rows)].
Proof.
  induction rows as [|row rows IH]; intros Hrows n; simpl.
  - now rewrite Nat.add_0_r.
  - destruct (Hrows row (or_introl eq_refl)) as (l & Hl & Heq).
    unfold label_of in Hl. rewrite Hl. simpl. rewrite Heq.
    rewrite IH by (intros r Hr; apply Hrows; now right).
    do 3 f_equal. lia.
Qed.

Lemma CalculateCounts_pure (ds : list Row) (lbl : value) :
  ds <> [] ->
  (forall row, In row ds ->
     exists l, label_of row = Ok l /\ val_eqb l lbl = true) ->
  exists key, val_eqb key lbl = true
              /\ CalculateCounts ds = Ok [(key, length ds)].
Proof.
  intros Hne Hrows. destruct ds as [|row ds]; [contradiction|].
  destruct (Hrows row (or_introl eq_refl)) as (key & Hkey & Heq).
  exists key. split; [exact Heq|].
  unfold CalculateCounts. simpl. unfold label_of in Hkey. rewrite Hkey. simpl.
  rewrite CalculateCounts_from_pure; [reflexivity|].
  intros r Hr. destruct (Hrows r (or_intror Hr)) as (l & Hl & Hll).
  exists l. split; [exact Hl|].
  apply val_eqb_trans with lbl; [exact Hll|]. now rewrite val_eqb_sym.
Qed.

Lemma pure_label_candidates (sig : list bool) (T ds : list Row) (lbl : value)
    (b : bool) :
  T <> [] -> uniform sig T -> ds <> [] -> incl ds T ->
  (forall row, In row ds ->
     exists l, label_of row = Ok l /\ val_eqb l lbl = true) ->
  nth_error sig (length sig - 1) = Some b ->
  py_len (local_candidates
            (if b
             then CList (thresholds (sort (dedupe (col_floats (length sig - 1) T))))
             else CSet (str_set (col_strs (length sig - 1) T)))
            (length sig - 1) ds) = Ok 1.
Proof.
  intros HT Huni Hne Hincl Hlbl Hb.
  assert (Huds := uniform_incl sig T ds Huni Hincl).
  unfold uniform in Huds. rewrite Forall_forall in Huds.
  set (j := length sig - 1) in *.
  destruct (nonempty_In ds Hne) as (row0 & Hrow0).
  destruct b; cbn [local_candidates py_len]; f_equal.
  - destruct (kinds_float sig row0 j (Huds row0 Hrow0) Hb) as (x0 & Hx0).
    assert (Hx0s : In x0 (col_floats j ds)) by (apply In_col_floats; eauto).
    destruct (xs_covered T ds j Hincl x0 Hx0s) as (y & Hy & Hyl & _).
    apply (NoDup_all_equal _ y); [apply sorted_NoDup, l_sorted| |exact Hyl].
    intros z Hz. destruct (l_in_g T ds j z Hz) as (_ & x & Hx & Hxz).
    assert (Hxx0 : (x == x0)%Q).
    { apply In_col_floats in Hx. destruct Hx as (row & Hrow & Hnth).
      destruct (Hlbl row Hrow) as (l & Hl & Hll).
      destruct (Hlbl row0 Hrow0) as (l0 & Hl0 & Hll0).
      rewrite (label_of_nth sig row (Huds row Hrow)) in Hl. fold j in Hl.
      rewrite (label_of_nth sig row0 (Huds row0 Hrow0)) in Hl0. fold j in Hl0.
      rewrite Hnth in Hl. rewrite Hx0 in Hl0.
      injection Hl as <-. injection Hl0 as <-.
      assert (H : val_eqb (VFloat x) (VFloat x0) = true).
      { apply val_eqb_trans with lbl; [exact Hll|]. now rewrite val_eqb_sym. }
      now apply Qeq_bool_iff in H. }
    rewrite (find_Qle_Qeq _ x x0 Hxx0) in Hxz. congruence.
  - destruct (kinds_str sig row0 j (Huds row0 Hrow0) Hb) as (s0 & Hs0).
    assert (Hs0s : In s0 (col_strs j ds)) by (apply In_col_strs; eauto).
    apply (NoDup_all_equal _ s0); [apply strs_NoDup| |now apply strs_local].
    intros z Hz. apply (strs_local T ds j Hincl) in Hz.
    apply In_col_strs in Hz. destruct Hz as (row & Hrow & Hnth).
    destruct (Hlbl row Hrow) as (l & Hl & Hll).
    destruct (Hlbl row0 Hrow0) as (l0 & Hl0 & Hll0).
    rewrite (label_of_nth sig row (Huds row Hrow)) in Hl. fold j in Hl.
    rewrite (label_of_nth sig row0 (Huds row0 Hrow0)) in Hl0. fold j in Hl0.
    rewrite Hnth in Hl. rewrite Hs0 in Hl0.
    injection Hl as <-. injection Hl0 as <-.
    assert (H : val_eqb (VStr z) (VStr s0) = true).
    { apply val_eqb_trans with lbl; [exact Hll|]. now rewrite val_eqb_sym. }
    now apply String.eqb_eq in H.
Qed.

(** C4: during the build on training rows of uniform kinds, on a non-empty
    subset of them whose labels are all equal, [CreateTreeRecursive]
    returns a leaf whose counts hold one key, equal to the label, with the
    number of rows for its value; [self.Depth] is left as it was. *)
Theorem pure_subset_leaf (self : DecisionTree) (sig : list bool)
    (T ds : list Row) (lbl : value) (fuel aDepth depth : nat) :
  built self sig T ->
  ds <> [] ->
  incl ds T ->
  (forall row, In row ds ->
     exists l, label_of row = Ok l /\ val_eqb l lbl = true) ->
  exists key,
    val_eqb key lbl = true
    /\ CreateTreeRecursive (S fuel) self ds aDepth depth
       = Ok (LeafNode [(key, length ds)] aDepth, depth).
Proof.
  intros Hbuilt Hne Hincl Hlbl.
  assert (Hq := built_questions self sig T Hbuilt).
  destruct Hbuilt as (HT & Huni & Hnames & Hglobal & _).
  destruct (global_facts sig T _ HT Huni Hglobal) as (Hagree & _ & Hcols).
  assert (Huds := uniform_incl sig T ds Huni Hincl).
  destruct (GetChildPossibleValues_spec sig _ ds Hne Huds Hagree)
    as (uv & Hchild & Hlen & Hlocal).
  destruct (CalculateCounts_pure ds lbl Hne Hlbl) as (key & Hkey & Hcounts).
  exists key. split; [exact Hkey|].
  cbn [CreateTreeRecursive]. rewrite Hnames, Hq, Hchild. cbn [bind].
  assert (Hpos : 0 < length sig).
  { destruct (nonempty_In ds Hne) as (row & Hrow).
    destruct (Hlbl row Hrow) as (l & Hl & _).
    apply py_index_Ok_nonempty in Hl.
    unfold uniform in Huds. rewrite Forall_forall in Huds.
    rewrite <- (kinds_length sig row (Huds row Hrow)).
    destruct row; [contradiction|simpl; lia]. }
  destruct (nth_error sig (length sig - 1)) as [b|] eqn:Hb.
  2:{ apply nth_error_None in Hb. lia. }
  assert (Hcan : CanSplit ds uv (GlobalUniqueValues self) = Ok false).
  { unfold CanSplit. rewrite Hlen.
    replace (Z.of_nat (length sig) - 1)%Z with (Z.of_nat (length sig - 1)) by lia.
    rewrite py_index_nat, (Hlocal _ _ (Hcols _ b Hb)). cbn [bind].
    rewrite (pure_label_candidates sig T ds lbl b HT Huni Hne Hincl Hlbl Hb).
    reflexivity. }
  rewrite Hcan. cbn [bind negb]. unfold mkLeafNode. rewrite Hcounts. reflexivity.
Qed.

Lemma pure_subset_leaf_witness :
  let T := [[VStr "Green"; VFloat 3; VStr "Yes"];
            [VStr "Yellow"; VFloat 3; VStr "Yes"];
            [VStr "Red"; VFloat 1; VStr "No"]] in
  let guv := [CSet ["Green"; "Yellow"; "Red"]%string; CList [1%Q; 3%Q];
              CSet ["Yes"; "No"]%string] in
  let self := mkDecisionTree T None ["Color"; "Size"; "Label"]%string 0 guv
                (questions_from 0 guv) in
  let ds := [[VStr "Green"; VFloat 3; VStr "Yes"];
             [VStr "Yellow"; VFloat 3; VStr "Yes"]] in
  exists key,
    CreateTreeRecursive 1 self ds 1 0 = Ok (LeafNode [(key, 2)] 1, 0).
Proof.
  intros T guv self ds.
  destruct (pure_subset_leaf self [false; true; false] T ds Yes 0 1 0)
    as (key & _ & Hrun).
  - repeat split; try reflexivity; try discriminate. repeat constructor.
  - discriminate.
  - intros row [<-|[<-|[]]]; simpl; auto.
  - intros row [<-|[<-|[]]]; exists Yes; split; reflexivity.
  - exists key. exact Hrun.
Defined.

(** ** The build returns a tree *)

Lemma distinctb_floats (l : list Q) :
  StronglySorted Qlt l -> distinctb (map VFloat l) = true.
Proof.
  induction 1 as [|x l Hs IH Hx]; simpl; [reflexivity|].
  rewrite IH, andb_true_r. apply negb_true_iff.
  destruct (existsb (val_eqb (VFloat x)) (map VFloat l)) eqn:Hex; [|reflexivity].
  apply existsb_exists in Hex. destruct Hex as (v & Hv & Heq).
  apply in_map_iff in Hv. destruct Hv as (y & <- & Hy).
  simpl in Heq. apply Qeq_bool_iff in Heq.
  rewrite Forall_forall in Hx. specialize (Hx y Hy). rewrite Heq in Hx.
  exfalso. eapply Qlt_irrefl, Hx.
Qed.

Lemma distinctb_strs (l : list string) :
  NoDup l -> distinctb (map VStr l) = true.
Proof.
  induction 1 as [|x l Hx Hnd IH]; simpl; [reflexivity|].
  rewrite IH, andb_true_r. apply negb_true_iff.
  destruct (existsb (val_eqb (VStr x)) (map VStr l)) eqn:Hex; [|reflexivity].
  apply existsb_exists in Hex. destruct Hex as (v & Hv & Heq).
  apply in_map_iff in Hv. destruct Hv as (y & <- & Hy).
  simpl in Heq. apply String.eqb_eq in Heq. subst y. contradiction.
Qed.

Lemma local_candidates_ok (sig : list bool) (T ds : list Row) (j : nat) (b : bool) :
  uniform sig T -> ds <> [] -> incl ds T ->
  nth_error sig j = Some b ->
  candidates_ok
    (local_candidates
       (if b then CList (global_thresholds j T) else CSet (global_strs j T))
       j ds) = true.
Proof.
  intros Huni Hne Hincl Hb.
  assert (Huds := uniform_incl sig T ds Huni Hincl).
  unfold uniform in Huds. rewrite Forall_forall in Huds.
  destruct (nonempty_In ds Hne) as (row0 & Hrow0).
  unfold candidates_ok.
  destruct b; cbn [local_candidates py_iter]; rewrite length_map;
    apply andb_true_iff; split.
  - destruct (kinds_float sig row0 j (Huds row0 Hrow0) Hb) as (x0 & Hx0).
    assert (Hx0s : In x0 (col_floats j ds)) by (apply In_col_floats; eauto).
    destruct (xs_covered T ds j Hincl x0 Hx0s) as (y & _ & Hyl & _).
    apply negb_true_iff, Nat.eqb_neq. now apply In_nonempty with y.
  - apply distinctb_floats, (l_sorted T ds j).
  - destruct (kinds_str sig row0 j (Huds row0 Hrow0) Hb) as (s0 & Hs0).
    assert (Hs0s : In s0 (col_strs j ds)) by (apply In_col_strs; eauto).
    apply negb_true_iff, Nat.eqb_neq. apply In_nonempty with s0.
    now apply (strs_local T ds j Hincl).
  - apply distinctb_strs, (strs_NoDup T ds j).
Qed.

Lemma CalculateCounts_from_returns (rows : list Row) :
  (forall row, In row rows -> row <> []) ->
  forall counts, returns (CalculateCounts_from counts rows).
Proof.
  induction rows as [|row rows IH]; intros Hrows counts; simpl.
  - now exists counts.
  - destruct (label_of_nonempty row (Hrows row (or_introl eq_refl))) as (l & Hl).
    unfold label_of in Hl. rewrite Hl. simpl.
    apply IH. intros r Hr. apply Hrows. now right.
Qed.

Lemma idx_rows_disjoint (qs : list Question) (i k : nat) (ds : list Row) :
  i <> k -> length (idx_rows qs i ds) + length (idx_rows qs k ds) <= length ds.
Proof.
  intros Hik. unfold idx_rows. induction ds as [|row ds IH]; simpl; [lia|].
  destruct (first_match qs 0 row) as [[[m q]|]|e]; simpl; try lia.
  destruct (Nat.eqb_spec m i), (Nat.eqb_spec m k); simpl; lia.
Qed.

Lemma build_branches_returns (recurse : list Row -> nat -> result (node * nat))
    (groups : list (option (list Row))) :
  (forall g, In g groups ->
     exists rows, g = Some rows /\ forall d, returns (recurse rows d)) ->
  forall depth, returns (build_branches recurse groups depth).
Proof.
  induction groups as [|g groups IH]; intros Hgroups depth; simpl.
  - eexists; reflexivity.
  - destruct (Hgroups g (or_introl eq_refl)) as (rows & -> & Hrec).
    destruct (Hrec depth) as ([branch depth'] & Hrun). rewrite Hrun. simpl.
    destruct (IH (fun g' Hg' => Hgroups g' (or_intror Hg')) depth')
      as ([branches depth''] & Hrest).
    rewrite Hrest. simpl. eexists; reflexivity.
Qed.

Lemma candidates_ok_inv (c : container) :
  candidates_ok c = true ->
  exists eles, py_iter c = Ok eles /\ py_len c = Ok (length eles)
               /\ eles <> [] /\ distinctb eles = true.
Proof.
  unfold candidates_ok. intros H.
  destruct (py_iter c) as [eles|] eqn:Heles; [|discriminate].
  apply andb_true_iff in H. destruct H as [Hne Hd].
  apply negb_true_iff, Nat.eqb_neq in Hne.
  exists eles. split; [reflexivity|]. split; [|split; [|exact Hd]].
  - destruct c as [|l|l]; simpl in *; try discriminate;
      injection Heles as <-; now rewrite length_map.
  - intros ->. now apply Hne.
Qed.

Lemma CreateTreeRecursive_returns (self : DecisionTree) (sig : list bool)
    (T : list Row) :
  built self sig T -> sig <> [] ->
  forall fuel ds aDepth depth,
  length ds <= fuel -> ds <> [] -> incl ds T ->
  returns (CreateTreeRecursive fuel self ds aDepth depth).
Proof.
  intros Hbuilt Hsig.
  assert (Hq := built_questions self sig T Hbuilt).
  assert (Hbuilt' := Hbuilt).
  destruct Hbuilt' as (HT & Huni & Hnames & Hglobal & _).
  destruct (global_facts sig T _ HT Huni Hglobal) as (Hagree & _ & Hcols).
  assert (Hw : 0 < length sig) by (destruct sig; [contradiction|simpl; lia]).
  induction fuel as [|fuel IH]; intros ds aDepth depth Hfuel Hne Hincl.
  { destruct ds; [contradiction|simpl in Hfuel; lia]. }
  assert (Huds := uniform_incl sig T ds Huni Hincl).
  destruct (GetChildPossibleValues_spec sig _ ds Hne Huds Hagree)
    as (uv & Hchild & Hlen & Hlocal).
  assert (Hchild0 := Hchild). rewrite <- Hnames, <- Hq in Hchild0.
  cbn [CreateTreeRecursive]. rewrite Hchild0. cbn [bind].
  assert (Hcand : forall a, a < length sig ->
            exists c, nth_error uv a = Some c /\ candidates_ok c = true).
  { intros a Ha. destruct (nth_error sig a) as [b|] eqn:Hb.
    2:{ apply nth_error_None in Hb. lia. }
    eexists. split; [apply (Hlocal a _ (Hcols a b Hb))|].
    apply (local_candidates_ok sig T ds a b Huni Hne Hincl Hb). }
  assert (Hlens : forall a, a < length uv ->
            exists c m, nth_error uv a = Some c /\ py_len c = Ok m).
  { intros a Ha. rewrite Hlen in Ha. destruct (Hcand a Ha) as (c & Hc & Hok).
    destruct (candidates_ok_inv c Hok) as (eles & _ & Hl & _).
    now exists c, (length eles). }
  destruct (Hlens (length uv - 1) ltac:(lia)) as (lastc & n & Hlast & Hn).
  destruct (CanSplit_never_walks ds uv (GlobalUniqueValues self)) as [_ Hcan].
  rewrite (Hcan lastc n) by
    (auto; rewrite (kinds_agree_length sig _ Hagree); now symmetry).
  cbn [bind].
  unfold uniform in Huds. rewrite Forall_forall in Huds.
  destruct (negb (n =? 1) && existsb (qualifies uv) (seq 0 (length uv - 1)))
    eqn:Hsplit; cbn [negb].
  2:{ unfold mkLeafNode, CalculateCounts.
      destruct (CalculateCounts_from_returns ds) with (counts := @nil (value * nat))
        as (counts & Hcounts).
      { intros row Hrow Hnil. specialize (Huds row Hrow). subst row.
        unfold kinds in Huds. simpl in Huds. now subst sig. }
      rewrite Hcounts. eexists; reflexivity. }
  apply andb_true_iff in Hsplit. destruct Hsplit as [_ Hex].
  apply existsb_exists in Hex. destruct Hex as (a0 & Ha0 & Hqa0).
  apply in_seq in Ha0. rewrite Hlen in Ha0.
  destruct ds as [|row0 rest] eqn:Hds; [contradiction|]. rewrite <- Hds in *.
  assert (Hrow0 : In row0 ds) by (rewrite Hds; now left).
  assert (Hwidth : Forall (fun row => length row = length sig) ds).
  { apply Forall_forall. intros row Hrow. apply kinds_length, Huds, Hrow. }
  assert (Hcand' : forall a, a < length sig - 1 ->
            exists c, nth_error uv a = Some c /\ candidates_ok c = true).
  { intros a Ha. apply Hcand. lia. }
  destruct (FindBestSplit_loop_spec ds uv (length sig) Hne Hwidth Hcand'
              (length sig - 1) 0 2%Q (-1)%Z) as (g & best & Hrun & Hres); [lia|].
  unfold FindBestSplit. rewrite Hds at 1.
  change (py_index (row0 :: rest) 0) with (Ok row0). cbn [bind].
  rewrite (kinds_length sig row0 (Huds row0 Hrow0)), Hrun. cbn [bind].
  destruct Hres as [(_ & _ & Hall)|(b & -> & Hb & Hqb & _)].
  { exfalso.
    destruct (attribute_Gini ds uv (length sig) Hne Hwidth Hcand' a0)
      as (c & m & ga & _ & _ & _ & Hga & Hbound); [lia|].
    assert (H2 : (2 <= ga)%Q) by (apply Hall with a0; auto; lia).
    lra. }
  destruct (Hcand b ltac:(lia)) as (c & Hc & Hok).
  destruct (candidates_ok_inv c Hok) as (eles & Heles & Hl & _).
  assert (Hmake : MakeQuestions uv (Z.of_nat b)
                  = Ok (map (fun att => mkQuestion (Z.of_nat b) (OVal att)) eles)).
  { unfold MakeQuestions. rewrite py_index_nat, Hc. cbn [bind].
    now rewrite Heles. }
  rewrite Hmake. cbn [bind].
  set (qs := map (fun att => mkQuestion (Z.of_nat b) (OVal att)) eles) in *.
  assert (Hmany : 2 <= length qs).
  { unfold qs. rewrite length_map. unfold qualifies in Hqb.
    rewrite Hc, Hl in Hqb. apply Nat.ltb_lt in Hqb. lia. }
  destruct (split_step self sig T ds uv (Z.of_nat b) qs Hbuilt Hne Hincl
              Hchild0 Hmake) as (Hsets & Hidx).
  rewrite Hsets. cbn [bind].
  destruct (build_branches_returns
              (fun rows d => CreateTreeRecursive fuel self rows (S aDepth) d)
              (map (fun i => Some (idx_rows qs i ds)) (seq 0 (length qs))))
    with (depth := if depth <? aDepth then aDepth else depth)
    as ([branches depth2] & Hbranches).
  { intros grp Hgrp. apply in_map_iff in Hgrp. destruct Hgrp as (i & <- & Hi).
    apply in_seq in Hi. eexists. split; [reflexivity|].
    intros d. apply IH.
    - assert (Hk : exists k, k < length qs /\ i <> k).
      { destruct i; [exists 1|exists 0]; split; lia. }
      destruct Hk as (k & Hk & Hik).
      pose proof (idx_rows_disjoint qs i k ds Hik) as Hdis.
      assert (Hknon := Hidx k Hk).
      destruct (idx_rows qs k ds); [contradiction|]. simpl in Hdis. lia.
    - apply Hidx. lia.
    - intros row Hrow. apply Hincl. unfold idx_rows in Hrow.
      apply filter_In in Hrow. tauto. }
  rewrite Hbranches. cbn [bind]. eexists; reflexivity.
Qed.

(** [CreateTree] on a fresh tree returns a tree with a root, for training
    rows of uniform kinds that have a label, when the recursion limit is the
    number of rows. *)
Theorem CreateTree_returns (names : list string) (sig : list bool) (T : list Row) :
  T <> [] -> sig <> [] -> uniform sig T -> length names = length sig ->
  exists tree root,
    CreateTree (length T) (newDecisionTree names T) = Ok tree
    /\ Root tree = Some root.
Proof.
  intros HT Hsig Huni Hnames.
  destruct (GetPossibleValues_spec sig T HT Huni) as (guv & Hguv & _ & _).
  destruct (global_facts sig T guv HT Huni Hguv) as (_ & Hnonempty & _).
  unfold CreateTree, newDecisionTree.
  cbn [AttributeNames TrainingData GlobalQuestions Root Depth].
  rewrite Hnames, Hguv. cbn [bind].
  change (GetQuestions_from [] 0 guv) with (GetQuestions guv).
  rewrite (GetQuestions_spec guv Hnonempty). cbn [bind].
  set (self1 := mkDecisionTree T None names 0 guv (questions_from 0 guv)).
  assert (Hbuilt : built self1 sig T).
  { repeat split; auto. apply GetQuestions_spec, Hnonempty. }
  destruct (CreateTreeRecursive_returns self1 sig T Hbuilt Hsig (length T) T 0 0)
    as ([root depth] & Hrun); auto using incl_refl.
  rewrite Hrun. cbn [bind]. eexists. exists root. split; reflexivity.
Qed.

(** ** No group is left empty *)

Lemma invoked_rows (self : DecisionTree) (sig : list bool) (T : list Row)
    (grp : option (list Row)) :
  built self sig T -> invoked self T grp ->
  exists rows, grp = Some rows /\ rows <> [] /\ incl rows T.
Proof.
  intros Hbuilt Hinv. induction Hinv as [|ds uv g a qs groups grp Hds IH Hchild _ _ Hmake Hsplit Hgrp].
  - exists T. split; [reflexivity|]. split; [apply Hbuilt|apply incl_refl].
  - destruct IH as (rows & Hrows & Hne & Hincl). injection Hrows as <-.
    destruct (split_step self sig T ds uv a qs Hbuilt Hne Hincl Hchild Hmake)
      as (Hsplit' & Hidx).
    rewrite Hsplit in Hsplit'. injection Hsplit' as ->.
    apply in_map_iff in Hgrp. destruct Hgrp as (i & <- & Hi).
    apply in_seq in Hi.
    exists (idx_rows qs i ds). split; [reflexivity|].
    split; [apply Hidx; lia|].
    intros row Hrow. apply Hincl. unfold idx_rows in Hrow.
    apply filter_In in Hrow. tauto.
Qed.

(** C10: during the build on training rows of uniform kinds (one length,
    one type per column), every argument of [CreateTreeRecursive] is a
    non-empty list of rows, never [None]; at every invocation, whatever
    attribute the questions are made for, every question receives the rows
    of which it is the first match, at least one; and, the rows having a
    label, every invocation returns a node when the recursion limit is not
    below the number of its rows. *)
Theorem build_groups_nonempty (self : DecisionTree) (sig : list bool) (T : list Row) :
  built self sig T ->
  (forall grp, invoked self T grp -> exists rows, grp = Some rows /\ rows <> [])
  /\ (forall ds uv a qs,
        invoked self T (Some ds) ->
        GetChildPossibleValues (length (AttributeNames self))
          (GlobalQuestions self) ds = Ok uv ->
        MakeQuestions uv a = Ok qs ->
        SplitSets qs ds
        = Ok (map (fun i => Some (idx_rows qs i ds)) (seq 0 (length qs)))
        /\ forall i, i < length qs -> idx_rows qs i ds <> [])
  /\ (sig <> [] ->
      forall ds fuel aDepth depth,
        invoked self T (Some ds) -> length ds <= fuel ->
        returns (CreateTreeRecursive fuel self ds aDepth depth)).
Proof.
  intros Hbuilt. split; [|split].
  - intros grp Hinv.
    destruct (invoked_rows self sig T grp Hbuilt Hinv) as (rows & H1 & H2 & _).
    now exists rows.
  - intros ds uv a qs Hinv Hchild Hmake.
    destruct (invoked_rows self sig T _ Hbuilt Hinv) as (rows & H1 & H2 & H3).
    injection H1 as <-.
    now apply (split_step self sig T ds uv a qs).
  - intros Hsig ds fuel aDepth depth Hinv Hfuel.
    destruct (invoked_rows self sig T _ Hbuilt Hinv) as (rows & H1 & H2 & H3).
    injection H1 as <-.
    now apply (CreateTreeRecursive_returns self sig T).
Qed.

Lemma build_groups_nonempty_witness :
  let T := [[VFloat 1; VStr "Yes"]; [VFloat 2; VStr "No"];
            [VFloat 3; VStr "Yes"]; [VFloat 4; VStr "No"];
            [VFloat 5; VStr "No"]; [VFloat 5; VStr "Yes"]] in
  let guv := [CList [1%Q; 3%Q; 5%Q]; CSet ["Yes"; "No"]%string] in
  let self := mkDecisionTree T None ["Size"; "Label"]%string 0 guv
                (questions_from 0 guv) in
  let qs := [mkQuestion 0 (OVal (VFloat 1)); mkQuestion 0 (OVal (VFloat 3));
             mkQuestion 0 (OVal (VFloat 5))] in
  SplitSets qs T
  = Ok [Some [[VFloat 1; VStr "Yes"]];
        Some [[VFloat 2; VStr "No"]; [VFloat 3; VStr "Yes"]];
        Some [[VFloat 4; VStr "No"]; [VFloat 5; VStr "No"];
              [VFloat 5; VStr "Yes"]]].
Proof.
  intros T guv self qs.
  assert (Hbuilt : built self [true; false] T).
  { repeat split; try reflexivity; try discriminate. repeat constructor. }
  destruct (build_groups_nonempty self [true; false] T Hbuilt) as (_ & Hstep & _).
  destruct (Hstep T guv 0%Z qs (invoked_root self T) eq_refl eq_refl) as [Hrun _].
  rewrite Hrun. reflexivity.
Defined.

(** * The rest of the code *)

(** ** The counters of the evaluator *)

Lemma wasFalse_not_wasTrue (answer : value) :
  wasFalse answer = true -> wasTrue answer = false.
Proof.
  unfold wasFalse, wasTrue, val_eqb. destruct answer as [x|s]; cbn [py_eq Yes No].
  - rewrite !orb_false_l. intros H. apply Qeq_bool_iff in H.
    destruct (Qeq_bool x 1) eqn:H1; [|reflexivity].
    apply Qeq_bool_iff in H1. rewrite H in H1. discriminate.
  - rewrite !orb_false_r. intros H. apply String.eqb_eq in H. now subst.
Qed.

Lemma tally_step (c : Counters) (counts : dict) (answer : value) :
  let c' := tally c counts answer in
  let p := if wasTrue answer then 1 else 0 in
  c_total c' = S (c_total c)
  /\ c_P c' = c_P c + p
  /\ c_N c' = c_N c + (1 - p)
  /\ c_TP c <= c_TP c' /\ c_FN c <= c_FN c'
  /\ c_TN c <= c_TN c' /\ c_FP c <= c_FP c'
  /\ c_TP c' + c_FN c' <= c_TP c + c_FN c + p
  /\ c_TN c' + c_FP c' <= c_TN c + c_FP c + (1 - p).
Proof.
  unfold tally.
  destruct (wasFalse answer) eqn:HwF.
  - rewrite (wasFalse_not_wasTrue answer HwF).
    destruct (guessedTrue counts), (guessedFalse counts); simpl; lia.
  - destruct (wasTrue answer), (guessedTrue counts), (guessedFalse counts);
      simpl; lia.
Qed.

Lemma tally_rows_counters (root : node) (rows : list Row) :
  forall c c',
  tally_rows root c rows = Ok c' ->
  c_total c' = c_total c + length rows
  /\ c_P c' = c_P c + length (filter positive rows)
  /\ c_N c' = c_N c + length (filter (fun row => negb (positive row)) rows)
  /\ c_TP c <= c_TP c' /\ c_FN c <= c_FN c'
  /\ c_TN c <= c_TN c' /\ c_FP c <= c_FP c'
  /\ c_TP c' + c_FN c' + c_P c <= c_TP c + c_FN c + c_P c'
  /\ c_TN c' + c_FP c' + c_N c <= c_TN c + c_FP c + c_N c'.
Proof.
  induction rows as [|row rows IH]; intros c c' H.
  - simpl in H. injection H as <-. simpl. lia.
  - cbn [tally_rows] in H.
    apply bind_Ok in H. destruct H as (counts & Hcounts & H).
    apply bind_Ok in H. destruct H as (answer & Hanswer & H).
    apply IH in H.
    pose proof (tally_step c counts answer) as Hstep. cbv zeta in Hstep.
    assert (Hpos : positive row = wasTrue answer).
    { unfold positive, label_of. now rewrite Hanswer. }
    cbn [filter length]. rewrite Hpos.
    destruct (wasTrue answer); cbn [negb length]; lia.
Qed.

(** Over the rows it evaluates, [DecisionTree.Decide] counts every row in
    [Total], the rows labelled ["Yes"] or [1] in [P] and all the others in
    [N], whatever their label; true positives and false negatives are rows
    of [P], true negatives and false positives rows of [N]. *)
Theorem Decide_counters (root : node) (rows : list Row) (r : Results) :
  DecisionTree_Decide root rows = Ok r ->
  Total r = length rows
  /\ P r = length (filter positive rows)
  /\ N r = length (filter (fun row => negb (positive row)) rows)
  /\ P r + N r = Total r
  /\ TP r + FN r <= P r
  /\ TN r + FP r <= N r.
Proof.
  unfold DecisionTree_Decide. intros H.
  apply bind_Ok in H. destruct H as (c & Hc & H).
  apply bind_Ok in H. destruct H as ([[acc prec] rec] & _ & H).
  injection H as <-. cbn [Total P N TP FN TN FP].
  apply tally_rows_counters in Hc. cbn [c_total c_P c_N c_TP c_FN c_TN c_FP] in Hc.
  pose proof (filter_length positive rows) as Hlen. lia.
Qed.

Lemma Decide_counters_witness :
  let rows := [[VStr "Yes"]; [VStr "Maybe"]; [VStr "No"]] in
  exists r, DecisionTree_Decide (LeafNode [(Yes, 5)] 0) rows = Ok r
            /\ P r = 1 /\ N r = 2.
Proof.
  intros rows. eexists. split; [reflexivity|].
  destruct (Decide_counters (LeafNode [(Yes, 5)] 0) rows _ eq_refl)
    as (_ & HP & HN & _).
  split; [exact HP|exact HN].
Defined.

Lemma percent_range (a b : nat) :
  a <= b -> 0 < b -> (0 <= Qnat a / Qnat b * 100 <= 100)%Q.
Proof.
  intros Hab Hb.
  assert (HB : (0 < Qnat b)%Q) by now apply Qnat_pos.
  assert (Hlo : (0 <= Qnat a / Qnat b)%Q).
  { apply Qle_shift_div_l; [exact HB|]. rewrite Qmult_0_l. apply Qnat_nonneg. }
  assert (Hhi : (Qnat a / Qnat b <= 1)%Q).
  { apply Qle_shift_div_r; [exact HB|]. rewrite Qmult_1_l. now apply Qnat_le. }
  split; lra.
Qed.

(** Each metric that [DecisionTree.Decide] returns is the sentinel [-1]
    exactly when its denominator is zero (accuracy: no row was evaluated;
    precision: no row counted as a positive guess; recall: no positive row)
    and a percentage between 0 and 100 otherwise, so the sentinel cannot be
    mistaken for a value. *)
Theorem Decide_metrics_range (root : node) (rows : list Row) (r : Results) :
  DecisionTree_Decide root rows = Ok r ->
  (rows = [] -> Accuracy r = (-1)%Q)
  /\ (rows <> [] -> (0 <= Accuracy r <= 100)%Q)
  /\ (TP r + FP r = 0 -> Precision r = (-1)%Q)
  /\ (0 < TP r + FP r -> (0 <= Precision r <= 100)%Q)
  /\ (P r = 0 -> Recall r = (-1)%Q)
  /\ (0 < P r -> (0 <= Recall r <= 100)%Q).
Proof.
  unfold DecisionTree_Decide. intros H.
  apply bind_Ok in H. destruct H as (c & Hc & H).
  apply bind_Ok in H. destruct H as ([[acc prec] rec] & Hm & H).
  injection H as <-. cbn [Accuracy Precision Recall TP FP P].
  apply tally_rows_counters in Hc. cbn [c_total c_P c_N c_TP c_FN c_TN c_FP] in Hc.
  pose proof (filter_length positive rows) as Hlen.
  unfold metrics, py_truediv in Hm.
  destruct (Nat.eqb_spec (c_P c + c_N c) 0) as [Ha|Ha];
    destruct (Nat.eqb_spec (c_TP c + c_FP c) 0) as [Hp|Hp];
    destruct (Nat.eqb_spec (c_P c) 0) as [Hr|Hr];
    cbn [negb bind] in Hm; injection Hm as <- <- <-;
    repeat split; try reflexivity; try lia; intros;
    try (apply percent_range; lia);
    try (destruct rows; [contradiction|simpl in *; lia]);
    try (subst rows; simpl in *; lia).
Qed.

Lemma Decide_metrics_range_witness :
  let rows := [[VStr "Yes"]; [VStr "Yes"]; [VStr "No"]] in
  exists r, DecisionTree_Decide (LeafNode [(Yes, 5)] 0) rows = Ok r
            /\ (0 <= Accuracy r <= 100)%Q.
Proof.
  intros rows. eexists. split; [reflexivity|].
  destruct (Decide_metrics_range (LeafNode [(Yes, 5)] 0) rows _ eq_refl)
    as (_ & Hacc & _).
  apply Hacc. discriminate.
Defined.

(** ** LeafNode.CalculateCounts *)

Lemma dict_total_incr (d : dict) (k : value) :
  dict_total (dict_incr d k) = S (dict_total d).
Proof.
  induction d as [|[k' n] d IH]; simpl; [reflexivity|].
  destruct (val_eqb k k'); simpl; [reflexivity|]. rewrite IH. lia.
Qed.

Lemma dict_incr_keys (d : dict) (k : value) :
  map fst (dict_incr d k) =
  if existsb (val_eqb k) (map fst d) then map fst d else map fst d ++ [k].
Proof.
  induction d as [|[k' n] d IH]; simpl; [reflexivity|].
  destruct (val_eqb k k'); simpl; [reflexivity|].
  rewrite IH. now destruct (existsb (val_eqb k) (map fst d)).
Qed.

Lemma distinctb_snoc (l : list value) (k : value) :
  distinctb l = true -> existsb (val_eqb k) l = false ->
  distinctb (l ++ [k]) = true.
Proof.
  induction l as [|x l IH]; simpl; intros Hd Hk; [reflexivity|].
  apply andb_true_iff in Hd. destruct Hd as [Hx Hd].
  apply orb_false_iff in Hk. destruct Hk as [Hkx Hk].
  rewrite (IH Hd Hk), andb_true_r.
  rewrite existsb_app. simpl. rewrite orb_false_r.
  apply negb_true_iff in Hx. rewrite Hx. simpl.
  now rewrite val_eqb_sym, Hkx.
Qed.

Lemma dict_incr_distinct (d : dict) (k : value) :
  distinctb (map fst d) = true -> distinctb (map fst (dict_incr d k)) = true.
Proof.
  intros Hd. rewrite dict_incr_keys.
  destruct (existsb (val_eqb k) (map fst d)) eqn:Hk; [exact Hd|].
  now apply distinctb_snoc.
Qed.

Lemma val_eqb_congr (a b c : value) :
  val_eqb a b = true -> val_eqb c a = val_eqb c b.
Proof.
  intros Hab. destruct (val_eqb c a) eqn:Hca.
  - symmetry. now apply val_eqb_trans with a.
  - destruct (val_eqb c b) eqn:Hcb; [|reflexivity].
    rewrite <- Hca. apply val_eqb_trans with b; [exact Hcb|].
    now rewrite val_eqb_sym.
Qed.

Lemma dict_get_incr (d : dict) (k q : value) :
  dict_get (dict_incr d k) q =
  if val_eqb q k
  then Some (S (match dict_get d q with Some n => n | None => 0 end))
  else dict_get d q.
Proof.
  induction d as [|[k' n] d IH]; simpl.
  - now destruct (val_eqb q k).
  - destruct (val_eqb k k') eqn:Hkk'; simpl.
    + rewrite (val_eqb_congr k k' q Hkk').
      now destruct (val_eqb q k').
    + destruct (val_eqb q k') eqn:Hqk'.
      * destruct (val_eqb q k) eqn:Hqk; [|reflexivity].
        rewrite val_eqb_sym in Hqk.
        rewrite (val_eqb_trans k q k' Hqk Hqk') in Hkk'. discriminate.
      * exact IH.
Qed.

Lemma dict_incr_positive (d : dict) (k : value) :
  Forall (fun kv => 0 < snd kv) d -> Forall (fun kv => 0 < snd kv) (dict_incr d k).
Proof.
  induction d as [|[k' n] d IH]; simpl; intros H.
  - repeat constructor.
  - inversion H as [|? ? Hn Hd]; subst.
    destruct (val_eqb k k'); constructor; simpl in *; auto; lia.
Qed.

Lemma dict_get_positive (d : dict) (q : value) (n : nat) :
  Forall (fun kv => 0 < snd kv) d -> dict_get d q = Some n -> 0 < n.
Proof.
  induction d as [|[k' m] d IH]; simpl; intros H Hq; [discriminate|].
  inversion H as [|? ? Hm Hd]; subst.
  destruct (val_eqb q k'); [injection Hq as <-; exact Hm|now apply IH].
Qed.

Lemma CalculateCounts_from_spec (rows : list Row) :
  (forall row, In row rows -> row <> []) ->
  forall d,
  distinctb (map fst d) = true ->
  Forall (fun kv => 0 < snd kv) d ->
  exists counts,
    CalculateCounts_from d rows = Ok counts
    /\ distinctb (map fst counts) = true
    /\ Forall (fun kv => 0 < snd kv) counts
    /\ dict_total counts = dict_total d + length rows
    /\ forall q,
         match dict_get counts q with Some n => n | None => 0 end
         = match dict_get d q with Some n => n | None => 0 end
           + length (filter (has_label q) rows).
Proof.
  induction rows as [|row rows IH]; intros Hrows d Hd Hp.
  - exists d. simpl. repeat split; auto.
  - destruct (label_of_nonempty row (Hrows row (or_introl eq_refl))) as (l & Hl).
    cbn [CalculateCounts_from]. unfold label_of in Hl. rewrite Hl. cbn [bind].
    destruct (IH (fun r Hr => Hrows r (or_intror Hr)) (dict_incr d l)
                (dict_incr_distinct d l Hd) (dict_incr_positive d l Hp))
      as (counts & Hrun & Hdist & Hpos & Htot & Hget).
    exists counts. split; [exact Hrun|]. split; [exact Hdist|].
    split; [exact Hpos|].
    split; [rewrite Htot, dict_total_incr; simpl; lia|].
    intros q. rewrite Hget, dict_get_incr. cbn [filter].
    unfold has_label at 2. unfold label_of. rewrite Hl.
    rewrite (val_eqb_sym l q).
    destruct (val_eqb q l); cbn [length]; lia.
Qed.

(** On rows that all have a label, [CalculateCounts] returns a dict whose
    keys are pairwise different, whose values add up to the number of
    rows, and in which the value found under a label is the number of rows
    with an equal label (no entry when there is none). *)
Theorem CalculateCounts_counts (rows : list Row) :
  (forall row, In row rows -> row <> []) ->
  exists counts,
    CalculateCounts rows = Ok counts
    /\ distinctb (map fst counts) = true
    /\ dict_total counts = length rows
    /\ forall q,
         dict_get counts q =
         if length (filter (has_label q) rows) =? 0 then None
         else Some (length (filter (has_label q) rows)).
Proof.
  intros Hrows.
  destruct (CalculateCounts_from_spec rows Hrows [] eq_refl (Forall_nil _))
    as (counts & Hrun & Hdist & Hpos & Htot & Hget).
  exists counts. split; [exact Hrun|]. split; [exact Hdist|].
  split; [exact Htot|].
  intros q. specialize (Hget q). simpl in Hget.
  destruct (dict_get counts q) as [n|] eqn:Hq.
  - assert (Hn := dict_get_positive counts q n Hpos Hq).
    rewrite <- Hget. destruct (Nat.eqb_spec n 0); [lia|reflexivity].
  - rewrite <- Hget. reflexivity.
Qed.

Lemma CalculateCounts_counts_witness :
  exists counts,
    CalculateCounts [[VFloat 1; VStr "Yes"]; [VStr "No"]; [VStr "Yes"]] = Ok counts
    /\ dict_get counts Yes = Some 2.
Proof.
  destruct (CalculateCounts_counts
              [[VFloat 1; VStr "Yes"]; [VStr "No"]; [VStr "Yes"]])
    as (counts & Hrun & _ & _ & Hget).
  - intros row [<-|[<-|[<-|[]]]]; discriminate.
  - exists counts. split; [exact Hrun|]. rewrite Hget. reflexivity.
Defined.

Lemma CalculateCounts_from_empty_row (rows : list Row) :
  In [] rows -> forall d, CalculateCounts_from d rows = Raise IndexError.
Proof.
  induction rows as [|row rows IH]; intros Hin d; [contradiction|].
  cbn [CalculateCounts_from].
  destruct row as [|v row].
  - reflexivity.
  - destruct Hin as [Hin|Hin]; [discriminate|].
    destruct (label_of_nonempty (v :: row)) as (l & Hl); [discriminate|].
    unfold label_of in Hl. rewrite Hl. cbn [bind]. now apply IH.
Qed.

(** [CalculateCounts], hence the construction of a leaf, raises
    [IndexError] when one of its rows is empty, and returns otherwise. *)
Theorem CalculateCounts_empty_row (rows : list Row) :
  (In [] rows -> CalculateCounts rows = Raise IndexError
                 /\ forall d, mkLeafNode rows d = Raise IndexError)
  /\ (~ In [] rows -> returns (CalculateCounts rows)).
Proof.
  split.
  - intros Hin. unfold mkLeafNode, CalculateCounts.
    rewrite (CalculateCounts_from_empty_row rows Hin []). split; reflexivity.
  - intros Hnot. apply CalculateCounts_from_returns.
    intros row Hrow ->. contradiction.
Qed.

Lemma CalculateCounts_empty_row_witness :
  CalculateCounts [[VStr "Yes"]; []] = Raise IndexError.
Proof.
  destruct (CalculateCounts_empty_row [[VStr "Yes"]; []]) as [Hraise _].
  apply Hraise. right. now left.
Defined.

(** ** The tree that the builder returns *)

Lemma split_total (self : DecisionTree) (sig : list bool) (T ds : list Row)
    (uv : list container) (a : Z) (qs : list Question) :
  built self sig T -> ds <> [] -> incl ds T ->
  GetChildPossibleValues (length (AttributeNames self)) (GlobalQuestions self) ds
    = Ok uv ->
  MakeQuestions uv a = Ok qs ->
  forall row, In row ds ->
  exists i q, first_match qs 0 row = Ok (Some (i, q)) /\ i < length qs.
Proof.
  intros Hbuilt Hne Hincl Hchild Hmake.
  assert (Hq := built_questions self sig T Hbuilt).
  destruct Hbuilt as (HT & Huni & Hnames & Hglobal & _).
  destruct (global_facts sig T _ HT Huni Hglobal) as (Hagree & _ & Hcols).
  assert (Huds := uniform_incl sig T ds Huni Hincl).
  destruct (GetChildPossibleValues_spec sig _ ds Hne Huds Hagree)
    as (uv' & Hchild' & Hlen & Hlocal).
  rewrite Hnames, Hq, Hchild' in Hchild. injection Hchild as ->.
  unfold MakeQuestions in Hmake.
  apply bind_Ok in Hmake. destruct Hmake as (c & Hc & Hmake).
  apply bind_Ok in Hmake. destruct Hmake as (atts & Hatts & Hmake).
  injection Hmake as <-.
  destruct (py_index_norm uv a c Hc) as (j & Hj & Hnorm).
  assert (Hjl : j < length sig).
  { rewrite <- Hlen. apply nth_error_Some. congruence. }
  destruct (nth_error sig j) as [b|] eqn:Hb.
  2:{ apply nth_error_None in Hb. lia. }
  rewrite (Hlocal j _ (Hcols j b Hb)) in Hj. injection Hj as <-.
  unfold uniform in Huds. rewrite Forall_forall in Huds.
  intros row Hrow.
  assert (Hidx : py_index row a =
            match nth_error row j with Some v => Ok v | None => Raise IndexError end).
  { apply Hnorm. rewrite Hlen. now apply kinds_length, Huds. }
  destruct b; cbn [local_candidates py_iter] in Hatts; injection Hatts as <-;
    rewrite map_map, length_map.
  - destruct (kinds_float sig row j (Huds row Hrow) Hb) as (x & Hx).
    rewrite Hx in Hidx.
    assert (Hxs : In x (col_floats j ds)) by (apply In_col_floats; eauto).
    destruct (xs_covered T ds j Hincl x Hxs) as (y & _ & _ & Hfind).
    destruct (find_from_of_find _ _ y 0 Hfind) as (i & Hi).
    rewrite (first_match_floats a row x _ Hidx 0).
    change (sort (dedupe (matched_floats
                            (thresholds (sort (dedupe (col_floats j T))))
                            (col_floats j ds))))
      with (local_thresholds j T ds).
    rewrite Hi. simpl. do 2 eexists. split; [reflexivity|].
    destruct (find_from_spec _ _ _ _ _ Hi) as (_ & Hnth & _).
    rewrite Nat.sub_0_r in Hnth. apply nth_error_Some. congruence.
  - destruct (kinds_str sig row j (Huds row Hrow) Hb) as (t & Ht).
    rewrite Ht in Hidx.
    assert (Hts : In t (col_strs j ds)) by (apply In_col_strs; eauto).
    assert (Htl := proj2 (strs_local T ds j Hincl t) Hts).
    destruct (find_from_of_find _ _ t 0 (find_eqb_In t _ Htl)) as (i & Hi).
    rewrite (first_match_strs a row t _ Hidx 0).
    change (str_set (matched_strs (str_set (col_strs j T)) (col_strs j ds)))
      with (local_strs j T ds).
    rewrite Hi. simpl. do 2 eexists. split; [reflexivity|].
    destruct (find_from_spec _ _ _ _ _ Hi) as (_ & Hnth & _).
    rewrite Nat.sub_0_r in Hnth. apply nth_error_Some. congruence.
Qed.

Lemma build_branches_chain (recurse : list Row -> nat -> result (node * nat))
    (groups : list (list Row)) :
  forall depth branches depth',
  build_branches recurse (map Some groups) depth = Ok (branches, depth') ->
  chain recurse groups depth branches depth'.
Proof.
  induction groups as [|g groups IH]; intros depth branches depth' H.
  - simpl in H. injection H as <- <-. constructor.
  - cbn [map build_branches] in H.
    apply bind_Ok in H. destruct H as ([b d1] & Hb & H). cbn beta iota in H.
    apply bind_Ok in H. destruct H as ([bs d2] & Hbs & H). cbn beta iota in H.
    injection H as <- <-.
    econstructor; [exact Hb|]. now apply IH.
Qed.

Lemma CreateTreeRecursive_inv (self : DecisionTree) (sig : list bool)
    (T : list Row) :
  built self sig T ->
  forall fuel ds aDepth depth tree depth',
  ds <> [] -> incl ds T ->
  CreateTreeRecursive (S fuel) self ds aDepth depth = Ok (tree, depth') ->
  (exists counts,
      CalculateCounts ds = Ok counts
      /\ tree = LeafNode counts aDepth /\ depth' = depth)
  \/ (exists qs branches,
        2 <= length qs
        /\ (forall row, In row ds ->
              exists i q, first_match qs 0 row = Ok (Some (i, q))
                          /\ i < length qs)
        /\ (forall i, i < length qs -> idx_rows qs i ds <> [])
        /\ chain (fun rows d => CreateTreeRecursive fuel self rows (S aDepth) d)
             (map (fun i => idx_rows qs i ds) (seq 0 (length qs)))
             (if depth <? aDepth then aDepth else depth) branches depth'
        /\ tree = DecisionNode qs branches aDepth
        /\ exists b kind,
             b < length sig - 1
             /\ nth_error sig b = Some kind
             /\ qs = map (fun att => mkQuestion (Z.of_nat b) (OVal att))
                      (if kind then map VFloat (local_thresholds b T ds)
                       else map VStr (local_strs b T ds))).
Proof.
  intros Hbuilt fuel ds aDepth depth tree depth' Hne Hincl Hrun.
  assert (Hq := built_questions self sig T Hbuilt).
  assert (Hbuilt' := Hbuilt).
  destruct Hbuilt' as (HT & Huni & Hnames & Hglobal & _).
  destruct (global_facts sig T _ HT Huni Hglobal) as (Hagree & _ & Hcols).
  assert (Huds := uniform_incl sig T ds Huni Hincl).
  destruct (GetChildPossibleValues_spec sig _ ds Hne Huds Hagree)
    as (uv & Hchild & Hlen & Hlocal).
  assert (Hchild0 := Hchild). rewrite <- Hnames, <- Hq in Hchild0.
  cbn [CreateTreeRecursive] in Hrun. rewrite Hchild0 in Hrun. cbn [bind] in Hrun.
  apply bind_Ok in Hrun. destruct Hrun as (can & Hcan & Hrun).
  destruct can; cbn [negb] in Hrun.
  2:{ left. unfold mkLeafNode in Hrun.
      apply bind_Ok in Hrun. destruct Hrun as (leaf & Hleaf & Hrun).
      apply bind_Ok in Hleaf. destruct Hleaf as (counts & Hcounts & Hleaf).
      injection Hleaf as <-. injection Hrun as <- <-.
      exists counts. auto. }
  right.
  assert (Hw : 0 < length sig).
  { destruct (length sig) eqn:Hz; [|lia].
    destruct uv; [|discriminate]. discriminate Hcan. }
  assert (Hcand : forall a, a < length sig ->
            exists c, nth_error uv a = Some c /\ candidates_ok c = true).
  { intros a Ha. destruct (nth_error sig a) as [b|] eqn:Hb.
    2:{ apply nth_error_None in Hb. lia. }
    eexists. split; [apply (Hlocal a _ (Hcols a b Hb))|].
    apply (local_candidates_ok sig T ds a b Huni Hne Hincl Hb). }
  assert (Hlens : forall a, a < length uv ->
            exists c m, nth_error uv a = Some c /\ py_len c = Ok m).
  { intros a Ha. rewrite Hlen in Ha. destruct (Hcand a Ha) as (c & Hc & Hok).
    destruct (candidates_ok_inv c Hok) as (eles & _ & Hl & _).
    now exists c, (length eles). }
  destruct (Hlens (length uv - 1) ltac:(lia)) as (lastc & n & Hlast & Hn).
  destruct (CanSplit_never_walks ds uv (GlobalUniqueValues self)) as [_ Hcount].
  rewrite (Hcount lastc n) in Hcan by
    (auto; rewrite (kinds_agree_length sig _ Hagree); now symmetry).
  injection Hcan as Hcan.
  apply andb_true_iff in Hcan. destruct Hcan as [_ Hex].
  apply existsb_exists in Hex. destruct Hex as (a0 & Ha0 & Hqa0).
  apply in_seq in Ha0. rewrite Hlen in Ha0.
  unfold uniform in Huds. rewrite Forall_forall in Huds.
  destruct ds as [|row0 rest] eqn:Hds; [contradiction|]. rewrite <- Hds in *.
  assert (Hrow0 : In row0 ds) by (rewrite Hds; now left).
  assert (Hwidth : Forall (fun row => length row = length sig) ds).
  { apply Forall_forall. intros row Hrow. apply kinds_length, Huds, Hrow. }
  assert (Hcand' : forall a, a < length sig - 1 ->
            exists c, nth_error uv a = Some c /\ candidates_ok c = true).
  { intros a Ha. apply Hcand. lia. }
  destruct (FindBestSplit_loop_spec ds uv (length sig) Hne Hwidth Hcand'
              (length sig - 1) 0 2%Q (-1)%Z) as (g & best & Hbest & Hres); [lia|].
  unfold FindBestSplit in Hrun. rewrite Hds in Hrun at 1.
  change (py_index (row0 :: rest) 0) with (Ok row0) in Hrun. cbn [bind] in Hrun.
  rewrite (kinds_length sig row0 (Huds row0 Hrow0)), Hbest in Hrun.
  cbn [bind] in Hrun.
  destruct Hres as [(_ & _ & Hall)|(b & -> & Hb & Hqb & _)].
  { exfalso.
    destruct (attribute_Gini ds uv (length sig) Hne Hwidth Hcand' a0)
      as (c & m & ga & _ & _ & _ & Hga & Hbound); [lia|].
    assert (H2 : (2 <= ga)%Q) by (apply Hall with a0; auto; lia).
    lra. }
  apply bind_Ok in Hrun. destruct Hrun as (qs & Hmake & Hrun).
  apply bind_Ok in Hrun. destruct Hrun as (sets & Hsets & Hrun).
  apply bind_Ok in Hrun. destruct Hrun as ([branches depth2] & Hbranches & Hrun).
  cbn beta iota in Hrun. injection Hrun as <- <-.
  destruct (split_step self sig T ds uv (Z.of_nat b) qs Hbuilt Hne Hincl
              Hchild0 Hmake) as (Hsets' & Hidx).
  rewrite Hsets in Hsets'. injection Hsets' as ->.
  exists qs, branches.
  split.
  { destruct (Hcand b ltac:(lia)) as (c & Hc & Hok).
    destruct (candidates_ok_inv c Hok) as (eles & Heles & Hl & _).
    unfold MakeQuestions in Hmake. rewrite py_index_nat, Hc in Hmake.
    cbn [bind] in Hmake. rewrite Heles in Hmake. cbn [bind] in Hmake.
    injection Hmake as <-. rewrite length_map.
    unfold qualifies in Hqb. rewrite Hc, Hl in Hqb.
    apply Nat.ltb_lt in Hqb. lia. }
  split; [apply (split_total self sig T ds uv (Z.of_nat b) qs); auto|].
  split; [exact Hidx|].
  split; [apply build_branches_chain; rewrite map_map; exact Hbranches|].
  split; [reflexivity|].
  destruct (nth_error sig b) as [kind|] eqn:Hkind.
  2:{ apply nth_error_None in Hkind. lia. }
  exists b, kind.
  unfold MakeQuestions in Hmake.
  rewrite py_index_nat, (Hlocal b _ (Hcols b kind Hkind)) in Hmake.
  cbn [bind] in Hmake.
  destruct kind; cbn [local_candidates py_iter bind] in Hmake;
    injection Hmake as <-; (split; [lia|]); (split; [exact Hkind|]);
    reflexivity.
Qed.

Lemma leaf_total_node (qs : list Question) (bs : list node) (d : nat) :
  leaf_total (DecisionNode qs bs d) = list_sum (map leaf_total bs).
Proof. simpl. induction bs as [|b bs IH]; simpl; [reflexivity|now rewrite IH]. Qed.

Lemma split_depth_node (qs : list Question) (bs : list node) (d : nat) :
  split_depth (DecisionNode qs bs d)
  = Nat.max d (fold_right (fun b acc => Nat.max (split_depth b) acc) 0 bs).
Proof.
  simpl. induction bs as [|b bs IH]; simpl; [lia|]. rewrite IH. lia.
Qed.

Lemma indicator_sum (i0 : nat) (n : nat) :
  forall k, k <= i0 < k + n ->
  list_sum (map (fun i => if i0 =? i then 1 else 0) (seq k n)) = 1.
Proof.
  induction n as [|n IH]; intros k Hk; [lia|]. simpl.
  destruct (Nat.eqb_spec i0 k) as [->|Hne].
  - assert (Hz : forall m j, k < j ->
              list_sum (map (fun i => if k =? i then 1 else 0) (seq j m)) = 0).
    { induction m as [|m IHm]; intros j Hj; simpl; [reflexivity|].
      destruct (Nat.eqb_spec k j); [lia|]. apply IHm. lia. }
    rewrite Hz by lia. reflexivity.
  - rewrite IH by lia. reflexivity.
Qed.

Lemma list_sum_map_add {A : Type} (f g : A -> nat) (l : list A) :
  list_sum (map (fun a => f a + g a) l) = list_sum (map f l) + list_sum (map g l).
Proof. induction l as [|a l IH]; simpl; [reflexivity|]. rewrite IH. lia. Qed.

Lemma idx_rows_partition (qs : list Question) (n : nat) (ds : list Row) :
  (forall row, In row ds ->
     exists i q, first_match qs 0 row = Ok (Some (i, q)) /\ i < n) ->
  list_sum (map (fun i => length (idx_rows qs i ds)) (seq 0 n)) = length ds.
Proof.
  induction ds as [|row ds IH]; intros Hrows.
  - unfold idx_rows. simpl. induction (seq 0 n); simpl; auto.
  - destruct (Hrows row (or_introl eq_refl)) as (i0 & q & Hfm & Hi0).
    assert (Heq : forall i, length (idx_rows qs i (row :: ds))
                            = (if i0 =? i then 1 else 0) + length (idx_rows qs i ds)).
    { intros i. unfold idx_rows. cbn [filter]. rewrite Hfm.
      destruct (i0 =? i); reflexivity. }
    rewrite (map_ext _ _ Heq), list_sum_map_add, indicator_sum by lia.
    rewrite IH by (intros r Hr; apply Hrows; now right). reflexivity.
Qed.

Lemma dict_get_has (d : dict) (k : value) (n : nat) :
  dict_get d k = Some n -> dict_has d k = true.
Proof.
  induction d as [|[k' m] d IH]; simpl; [discriminate|].
  destruct (val_eqb k k'); simpl; auto.
Qed.

Lemma CalculateCounts_Ok_rows (rows : list Row) (counts : dict) :
  CalculateCounts rows = Ok counts -> forall row, In row rows -> row <> [].
Proof.
  intros Hrun row Hrow ->. unfold CalculateCounts in Hrun.
  rewrite (CalculateCounts_from_empty_row rows Hrow []) in Hrun. discriminate.
Qed.

Lemma leaf_facts (ds : list Row) (counts : dict) :
  ds <> [] -> CalculateCounts ds = Ok counts ->
  counts <> []
  /\ dict_total counts = length ds
  /\ forall row lbl, In row ds -> label_of row = Ok lbl ->
       dict_has counts lbl = true.
Proof.
  intros Hne Hrun.
  destruct (CalculateCounts_from_spec ds (CalculateCounts_Ok_rows ds counts Hrun)
              [] eq_refl (Forall_nil _)) as (c & Hc & _ & _ & Htot & Hget).
  unfold CalculateCounts in Hrun. rewrite Hrun in Hc. injection Hc as <-.
  simpl in Htot, Hget. split; [|split; [exact Htot|]].
  - intros ->. simpl in Htot. destruct ds; [contradiction|discriminate].
  - intros row lbl Hrow Hlbl. specialize (Hget lbl).
    assert (Hpos : 0 < length (filter (has_label lbl) ds)).
    { assert (Hin : In row (filter (has_label lbl) ds)).
      { apply filter_In. split; [exact Hrow|].
        unfold has_label. rewrite Hlbl. apply val_eqb_refl. }
      destruct (filter (has_label lbl) ds); [contradiction|simpl; lia]. }
    destruct (dict_get counts lbl) as [n|] eqn:Hq; [|lia].
    now apply dict_get_has with n.
Qed.

Lemma Forall2_nth {A B : Type} (R : A -> B -> Prop) (l : list A) (l' : list B) :
  Forall2 R l l' ->
  forall i a b, nth_error l i = Some a -> nth_error l' i = Some b -> R a b.
Proof.
  induction 1 as [|x y l l' Hxy Hrest IH]; intros [|i] a b Ha Hb; simpl in *;
    try discriminate.
  - injection Ha as <-. injection Hb as <-. exact Hxy.
  - now apply IH with i.
Qed.

Lemma Forall2_In_r {A B : Type} (R : A -> B -> Prop) (l : list A) (l' : list B) :
  Forall2 R l l' -> forall b, In b l' -> exists a, In a l /\ R a b.
Proof.
  induction 1 as [|x y l l' Hxy Hrest IH]; intros b Hb; [contradiction|].
  destruct Hb as [<-|Hb].
  - exists x. split; [now left|exact Hxy].
  - destruct (IH b Hb) as (a & Ha & HR). exists a. split; [now right|exact HR].
Qed.

Lemma chain_facts (recurse : list Row -> nat -> result (node * nat))
    (Q : list Row -> node -> Prop) (groups : list (list Row)) :
  forall d bs d',
  chain recurse groups d bs d' ->
  (forall g d0 b d1, In g groups -> recurse g d0 = Ok (b, d1) ->
     Q g b /\ d1 = Nat.max d0 (split_depth b)) ->
  Forall2 Q groups bs
  /\ d' = Nat.max d (fold_right (fun b acc => Nat.max (split_depth b) acc) 0 bs).
Proof.
  induction 1 as [d|g gs d d1 d' b bs Hb Hchain IH]; intros Hrec.
  - split; [constructor|simpl; lia].
  - destruct (Hrec g d b d1 (or_introl eq_refl) Hb) as [HQ Hd1].
    destruct IH as [Hall Hd'].
    { intros g0 d0 b0 d2 Hg0. apply Hrec. now right. }
    split; [now constructor|]. simpl. lia.
Qed.

Lemma built_tree_facts (self : DecisionTree) (sig : list bool) (T : list Row) :
  built self sig T ->
  forall fuel ds aDepth depth tree depth',
  ds <> [] -> incl ds T ->
  CreateTreeRecursive fuel self ds aDepth depth = Ok (tree, depth') ->
  well_formed aDepth tree
  /\ leaf_total tree = length ds
  /\ (forall row lbl, In row ds -> label_of row = Ok lbl ->
        exists counts, Decide tree row = Ok counts
                       /\ dict_has counts lbl = true)
  /\ depth' = Nat.max depth (split_depth tree).
Proof.
  intros Hbuilt. induction fuel as [|fuel IH];
    intros ds aDepth depth tree depth' Hne Hincl Hrun; [discriminate|].
  destruct (CreateTreeRecursive_inv self sig T Hbuilt fuel ds aDepth depth tree
              depth' Hne Hincl Hrun)
    as [(counts & Hcounts & -> & ->)
       |(qs & bs & Hmany & Hfirst & Hidx & Hchain & -> & _)].
  - destruct (leaf_facts ds counts Hne Hcounts) as (Hnonempty & Htot & Hhas).
    split; [now constructor|]. split; [exact Htot|].
    split; [|simpl; lia].
    intros row lbl Hrow Hlbl. exists counts. split; [reflexivity|].
    now apply Hhas with row.
  - destruct (chain_facts _
                (fun g b =>
                   well_formed (S aDepth) b
                   /\ leaf_total b = length g
                   /\ forall row lbl, In row g -> label_of row = Ok lbl ->
                        exists counts, Decide b row = Ok counts
                                       /\ dict_has counts lbl = true)
                _ _ _ _ Hchain) as [Hall Hdepth].
    { intros g d0 b d1 Hg Hb.
      apply in_map_iff in Hg. destruct Hg as (i & <- & Hi). apply in_seq in Hi.
      destruct (IH (idx_rows qs i ds) (S aDepth) d0 b d1) as (H1 & H2 & H3 & H4);
        auto.
      - apply Hidx. lia.
      - intros row Hrow. apply Hincl. unfold idx_rows in Hrow.
        apply filter_In in Hrow. tauto. }
    assert (Hlen : length bs = length qs).
    { apply Forall2_length in Hall. rewrite length_map, length_seq in Hall. lia. }
    split; [|split; [|split]].
    + constructor; [lia|exact Hmany|].
      apply Forall_forall. intros b Hb.
      destruct (Forall2_In_r _ _ _ Hall b Hb) as (g & _ & Hwf & _).
      exact Hwf.
    + rewrite leaf_total_node, <- (idx_rows_partition qs (length qs) ds Hfirst).
      clear - Hall. revert Hall. generalize (seq 0 (length qs)) as l.
      intros l. revert bs. induction l as [|i l IHl]; intros bs Hall;
        inversion Hall as [|? ? ? ? (_ & Htot & _) Hrest]; subst; simpl;
        [reflexivity|].
      rewrite Htot. f_equal. now apply IHl.
    + intros row lbl Hrow Hlbl.
      destruct (Hfirst row Hrow) as (i & q & Hfm & Hi).
      rewrite Decide_DecisionNode, Hfm. cbn [bind].
      assert (Hgi : nth_error (map (fun i => idx_rows qs i ds) (seq 0 (length qs))) i
                    = Some (idx_rows qs i ds)).
      { rewrite nth_error_map,
          (nth_error_nth' (seq 0 (length qs)) 0) by (rewrite length_seq; lia).
        now rewrite seq_nth. }
      destruct (nth_error bs i) as [b|] eqn:Hb.
      2:{ apply nth_error_None in Hb. lia. }
      assert (HQ := Forall2_nth _ _ _ Hall i _ _ Hgi Hb).
      destruct HQ as (_ & _ & Hclass).
      apply Hclass; [|exact Hlbl].
      unfold idx_rows. apply filter_In. split; [exact Hrow|].
      rewrite Hfm. apply Nat.eqb_refl.
    + rewrite split_depth_node, Hdepth.
      destruct (Nat.ltb_spec depth aDepth); lia.
Qed.

Lemma trained_built (names : list string) (sig : list bool) (T : list Row)
    (fuel : nat) (tree : DecisionTree) (root : node) :
  trained names sig T fuel tree root ->
  exists self1,
    built self1 sig T
    /\ CreateTreeRecursive fuel self1 T 0 0 = Ok (root, Depth tree)
    /\ GlobalUniqueValues tree = GlobalUniqueValues self1
    /\ GlobalQuestions tree = GlobalQuestions self1.
Proof.
  intros (HT & Huni & Hnames & Hrun & Hroot).
  destruct (GetPossibleValues_spec sig T HT Huni) as (guv & Hguv & _ & _).
  destruct (global_facts sig T guv HT Huni Hguv) as (_ & Hnonempty & _).
  unfold CreateTree, newDecisionTree in Hrun.
  cbn [AttributeNames TrainingData GlobalQuestions Root Depth] in Hrun.
  rewrite Hnames, Hguv in Hrun. cbn [bind] in Hrun.
  change (GetQuestions_from [] 0 guv) with (GetQuestions guv) in Hrun.
  rewrite (GetQuestions_spec guv Hnonempty) in Hrun. cbn [bind] in Hrun.
  apply bind_Ok in Hrun. destruct Hrun as ([root' depth] & Hrec & Hrun).
  cbn beta iota in Hrun. injection Hrun as <-.
  cbn [Root] in Hroot. injection Hroot as ->.
  exists (mkDecisionTree T None names 0 guv (questions_from 0 guv)).
  split; [|split; [exact Hrec|split; reflexivity]].
  repeat split; auto. apply GetQuestions_spec, Hnonempty.
Qed.




(** [self.Depth] after [CreateTree] is the largest [Depth] of a decision
    node of the tree, and 0 when the root is a leaf. *)
Theorem CreateTree_Depth (names : list string) (sig : list bool)
    (T : list Row) (fuel : nat) (tree : DecisionTree) (root : node) :
  trained names sig T fuel tree root -> Depth tree = split_depth root.
Proof.
  intros Htrained.
  destruct (trained_built _ _ _ _ _ _ Htrained) as (self1 & Hbuilt & Hrec & _).
  destruct Htrained as (HT & _).
  destruct (built_tree_facts self1 sig T Hbuilt fuel T 0 0 root _ HT
              (incl_refl T) Hrec) as (_ & _ & _ & Hdepth).
  rewrite Hdepth. apply Nat.max_0_l.
Qed.

Lemma example_trained :
  exists tree root,
    trained example_names example_kinds example_rows 4 tree root.
Proof.
  eexists. eexists. unfold trained.
  split; [discriminate|]. split; [repeat constructor|].
  split; [reflexivity|]. split; [vm_compute; reflexivity|reflexivity].
Defined.




Lemma CreateTree_Depth_witness :
  exists tree root,
    trained example_names example_kinds example_rows 4 tree root
    /\ Depth tree = split_depth root.
Proof.
  destruct example_trained as (tree & root & H).
  exists tree, root. split; [exact H|].
  exact (CreateTree_Depth _ _ _ _ _ _ H).
Defined.

Lemma CreateTree_returns_witness :
  exists tree root,
    CreateTree 4 (newDecisionTree example_names example_rows) = Ok tree
    /\ Root tree = Some root.
Proof.
  apply (CreateTree_returns example_names example_kinds example_rows).
  - discriminate.
  - discriminate.
  - repeat constructor.
  - reflexivity.
Defined.

(** ** Evaluating a tree on its training rows *)







(** ** Rows that the tree has not seen *)








(** ** The questions of the tree *)

Lemma all_splits_node (P : list Question -> Prop) (qs : list Question)
    (bs : list node) (d : nat) :
  all_splits P (DecisionNode qs bs d) <-> P qs /\ Forall (all_splits P) bs.
Proof.
  cbn [all_splits]. split; intros [HP Hbs]; (split; [exact HP|]).
  - induction bs as [|b bs IH]; constructor; [apply Hbs|apply IH, Hbs].
  - induction Hbs as [|b bs Hb Hbs IH]; [exact I|split; assumption].
Qed.

Lemma col_strs_incl (j : nat) (ds T : list Row) :
  incl ds T -> incl (col_strs j ds) (col_strs j T).
Proof.
  intros Hincl x Hx. apply In_col_strs in Hx. destruct Hx as (row & Hrow & Hx).
  apply In_col_strs. exists row. split; [apply Hincl, Hrow|exact Hx].
Qed.

Lemma built_tree_questions (self : DecisionTree) (sig : list bool)
    (T : list Row) :
  built self sig T ->
  forall fuel ds aDepth depth tree depth',
  ds <> [] -> incl ds T ->
  CreateTreeRecursive fuel self ds aDepth depth = Ok (tree, depth') ->
  all_splits (node_questions sig T) tree.
Proof.
  intros Hbuilt. induction fuel as [|fuel IH];
    intros ds aDepth depth tree depth' Hne Hincl Hrun; [discriminate|].
  destruct (CreateTreeRecursive_inv self sig T Hbuilt fuel ds aDepth depth tree
              depth' Hne Hincl Hrun)
    as [(counts & Hcounts & -> & ->)
       |(qs & bs & Hmany & _ & Hidx & Hchain & -> & Hqs)].
  - exact I.
  - destruct (chain_facts _ (fun _ b => all_splits (node_questions sig T) b)
                _ _ _ _ Hchain) as [Hall _].
    { intros g d0 b d1 Hg Hb.
      apply in_map_iff in Hg. destruct Hg as (i & <- & Hi). apply in_seq in Hi.
      assert (Hgne : idx_rows qs i ds <> []) by (apply Hidx; lia).
      assert (Hginc : incl (idx_rows qs i ds) T).
      { intros r Hr. apply Hincl. unfold idx_rows in Hr.
        apply filter_In in Hr. tauto. }
      split; [now apply (IH (idx_rows qs i ds) (S aDepth) d0 b d1)|].
      now destruct (built_tree_facts self sig T Hbuilt fuel (idx_rows qs i ds)
                      (S aDepth) d0 b d1 Hgne Hginc Hb) as (_ & _ & _ & Hd). }
    apply all_splits_node. split.
    + destruct Hqs as (b & kind & Hb & Hkind & ->).
      exists b. split; [exact Hb|]. destruct kind; [left|right].
      * exists (local_thresholds b T ds).
        split; [exact Hkind|]. split; [apply l_sorted|].
        split; [|now rewrite map_map].
        intros x Hx. apply l_in_g in Hx. destruct Hx as [Hx _].
        unfold global_thresholds in Hx.
        now apply thresholds_incl, In_sort, In_dedupe in Hx.
      * exists (local_strs b T ds).
        split; [exact Hkind|]. split; [apply strs_NoDup|].
        split; [|now rewrite map_map].
        intros t Ht. apply (strs_local T ds b Hincl) in Ht.
        now apply (col_strs_incl b ds T Hincl).
    + apply Forall_forall. intros b Hb.
      destruct (Forall2_In_r _ _ _ Hall b Hb) as (g & _ & HQ). exact HQ.
Qed.

(** In the tree that [CreateTree] returns, the questions of every
    decision node are about one attribute column and never about the label
    column; on a column of floats they are thresholds in strictly ascending
    order (the order [DecisionNode] relies on to stop at the first match),
    on a column of strings they are pairwise different; and every value
    asked about occurs in that column of the training rows. *)
Theorem CreateTree_questions (names : list string) (sig : list bool)
    (T : list Row) (fuel : nat) (tree : DecisionTree) (root : node) :
  trained names sig T fuel tree root ->
  all_splits (node_questions sig T) root.
Proof.
  intros Htrained.
  destruct (trained_built _ _ _ _ _ _ Htrained) as (self1 & Hbuilt & Hrec & _).
  destruct Htrained as (HT & _).
  exact (built_tree_questions self1 sig T Hbuilt fuel T 0 0 root _ HT
           (incl_refl T) Hrec).
Qed.

Lemma CreateTree_questions_witness :
  exists tree root,
    trained example_names example_kinds example_rows 4 tree root
    /\ all_splits (node_questions example_kinds example_rows) root.
Proof.
  destruct example_trained as (tree & root & H).
  exists tree, root. split; [exact H|].
  exact (CreateTree_questions _ _ _ _ _ _ H).
Defined.

(** ** Training data that [CreateTree] rejects *)

Lemma mapM_bucket_None (n : nat) :
  mapM bucket (repeat CNone n) = Ok (repeat CNone n).
Proof. induction n as [|n IH]; simpl; [reflexivity|]. now rewrite IH. Qed.

Lemma mapM_app {A B : Type} (f : A -> result B) (l1 l2 : list A)
    (l1' l2' : list B) :
  mapM f l1 = Ok l1' -> mapM f l2 = Ok l2' -> mapM f (l1 ++ l2) = Ok (l1' ++ l2').
Proof.
  revert l1'. induction l1 as [|a l1 IH]; intros l1' H1 H2; simpl in *.
  - injection H1 as <-. exact H2.
  - apply bind_Ok in H1. destruct H1 as (b & -> & H1).
    apply bind_Ok in H1. destruct H1 as (r & Hr & H1). injection H1 as <-.
    cbn [bind]. now rewrite (IH r Hr H2).
Qed.

Lemma GetQuestions_from_None (guv : list container) :
  In CNone guv ->
  forall gq i, GetQuestions_from gq i guv = Raise TypeError.
Proof.
  induction guv as [|c guv IH]; intros Hin gq i; [contradiction|].
  cbn [GetQuestions_from].
  destruct c as [|l|l]; [reflexivity| |]; cbn [py_iter bind];
    (destruct Hin as [Hin|Hin]; [discriminate|]); now apply IH.
Qed.

Lemma py_setitem_app {A : Type} (l e : list A) (i : nat) (a : A) :
  i < length l ->
  py_setitem (l ++ e) i a = (l' <- py_setitem l i a ;; Ok (l' ++ e)).
Proof.
  revert i. induction l as [|x l IH]; intros [|i] Hi; simpl in *; try lia.
  - reflexivity.
  - rewrite IH by lia. destruct (py_setitem l i a); reflexivity.
Qed.

Section ScanWidth.

Variable step : nat -> Row -> value -> container -> result container.

Lemma scan_words_app (row : Row) (extra : list container) (words : list value) :
  forall i pv,
  i + length words <= length pv ->
  scan_words step row i words (pv ++ extra)
  = (pv' <- scan_words step row i words pv ;; Ok (pv' ++ extra)).
Proof.
  induction words as [|word words IH]; intros i pv Hlen; [reflexivity|].
  cbn [scan_words length] in *. rewrite !py_index_nat.
  rewrite nth_error_app1 by lia.
  destruct (nth_error pv i) as [c|]; [|reflexivity]. cbn [bind].
  destruct (step i row word c) as [c'|]; [|reflexivity]. cbn [bind].
  rewrite py_setitem_app by lia.
  destruct (py_setitem_spec pv i c') as (pv1 & Hset & Hlen1 & _); [lia|].
  rewrite Hset. cbn [bind]. apply IH. lia.
Qed.

Lemma scan_rows_app (extra : list container) (rows : list Row) :
  forall pv,
  Forall (fun row => length row = length pv) rows ->
  forall pv', scan_rows step rows pv = Ok pv' ->
  scan_rows step rows (pv ++ extra) = Ok (pv' ++ extra).
Proof.
  induction rows as [|row rows IH]; intros pv Hlen pv' Hrun.
  - simpl in *. now injection Hrun as <-.
  - inversion Hlen as [|? ? Hrow Hrest]; subst.
    cbn [scan_rows] in *. apply bind_Ok in Hrun. destruct Hrun as (pv1 & H1 & Hrun).
    rewrite scan_words_app, H1 by lia. cbn [bind].
    destruct (scan_words_spec step row row 0 pv) as (pv1' & H1' & Hlen1 & _).
    { lia. }
    { intros k w c Hw Hc. simpl.
      assert (Hgen : forall words i pv0 pv2,
                scan_words step row i words pv0 = Ok pv2 ->
                forall k w c, nth_error words k = Some w ->
                  nth_error pv0 (i + k) = Some c -> returns (step (i + k) row w c)).
      { clear. induction words as [|w0 words IHw]; intros i pv0 pv2 Hr k w c Hw Hc.
        - destruct k; discriminate.
        - cbn [scan_words] in Hr. rewrite py_index_nat in Hr.
          destruct (nth_error pv0 i) as [c0|] eqn:Hc0; [|discriminate].
          cbn [bind] in Hr.
          destruct (step i row w0 c0) as [c1|] eqn:Hc1; [|discriminate].
          cbn [bind] in Hr.
          destruct (py_setitem pv0 i c1) as [pv3|] eqn:Hset; [|discriminate].
          cbn [bind] in Hr. destruct k as [|k]; simpl in Hw.
          + injection Hw as <-. rewrite Nat.add_0_r in *.
            rewrite Hc0 in Hc. injection Hc as <-. now exists c1.
          + replace (i + S k) with (S i + k) in * by lia.
            apply (IHw (S i) pv3 pv2 Hr k w c Hw).
            assert (Hi : i < length pv0) by (apply nth_error_Some; congruence).
            destruct (py_setitem_spec pv0 i c1 Hi) as (pv4 & Hset' & _ & _ & Hother).
            rewrite Hset in Hset'. injection Hset' as <-.
            rewrite Hother by lia. exact Hc. }
      apply (Hgen row 0 pv pv1 H1 k w c Hw Hc). }
    rewrite H1 in H1'. injection H1' as <-.
    apply IH; [|exact Hrun]. rewrite Hlen1. exact Hrest.
Qed.

Lemma scan_words_overflow (row : Row) (words : list value) :
  forall i pv,
  i <= length pv -> length pv < i + length words ->
  (forall k w c, nth_error words k = Some w -> nth_error pv (i + k) = Some c ->
                 returns (step (i + k) row w c)) ->
  scan_words step row i words pv = Raise IndexError.
Proof.
  induction words as [|word words IH]; intros i pv Hi Hlen Hstep;
    cbn [scan_words length] in *; [lia|].
  rewrite py_index_nat.
  destruct (nth_error pv i) as [c|] eqn:Hc; [|reflexivity]. cbn [bind].
  assert (Hi' : i < length pv) by (apply nth_error_Some; congruence).
  destruct (Hstep 0 word c) as (c1 & Hc1); [reflexivity|now rewrite Nat.add_0_r|].
  rewrite Nat.add_0_r in Hc1. rewrite Hc1. cbn [bind].
  destruct (py_setitem_spec pv i c1 Hi') as (pv1 & -> & Hlen1 & _ & Hother).
  cbn [bind]. apply IH; [lia|lia|].
  intros k w c0 Hw Hc0. rewrite Hother in Hc0 by lia.
  replace (S i + k) with (i + S k) in * by lia. now apply Hstep.
Qed.

Lemma scan_rows_split (rows1 rows2 : list Row) :
  forall pv,
  scan_rows step (rows1 ++ rows2) pv
  = (pv' <- scan_rows step rows1 pv ;; scan_rows step rows2 pv').
Proof.
  induction rows1 as [|row rows1 IH]; intros pv; [reflexivity|].
  cbn [app scan_rows].
  destruct (scan_words step row 0 row pv) as [pv1|]; [|reflexivity].
  cbn [bind]. apply IH.
Qed.

End ScanWidth.

Lemma scan_words_mismatch (row : Row) (words : list value) :
  forall i pv,
  i + length words <= length pv ->
  (forall k c, nth_error pv (i + k) = Some c -> c <> CNone) ->
  (exists k w c, nth_error words k = Some w /\ nth_error pv (i + k) = Some c
                 /\ kind_of c <> Some (IsFloat (OVal w))) ->
  scan_words (fun _ _ => record_word) row i words pv = Raise AttributeError.
Proof.
  induction words as [|word words IH]; intros i pv Hlen Hsome Hbad.
  - destruct Hbad as ([|k] & w & c & Hw & _); discriminate.
  - cbn [scan_words length] in *. rewrite py_index_nat.
    destruct (nth_error pv i) as [c|] eqn:Hc.
    2:{ apply nth_error_None in Hc. lia. }
    cbn [bind].
    assert (Hnone : c <> CNone).
    { apply (Hsome 0). now rewrite Nat.add_0_r. }
    destruct (record_word word c) as [c1|e] eqn:Hrec.
    + cbn [bind].
      destruct (py_setitem_spec pv i c1) as (pv1 & -> & Hlen1 & Hat & Hother);
        [lia|]. cbn [bind].
      apply IH; [lia| |].
      * intros k c0 Hc0. rewrite Hother in Hc0 by lia.
        apply (Hsome (S k)). now replace (i + S k) with (S i + k) by lia.
      * destruct Hbad as ([|k] & w & c0 & Hw & Hc0 & Hkind); simpl in Hw.
        -- injection Hw as <-. rewrite Nat.add_0_r, Hc in Hc0.
           injection Hc0 as <-. exfalso. apply Hkind.
           destruct word, c; simpl in *; try discriminate; try reflexivity;
             now elim Hnone.
        -- exists k, w, c0. split; [exact Hw|].
           rewrite Hother by lia.
           now replace (S i + k) with (i + S k) by lia.
    + destruct word, c; simpl in Hrec; try discriminate;
        try (now elim Hnone); now injection Hrec as <-.
Qed.

Lemma kinds_differ (sig : list bool) (row : Row) :
  length row = length sig -> kinds row <> sig ->
  exists k w b, nth_error row k = Some w /\ nth_error sig k = Some b
                /\ b <> IsFloat (OVal w).
Proof.
  revert sig. induction row as [|w row IH]; intros [|b sig] Hlen Hne;
    simpl in *; try discriminate.
  - now elim Hne.
  - destruct (Bool.bool_dec b (IsFloat (OVal w))) as [Heq|Hdiff].
    + destruct (IH sig) as (k & w' & b' & Hw & Hb & Hd); [lia| |].
      * intros Hk. apply Hne. rewrite Heq. f_equal. exact Hk.
      * exists (S k), w', b'. auto.
    + exists 0, w, b. auto.
Qed.

(** [CreateTree] without training rows raises: [TypeError] when the tree
    has attribute names (no column has a container to iterate on) and
    [IndexError] when it has none. *)
Theorem CreateTree_no_rows (names : list string) (fuel : nat) :
  (names <> [] -> CreateTree fuel (newDecisionTree names []) = Raise TypeError)
  /\ (names = [] ->
      CreateTree (S fuel) (newDecisionTree names []) = Raise IndexError).
Proof.
  split.
  - intros Hnames. unfold CreateTree, newDecisionTree, GetPossibleValues.
    cbn [AttributeNames TrainingData GlobalQuestions scan_rows bind].
    rewrite mapM_bucket_None. cbn [bind].
    rewrite GetQuestions_from_None; [reflexivity|].
    destruct names; [contradiction|]. now left.
  - intros ->. reflexivity.
Qed.

Lemma CreateTree_no_rows_witness :
  CreateTree 5 (newDecisionTree example_names []) = Raise TypeError.
Proof.
  destruct (CreateTree_no_rows example_names 5) as [H _].
  apply H. discriminate.
Defined.

(** Training rows wider than the attribute names make
    [GetPossibleValues], hence [CreateTree], raise [IndexError]: the first
    row already has a word without a container. *)
Theorem CreateTree_rows_too_wide (names : list string) (row0 : Row)
    (rest : list Row) (fuel : nat) :
  length names < length row0 ->
  GetPossibleValues (length names) (row0 :: rest) = Raise IndexError
  /\ CreateTree fuel (newDecisionTree names (row0 :: rest)) = Raise IndexError.
Proof.
  intros Hwide.
  assert (Hget : GetPossibleValues (length names) (row0 :: rest) = Raise IndexError).
  { unfold GetPossibleValues. cbn [scan_rows].
    rewrite scan_words_overflow; [reflexivity| | |].
    - lia.
    - rewrite repeat_length. simpl. exact Hwide.
    - intros k w c _ Hc. apply nth_error_In, repeat_spec in Hc. subst c.
      destruct w; eexists; reflexivity. }
  split; [exact Hget|].
  unfold CreateTree, newDecisionTree. cbn [AttributeNames TrainingData].
  now rewrite Hget.
Qed.

Lemma CreateTree_rows_too_wide_witness :
  CreateTree 4 (newDecisionTree ["Color"; "Label"]%string example_rows)
  = Raise IndexError.
Proof.
  apply (CreateTree_rows_too_wide ["Color"; "Label"]%string
           [VStr "Green"; VFloat 3; VStr "Yes"]
           [[VStr "Yellow"; VFloat 3; VStr "Yes"];
            [VStr "Red"; VFloat 1; VStr "No"];
            [VStr "Red"; VFloat 3; VStr "Yes"]] 4).
  simpl. lia.
Defined.

(** Training rows narrower than the attribute names make [CreateTree]
    raise [TypeError]: [GetPossibleValues] returns, with [None] for every
    name that has no column, and [GetQuestions] iterates on it. *)
Theorem CreateTree_rows_too_narrow (names : list string) (sig : list bool)
    (T : list Row) (fuel : nat) :
  T <> [] -> uniform sig T -> length sig < length names ->
  (exists guv, GetPossibleValues (length names) T = Ok guv
               /\ nth_error guv (length sig) = Some CNone)
  /\ CreateTree fuel (newDecisionTree names T) = Raise TypeError.
Proof.
  intros HT Huni Hnarrow.
  assert (Hget : exists guv, GetPossibleValues (length names) T = Ok guv
                             /\ nth_error guv (length sig) = Some CNone).
  { destruct (GetPossibleValues_spec sig T HT Huni) as (pv & Hrun & Hlen & _).
    unfold GetPossibleValues in *.
    apply bind_Ok in Hrun. destruct Hrun as (pv0 & Hscan & Hmap).
    replace (length names) with (length sig + (length names - length sig)) by lia.
    rewrite repeat_app.
    rewrite (scan_rows_app _ (repeat CNone (length names - length sig)) T
               (repeat CNone (length sig))) with (pv' := pv0); [| |exact Hscan].
    2:{ unfold uniform in Huni. rewrite Forall_forall in *. intros row Hrow.
        rewrite repeat_length. apply kinds_length, Huni, Hrow. }
    cbn [bind].
    rewrite (mapM_app bucket pv0 _ pv _ Hmap (mapM_bucket_None _)).
    eexists. split; [reflexivity|].
    rewrite nth_error_app2 by lia. rewrite Hlen, Nat.sub_diag.
    destruct (length names - length sig) eqn:Hd; [lia|reflexivity]. }
  split; [exact Hget|].
  destruct Hget as (guv & Hguv & Hnone).
  unfold CreateTree, newDecisionTree.
  cbn [AttributeNames TrainingData GlobalQuestions]. rewrite Hguv. cbn [bind].
  rewrite GetQuestions_from_None; [reflexivity|].
  exact (nth_error_In _ _ Hnone).
Qed.

Lemma CreateTree_rows_too_narrow_witness :
  CreateTree 4 (newDecisionTree ["Color"; "Size"; "Weight"; "Label"]%string
                  example_rows)
  = Raise TypeError.
Proof.
  apply (CreateTree_rows_too_narrow _ example_kinds example_rows 4).
  - discriminate.
  - repeat constructor.
  - simpl. lia.
Defined.

(** A column that holds floats in some rows and strings in others makes
    [GetPossibleValues], hence [CreateTree], raise [AttributeError]: after
    rows of one shape, the first row with another kind of word in a column
    calls [append] on a set or [add] on a list. *)
Theorem CreateTree_mixed_column (names : list string) (sig : list bool)
    (pre : list Row) (row : Row) (post : list Row) (fuel : nat) :
  pre <> [] -> uniform sig pre -> length names = length sig ->
  length row = length sig -> kinds row <> sig ->
  GetPossibleValues (length names) (pre ++ row :: post) = Raise AttributeError
  /\ CreateTree fuel (newDecisionTree names (pre ++ row :: post))
     = Raise AttributeError.
Proof.
  intros Hpre Huni Hnames Hrow Hkinds.
  assert (Hget : GetPossibleValues (length names) (pre ++ row :: post)
                 = Raise AttributeError).
  { unfold GetPossibleValues. rewrite Hnames, scan_rows_split.
    destruct (scan_rows_columns (fun _ _ => record_word) pre
                (repeat CNone (length sig))) as (pv & -> & Hlen & Hcols).
    { unfold uniform in Huni. rewrite Forall_forall in *. intros r Hr.
      rewrite repeat_length. apply kinds_length, Huni, Hr. }
    { intros j c Hc.
      assert (Hj : j < length sig).
      { rewrite <- (repeat_length CNone (length sig)).
        apply nth_error_Some. congruence. }
      apply nth_error_In, repeat_spec in Hc. subst c.
      destruct (nth_error sig j) as [b|] eqn:Hb.
      2:{ apply nth_error_None in Hb. lia. }
      rewrite (record_word_column sig pre j b Hpre Huni Hb).
      eexists; reflexivity. }
    cbn [bind scan_rows]. rewrite repeat_length in Hlen.
    assert (Hcol : forall j b, nth_error sig j = Some b ->
              nth_error pv j = Some (if b then CList (col_floats j pre)
                                     else CSet (str_set (col_strs j pre)))).
    { intros j b Hb.
      assert (Hj : j < length sig) by (apply nth_error_Some; congruence).
      destruct (Hcols j CNone) as (c' & Hc' & Hnth).
      { now rewrite nth_error_repeat. }
      rewrite (record_word_column sig pre j b Hpre Huni Hb) in Hc'.
      injection Hc' as <-. exact Hnth. }
    rewrite scan_words_mismatch; [reflexivity| | |].
    - simpl. lia.
    - intros k c Hc. simpl in Hc.
      destruct (nth_error sig k) as [b|] eqn:Hb.
      + rewrite (Hcol k b Hb) in Hc. injection Hc as <-. destruct b; discriminate.
      + apply nth_error_None in Hb.
        assert (k < length pv) by (apply nth_error_Some; congruence). lia.
    - destruct (kinds_differ sig row Hrow Hkinds) as (k & w & b & Hw & Hb & Hd).
      exists k, w. eexists. split; [exact Hw|]. split; [apply (Hcol k b Hb)|].
      destruct b, (IsFloat (OVal w)); simpl; congruence. }
  split; [exact Hget|].
  unfold CreateTree, newDecisionTree. cbn [AttributeNames TrainingData].
  now rewrite Hget.
Qed.

Lemma CreateTree_mixed_column_witness :
  CreateTree 4 (newDecisionTree example_names
                  (example_rows ++ [[VStr "Red"; VStr "?"; VStr "No"]]))
  = Raise AttributeError.
Proof.
  apply (CreateTree_mixed_column example_names example_kinds example_rows
           [VStr "Red"; VStr "?"; VStr "No"] [] 4).
  - discriminate.
  - repeat constructor.
  - reflexivity.
  - reflexivity.
  - discriminate.
Defined.

(** ** Divisions of [GiniIndex] *)

Lemma Counts_from_bound (a : Z) (e : value) (ds : list Row) :
  forall trues count t f c,
  trues <= count ->
  Counts_from trues count ds e a = Ok (t, f, c) ->
  t <= c /\ c <= count + length ds /\ f = c - t.
Proof.
  induction ds as [|row ds IH]; intros trues count t f c Hle Hrun;
    cbn [Counts_from length] in *.
  - injection Hrun as <- <- <-. lia.
  - apply bind_Ok in Hrun. destruct Hrun as (v & _ & Hrun).
    destruct (py_eq v (OVal e)).
    + apply bind_Ok in Hrun. destruct Hrun as (lbl & _ & Hrun).
      destruct (py_eq lbl (OVal Yes) || py_eq lbl (OVal (VFloat 1%Q)));
        apply IH in Hrun; lia.
    + apply IH in Hrun; lia.
Qed.

Lemma Counts_from_raises (a : Z) (e : value) (ds : list Row) :
  forall trues count ex,
  Counts_from trues count ds e a = Raise ex -> ex = IndexError.
Proof.
  assert (Hidx : forall (A : Type) (l : list A) (i : Z) ex,
            py_index l i = Raise ex -> ex = IndexError).
  { intros A l i ex. unfold py_index.
    destruct (_ <? 0)%Z; [congruence|].
    destruct (nth_error l _); congruence. }
  induction ds as [|row ds IH]; intros trues count ex Hrun;
    cbn [Counts_from] in Hrun; [discriminate|].
  destruct (py_index row a) as [v|ex1] eqn:Hv; cbn [bind] in Hrun.
  2:{ injection Hrun as <-. exact (Hidx _ _ _ _ Hv). }
  destruct (py_eq v (OVal e)); [|exact (IH _ _ _ Hrun)].
  destruct (py_index row (Z.of_nat (length row) - 1)) as [lbl|ex1] eqn:Hl;
    cbn [bind] in Hrun.
  2:{ injection Hrun as <-. exact (Hidx _ _ _ _ Hl). }
  destruct (py_eq lbl (OVal Yes) || py_eq lbl (OVal (VFloat 1%Q)));
    exact (IH _ _ _ Hrun).
Qed.

Lemma GiniIndex_loop_divisions (ds : list Row) (a : Z) (eles : list value) :
  forall entropy,
  GiniIndex_loop ds a (length ds) entropy eles <> Raise ZeroDivisionError.
Proof.
  induction eles as [|e eles IH]; intros entropy; cbn [GiniIndex_loop];
    [discriminate|].
  unfold Counts.
  destruct (Counts_from 0 0 ds e a) as [[[t f] c]|ex] eqn:Hc; cbn [bind].
  2:{ apply Counts_from_raises in Hc. subst ex. discriminate. }
  apply Counts_from_bound in Hc; [|lia]. destruct Hc as (Htc & Hcn & _).
  destruct (Nat.eqb_spec c 0) as [Hz|Hz]; [apply IH|].
  rewrite !py_truediv_Ok by lia. cbn [bind]. apply IH.
Qed.

(** [GiniIndex] never raises [ZeroDivisionError], whatever the rows, the
    attribute and the candidates: a candidate that no row carries is
    skipped before [trues / count], and [count / total] is reached only
    with a row counted, hence with rows. *)
Theorem GiniIndex_no_ZeroDivisionError (aDataSet : list Row)
    (aAttributeIndex : Z) (aPossibleValues : list container) :
  GiniIndex aDataSet aAttributeIndex aPossibleValues <> Raise ZeroDivisionError.
Proof.
  unfold GiniIndex.
  destruct (py_index aPossibleValues aAttributeIndex) as [c|ex] eqn:Hc;
    cbn [bind].
  2:{ unfold py_index in Hc. destruct (_ <? 0)%Z; [congruence|].
      destruct (nth_error _ _); congruence. }
  destruct c as [|l|l]; cbn [py_len py_iter bind]; [discriminate| |];
    (destruct (_ =? 1); [discriminate|apply GiniIndex_loop_divisions]).
Qed.

(** ** GetQuestions *)

(** [GetQuestions] raises [TypeError] when a column has no container, and
    otherwise, every container holding a candidate, returns one list of
    questions per column: one question per candidate, in the order of the
    candidates, each about that column. *)
Theorem GetQuestions_shape (guv : list container) :
  (In CNone guv -> GetQuestions guv = Raise TypeError)
  /\ ((forall c, In c guv -> nonempty c = true) ->
      exists gq,
        GetQuestions guv = Ok gq
        /\ length gq = length guv
        /\ forall i c, nth_error guv i = Some c ->
             exists vals,
               py_iter c = Ok vals
               /\ nth_error gq i
                  = Some (map (fun val => mkQuestion (Z.of_nat i) (OVal val)) vals)).
Proof.
  split.
  - intros Hin. now apply GetQuestions_from_None.
  - intros Hne. exists (questions_from 0 guv).
    split; [now apply GetQuestions_spec|].
    split; [apply length_questions_from|].
    intros i c Hc. rewrite (nth_error_questions_from guv 0 i c Hc).
    assert (Hc' := Hne c (nth_error_In _ _ Hc)).
    unfold questions_of, nonempty in *.
    destruct c as [|l|l]; cbn [py_len py_iter] in *; [discriminate| |];
      eexists; split; reflexivity.
Qed.

Lemma GetQuestions_shape_witness :
  exists gq,
    GetQuestions [CSet ["Green"; "Red"]%string; CList [1%Q; 3%Q]] = Ok gq
    /\ length gq = 2.
Proof.
  destruct (GetQuestions_shape [CSet ["Green"; "Red"]%string; CList [1%Q; 3%Q]])
    as [_ H].
  destruct H as (gq & Hrun & Hlen & _).
  - intros c [<-|[<-|[]]]; reflexivity.
  - exists gq. split; [exact Hrun|exact Hlen].
Defined.

(** ** The loaders *)

Lemma lines_read_step (n : nat) (k : Z) :
  k <> 0%Z -> lines_read (S n) k = S (lines_read n (k - 1)).
Proof.
  intros Hk. unfold lines_read.
  destruct (Z.ltb_spec k 0), (Z.ltb_spec (k - 1) 0); lia.
Qed.

Lemma length_split_comma (line : string) : 0 < length (split_comma line).
Proof.
  induction line as [|c line IH]; simpl; [lia|].
  destruct (Ascii.eqb c ","); simpl; [lia|].
  destruct (split_comma line); simpl; lia.
Qed.

Lemma kept_words_length {A B : Type} (ign : list Z) (tgt : Z)
    (words : list A) (words' : list B) :
  length words = length words' ->
  forall i,
  length (kept_words ign tgt i words) = length (kept_words ign tgt i words').
Proof.
  revert words'. induction words as [|w words IH]; intros [|w' words'] Hlen i;
    simpl in *; try lia.
  destruct (_ && _); simpl; rewrite (IH words') by lia; reflexivity.
Qed.

Lemma kept_words_In {A : Type} (ign : list Z) (tgt : Z) (words : list A) (x : A) :
  forall i, In x (kept_words ign tgt i words) -> In x words.
Proof.
  induction words as [|w words IH]; intros i Hx; simpl in *; [exact Hx|].
  destruct (_ && _); [destruct Hx as [Hx|Hx]; [now left|]|];
    right; exact (IH _ Hx).
Qed.

Lemma py_index_tgt {A : Type} (l : list A) (i : Z) :
  (0 <= i)%Z ->
  py_index l i =
  match nth_error l (Z.to_nat i) with Some a => Ok a | None => Raise IndexError end.
Proof.
  intros Hi. rewrite <- py_index_nat. f_equal. lia.
Qed.

Lemma final_words_wide {A : Type} (ign : list Z) (tgt : Z) (words : list A) :
  (0 <= tgt < Z.of_nat (length words))%Z ->
  exists target,
    nth_error words (Z.to_nat tgt) = Some target
    /\ final_words ign tgt words = Ok (kept_words ign tgt 0 words ++ [target]).
Proof.
  intros Htgt. unfold final_words.
  destruct (Z.leb_spec 0 tgt); [|lia].
  rewrite (py_index_tgt words tgt) by lia.
  destruct (nth_error words (Z.to_nat tgt)) as [t|] eqn:Ht.
  - exists t. split; reflexivity.
  - apply nth_error_None in Ht. lia.
Qed.

Lemma final_words_short {A : Type} (ign : list Z) (tgt : Z) (words : list A) :
  (Z.of_nat (length words) <= tgt)%Z ->
  final_words ign tgt words = Raise IndexError.
Proof.
  intros Htgt. unfold final_words.
  destruct (Z.leb_spec 0 tgt); [|lia].
  rewrite (py_index_tgt words tgt) by lia.
  destruct (nth_error words (Z.to_nat tgt)) as [t|] eqn:Ht; [|reflexivity].
  assert (Z.to_nat tgt < length words) by (apply nth_error_Some; congruence).
  lia.
Qed.

Lemma final_words_raises {A : Type} (ign : list Z) (tgt : Z) (words : list A)
    (e : exn) :
  final_words ign tgt words = Raise e -> e = IndexError.
Proof.
  unfold final_words, py_index. destruct (0 <=? tgt)%Z; [|discriminate].
  destruct (_ <? 0)%Z; [cbn; congruence|].
  destruct (nth_error words _); cbn; congruence.
Qed.

Lemma mapM_raises {A B : Type} (f : A -> result B) (e0 : exn) (l : list A) :
  (forall a e, f a = Raise e -> e = e0) ->
  (exists a, In a l /\ f a = Raise e0) ->
  mapM f l = Raise e0.
Proof.
  intros Honly. induction l as [|a l IH]; intros (x & Hx & Hfx);
    [contradiction|].
  cbn [mapM]. destruct (f a) as [b|e] eqn:Hfa; cbn [bind].
  - destruct Hx as [->|Hx]; [congruence|].
    rewrite IH; [reflexivity|]. now exists x.
  - now rewrite (Honly a e Hfa).
Qed.

Section LoaderFacts.

Variable float_of : string -> option Q.
Variable ign : list Z.
Variable tgt : Z.

Lemma LoadTrainingData_from_rows (lines : list string) :
  forall i k names data,
  LoadTrainingData_from float_of (S i) lines ign tgt k names data
  = (new <- mapM (read_row float_of ign tgt)
              (firstn (lines_read (length lines) k) lines) ;;
     Ok (names, data ++ new)).
Proof.
  induction lines as [|line lines IH]; intros i k names data.
  - cbn [LoadTrainingData_from length]. rewrite firstn_nil. cbn [mapM bind].
    now rewrite app_nil_r.
  - cbn [LoadTrainingData_from length].
    destruct (Z.eqb_spec k 0) as [->|Hk].
    + unfold lines_read. cbn. now rewrite app_nil_r.
    + rewrite (lines_read_step _ k Hk). cbn [Nat.eqb firstn mapM].
      destruct (read_row float_of ign tgt line) as [final|e]; cbn [bind];
        [|reflexivity].
      rewrite IH.
      destruct (mapM _ _) as [new|e]; cbn [bind]; [|reflexivity].
      now rewrite <- app_assoc.
Qed.

Lemma LoadTrainingData_fresh (lines : list string) (k : Z) :
  LoadTrainingData float_of freshDecisionTree lines ign tgt k
  = match firstn (lines_read (length lines) k) lines with
    | [] => Ok freshDecisionTree
    | header :: rest =>
        names <- final_words ign tgt (map Clean (split_comma header)) ;;
        data <- mapM (read_row float_of ign tgt) rest ;;
        Ok (newDecisionTree names data)
    end.
Proof.
  unfold LoadTrainingData, freshDecisionTree, newDecisionTree.
  cbn [AttributeNames TrainingData Root Depth GlobalUniqueValues GlobalQuestions].
  destruct lines as [|header lines]; [now rewrite firstn_nil|].
  cbn [LoadTrainingData_from length].
  destruct (Z.eqb_spec k 0) as [->|Hk]; [reflexivity|].
  rewrite (lines_read_step _ k Hk). cbn [Nat.eqb firstn app].
  destruct (final_words ign tgt _) as [names|e]; cbn [bind]; [|reflexivity].
  rewrite LoadTrainingData_from_rows.
  destruct (mapM _ _) as [new|e]; reflexivity.
Qed.

Lemma LoadTestData_from_rows (lines : list string) :
  forall i testData,
  LoadTestData_from float_of (S i) lines ign tgt testData
  = (new <- mapM (read_row float_of ign tgt) lines ;; Ok (testData ++ new)).
Proof.
  induction lines as [|line lines IH]; intros i testData.
  - cbn. now rewrite app_nil_r.
  - cbn [LoadTestData_from Nat.eqb mapM].
    destruct (read_row float_of ign tgt line) as [final|e]; cbn [bind];
      [|reflexivity].
    rewrite IH. destruct (mapM _ _) as [new|e]; cbn [bind]; [|reflexivity].
    now rewrite <- app_assoc.
Qed.

Lemma read_row_wide (line : string) (w : nat) :
  length (split_comma line) = w -> (0 <= tgt < Z.of_nat w)%Z ->
  exists row,
    read_row float_of ign tgt line = Ok row
    /\ length row
       = S (length (kept_words ign tgt 0 (split_comma line)))
    /\ Forall (loaded_cell float_of) row.
Proof.
  intros Hw Htgt. unfold read_row.
  destruct (final_words_wide ign tgt
              (map (convert float_of) (map Clean (split_comma line))))
    as (t & Ht & Hrun).
  { rewrite !length_map. lia. }
  rewrite Hrun. eexists. split; [reflexivity|]. split.
  - rewrite length_app, Nat.add_comm. cbn [length Nat.add]. f_equal.
    apply kept_words_length. now rewrite !length_map.
  - assert (Hcell : forall v, In v (map (convert float_of)
                                     (map Clean (split_comma line))) ->
                         loaded_cell float_of v).
    { intros v Hv. apply in_map_iff in Hv. destruct Hv as (word & <- & _).
      unfold convert, loaded_cell.
      destruct (float_of word) eqn:Hf; [exact I|exact Hf]. }
    apply Forall_app. split.
    + apply Forall_forall. intros v Hv. apply Hcell.
      exact (kept_words_In _ _ _ _ _ Hv).
    + constructor; [|constructor]. apply Hcell. exact (nth_error_In _ _ Ht).
Qed.

(** [LoadTrainingData] on a fresh tree reads the first [aRowsToGet] lines
    of the file, all of them when [aRowsToGet] is negative, and the first
    line read is the line of the names: it loads one row less than the
    lines it reads ([aRowsToGet = k > 0] gives at most [k - 1] rows), the
    rows being those of the lines after the first, in the order of the
    file. *)
Theorem LoadTrainingData_rows (lines : list string) (aRowsToGet : Z)
    (self' : DecisionTree) :
  LoadTrainingData float_of freshDecisionTree lines ign tgt aRowsToGet = Ok self' ->
  length (TrainingData self') = lines_read (length lines) aRowsToGet - 1
  /\ mapM (read_row float_of ign tgt)
       (firstn (lines_read (length lines) aRowsToGet - 1) (tl lines))
     = Ok (TrainingData self')
  /\ (lines_read (length lines) aRowsToGet = 0 -> AttributeNames self' = [])
  /\ (forall header, 0 < lines_read (length lines) aRowsToGet ->
        hd_error lines = Some header ->
        final_words ign tgt (map Clean (split_comma header))
        = Ok (AttributeNames self')).
Proof.
  rewrite LoadTrainingData_fresh.
  assert (Hmap : forall l rows, mapM (read_row float_of ign tgt) l = Ok rows ->
            length rows = length l).
  { induction l as [|a l IH]; intros rows H; simpl in H.
    - now injection H as <-.
    - apply bind_Ok in H. destruct H as (b & _ & H).
      apply bind_Ok in H. destruct H as (r & Hr & H). injection H as <-.
      simpl. now rewrite (IH r Hr). }
  assert (Hn : lines_read (length lines) aRowsToGet <= length lines).
  { unfold lines_read. destruct (_ <? 0)%Z; lia. }
  destruct lines as [|header lines]; cbn [length tl hd_error] in *.
  - rewrite firstn_nil. intros H. injection H as <-.
    replace (lines_read 0 aRowsToGet) with 0 by lia. cbn.
    split; [reflexivity|]. split; [reflexivity|]. split; [reflexivity|].
    intros header Hpos. lia.
  - destruct (lines_read (S (length lines)) aRowsToGet) as [|n] eqn:Hread.
    + cbn [firstn]. intros H. injection H as <-. cbn.
      split; [reflexivity|]. split; [reflexivity|]. split; [reflexivity|].
      intros header' Hpos. lia.
    + cbn [firstn]. intros H.
      apply bind_Ok in H. destruct H as (names & Hnames & H).
      apply bind_Ok in H. destruct H as (data & Hdata & H). injection H as <-.
      cbn [TrainingData AttributeNames newDecisionTree].
      rewrite Nat.sub_succ, Nat.sub_0_r.
      split; [|split; [exact Hdata|split; [discriminate|]]].
      * rewrite (Hmap _ _ Hdata), length_firstn. lia.
      * intros header' _ Hh. injection Hh as <-. exact Hnames.
Qed.

(** On a file whose lines all split into [w] words, with the target among
    them, [LoadTrainingData] returns; every row it loads is as long as the
    list of attribute names and is not empty, and each of its cells is a
    float or a string that [float] does not read. *)
Theorem LoadTrainingData_rectangular (lines : list string) (w : nat)
    (aRowsToGet : Z) :
  (forall line, In line lines -> length (split_comma line) = w) ->
  (0 <= tgt < Z.of_nat w)%Z ->
  exists self',
    LoadTrainingData float_of freshDecisionTree lines ign tgt aRowsToGet = Ok self'
    /\ forall row, In row (TrainingData self') ->
         length row = length (AttributeNames self')
         /\ row <> []
         /\ Forall (loaded_cell float_of) row.
Proof.
  intros Hw Htgt. rewrite LoadTrainingData_fresh.
  assert (Hsub : incl (firstn (lines_read (length lines) aRowsToGet) lines) lines).
  { intros x Hx. rewrite <- (firstn_skipn (lines_read (length lines) aRowsToGet)).
    apply in_or_app. now left. }
  destruct (firstn _ lines) as [|header rest].
  - eexists. split; [reflexivity|]. intros row [].
  - destruct (final_words_wide ign tgt (map Clean (split_comma header)))
      as (t & _ & ->).
    { rewrite length_map, (Hw header) by (apply Hsub; now left). exact Htgt. }
    cbn [bind].
    assert (Hrows : forall l, incl l lines ->
              exists data,
                mapM (read_row float_of ign tgt) l = Ok data
                /\ forall row, In row data ->
                     exists line, In line l
                       /\ length row
                          = S (length (kept_words ign tgt 0 (split_comma line)))
                       /\ Forall (loaded_cell float_of) row).
    { induction l as [|line l IH]; intros Hl.
      - exists []. split; [reflexivity|]. intros row [].
      - destruct (read_row_wide line w) as (row & Hrow & Hlen & Hcells);
          [apply Hw, Hl; now left|exact Htgt|].
        destruct IH as (data & Hdata & Hall).
        { intros x Hx. apply Hl. now right. }
        exists (row :: data). cbn [mapM]. rewrite Hrow, Hdata. cbn [bind].
        split; [reflexivity|].
        intros r [<-|Hr].
        + exists line. split; [now left|]. split; assumption.
        + destruct (Hall r Hr) as (line' & Hin & H').
          exists line'. split; [now right|exact H']. }
    destruct (Hrows rest) as (data & -> & Hall).
    { intros x Hx. apply Hsub. now right. }
    cbn [bind]. eexists. split; [reflexivity|].
    cbn [TrainingData AttributeNames newDecisionTree].
    intros row Hrow. destruct (Hall row Hrow) as (line & Hline & Hlen & Hcells).
    split; [|split; [|exact Hcells]].
    + rewrite Hlen, length_app, Nat.add_comm. cbn [length Nat.add]. f_equal.
      rewrite (kept_words_length ign tgt (map Clean (split_comma header))
                 (split_comma line)).
      * reflexivity.
      * rewrite length_map, (Hw header) by (apply Hsub; now left).
        symmetry. apply Hw, Hsub. now right.
    + intros ->. discriminate.
Qed.

(** With a target index, [LoadTrainingData] asked for the whole file
    raises [IndexError] as soon as one line has no word at the target
    index, as a blank last line has for a target other than 0. *)
Theorem LoadTrainingData_short_line (lines : list string) (aRowsToGet : Z)
    (line : string) :
  (aRowsToGet < 0)%Z -> In line lines ->
  (Z.of_nat (length (split_comma line)) <= tgt)%Z ->
  LoadTrainingData float_of freshDecisionTree lines ign tgt aRowsToGet
  = Raise IndexError.
Proof.
  intros Hall Hline Hshort. rewrite LoadTrainingData_fresh.
  unfold lines_read. destruct (Z.ltb_spec aRowsToGet 0); [|lia].
  rewrite firstn_all.
  destruct lines as [|header rest]; [contradiction|].
  destruct Hline as [->|Hline].
  - rewrite final_words_short by now rewrite length_map. reflexivity.
  - destruct (final_words ign tgt _) as [names|e] eqn:Hnames; cbn [bind].
    2:{ now rewrite (final_words_raises _ _ _ _ Hnames). }
    rewrite (mapM_raises (read_row float_of ign tgt) IndexError); [reflexivity| |].
    + intros a e. apply final_words_raises.
    + exists line. split; [exact Hline|].
      apply final_words_short. now rewrite !length_map.
Qed.

(** The loader of [Decide] reads a file as [LoadTrainingData] does when
    asked for all of it: it skips the first line and returns the rows of
    the others, so evaluating on the training file evaluates on the
    training rows. *)
Theorem LoadTestData_as_training (lines : list string) (aRowsToGet : Z)
    (self' : DecisionTree) :
  (aRowsToGet < 0)%Z ->
  LoadTrainingData float_of freshDecisionTree lines ign tgt aRowsToGet = Ok self' ->
  LoadTestData float_of lines ign tgt = Ok (TrainingData self').
Proof.
  intros Hall. rewrite LoadTrainingData_fresh.
  unfold lines_read. destruct (Z.ltb_spec aRowsToGet 0); [|lia].
  rewrite firstn_all. unfold LoadTestData.
  destruct lines as [|header rest].
  - intros Hrun. injection Hrun as <-. reflexivity.
  - cbn [LoadTestData_from Nat.eqb]. rewrite LoadTestData_from_rows.
    intros Hrun. apply bind_Ok in Hrun. destruct Hrun as (names & _ & Hrun).
    apply bind_Ok in Hrun. destruct Hrun as (data & -> & Hrun).
    injection Hrun as <-. reflexivity.
Qed.

End LoaderFacts.

Lemma LoadTrainingData_rows_witness :
  exists self',
    LoadTrainingData example_float_of freshDecisionTree example_lines [0%Z] 3 3
    = Ok self'
    /\ length (TrainingData self') = 2.
Proof.
  eexists. split; [reflexivity|].
  now destruct (LoadTrainingData_rows example_float_of [0%Z] 3 example_lines 3 _
                  eq_refl).
Defined.

Lemma LoadTrainingData_rectangular_witness :
  exists self',
    LoadTrainingData example_float_of freshDecisionTree example_lines [0%Z] 3 (-1)
    = Ok self'
    /\ forall row, In row (TrainingData self') -> length row = 3.
Proof.
  destruct (LoadTrainingData_rectangular example_float_of [0%Z] 3 example_lines
              4 (-1)) as (self' & Hrun & Hrows).
  - intros line [<-|[<-|[<-|[<-|[]]]]]; reflexivity.
  - lia.
  - exists self'. split; [exact Hrun|].
    intros row Hrow. destruct (Hrows row Hrow) as (Hlen & _).
    rewrite Hlen. vm_compute in Hrun. injection Hrun as <-. reflexivity.
Defined.

Lemma LoadTrainingData_short_line_witness :
  LoadTrainingData example_float_of freshDecisionTree
    (example_lines ++ [String "010" EmptyString]) [0%Z] 3 (-1)
  = Raise IndexError.
Proof.
  apply (LoadTrainingData_short_line example_float_of [0%Z] 3 _ (-1)
           (String "010" EmptyString)).
  - lia.
  - apply in_or_app. right. now left.
  - simpl. lia.
Defined.

Lemma LoadTestData_as_training_witness :
  LoadTestData example_float_of example_lines [0%Z] 3
  = Ok [[VStr "Green"; VFloat (Qnat 3); VStr "Yes"];
        [VStr "Red"; VFloat (Qnat 1); VStr "No"];
        [VStr "Red"; VFloat (Qnat 3); VStr "Yes"]].
Proof.
  apply (LoadTestData_as_training example_float_of [0%Z] 3 example_lines (-1)
           (newDecisionTree ["Color"; "Size"; "Label"]%string
              [[VStr "Green"; VFloat (Qnat 3); VStr "Yes"];
               [VStr "Red"; VFloat (Qnat 1); VStr "No"];
               [VStr "Red"; VFloat (Qnat 3); VStr "Yes"]])).
  - lia.
  - reflexivity.
Defined.

(** ** The conversions *)

Lemma ConvertToSciKitData_from_spec (rows : list Row) :
  ~ In [] rows ->
  forall trainingData target,
  exists data answers,
    ConvertToSciKitData_from rows trainingData target
    = Ok (trainingData ++ data, target ++ answers)
    /\ length data = length rows
    /\ length answers = length rows
    /\ map (fun p => fst p ++ [snd p]) (combine data answers) = rows.
Proof.
  induction rows as [|row rows IH]; intros Hne trainingData target.
  - exists [], []. cbn. now rewrite !app_nil_r.
  - destruct (exists_last (l := row)) as (l & a & ->).
    { intros ->. apply Hne. now left. }
    destruct (IH (fun H => Hne (or_intror H)) (trainingData ++ [l]) (target ++ [a]))
      as (data & answers & Hrun & Hd & Ha & Hrows).
    exists (l :: data), (a :: answers).
    assert (Hpop : py_pop (l ++ [a]) = Ok l).
    { unfold py_pop. rewrite removelast_last. destruct l; reflexivity. }
    cbn [ConvertToSciKitData_from]. rewrite py_index_last, Hpop. cbn [bind].
    rewrite Hrun, <- !app_assoc. cbn [app length combine map fst snd].
    rewrite Hd, Ha, Hrows. repeat split; reflexivity.
Qed.

Lemma ConvertToSciKitData_from_empty (rows : list Row) :
  In [] rows ->
  forall trainingData target,
  ConvertToSciKitData_from rows trainingData target = Raise IndexError.
Proof.
  induction rows as [|row rows IH]; intros Hin trainingData target;
    [contradiction|].
  cbn [ConvertToSciKitData_from].
  destruct row as [|v row]; [reflexivity|].
  destruct Hin as [Hin|Hin]; [discriminate|].
  cbn [py_pop bind].
  destruct (label_of_nonempty (v :: row)) as (lbl & Hlbl); [discriminate|].
  unfold label_of in Hlbl. rewrite Hlbl. cbn [bind]. now apply IH.
Qed.

(** [ConvertToSciKitData] raises [IndexError] when a training row is
    empty; otherwise it returns as many feature rows and targets as there
    are training rows, and putting each target back at the end of its
    feature row gives the training rows again: the target is the label and
    nothing else is dropped or reordered. *)
Theorem ConvertToSciKitData_round_trip (self : DecisionTree) :
  (In [] (TrainingData self) -> ConvertToSciKitData self = Raise IndexError)
  /\ (~ In [] (TrainingData self) ->
      exists trainingData target,
        ConvertToSciKitData self = Ok (trainingData, target)
        /\ length trainingData = length (TrainingData self)
        /\ length target = length (TrainingData self)
        /\ map (fun p => fst p ++ [snd p]) (combine trainingData target)
           = TrainingData self).
Proof.
  split.
  - intros Hin. now apply ConvertToSciKitData_from_empty.
  - intros Hne.
    destruct (ConvertToSciKitData_from_spec (TrainingData self) Hne [] [])
      as (data & answers & Hrun & H).
    exists data, answers. split; [exact Hrun|exact H].
Qed.

Lemma ConvertToSciKitData_round_trip_witness :
  exists trainingData target,
    ConvertToSciKitData (newDecisionTree example_names example_rows)
    = Ok (trainingData, target)
    /\ length target = 4.
Proof.
  destruct (ConvertToSciKitData_round_trip
              (newDecisionTree example_names example_rows)) as [_ H].
  destruct H as (data & target & Hrun & _ & Ht & _).
  - cbn. intros [H|[H|[H|[H|[]]]]]; discriminate.
  - exists data, target. split; [exact Hrun|exact Ht].
Defined.

Lemma append_cell_spec (matrix : list (list value)) (i : nat) (data : value) :
  i < length matrix ->
  exists matrix',
    append_cell matrix i data = Ok matrix'
    /\ length matrix' = length matrix
    /\ forall j, nth j matrix' [] = nth j matrix [] ++ (if j =? i then [data] else []).
Proof.
  revert i. induction matrix as [|col matrix IH]; intros [|i] Hi; simpl in *;
    try lia.
  - eexists. split; [reflexivity|]. split; [reflexivity|].
    intros [|j]; simpl; [reflexivity|now rewrite app_nil_r].
  - destruct (IH i) as (m' & -> & Hlen & Hnth); [lia|].
    eexists. split; [reflexivity|]. split; [simpl; now rewrite Hlen|].
    intros [|j]; simpl; [now rewrite app_nil_r|apply Hnth].
Qed.

Lemma add_cells_spec (words : list value) :
  forall i matrix,
  i <= length matrix ->
  exists matrix',
    add_cells i words matrix = Ok matrix'
    /\ length matrix' = Nat.max (length matrix) (i + length words)
    /\ forall j,
         nth j matrix' []
         = nth j matrix []
           ++ (if j <? i then []
               else match nth_error words (j - i) with
                    | Some v => [v]
                    | None => []
                    end).
Proof.
  induction words as [|data words IH]; intros i matrix Hi.
  - exists matrix. split; [reflexivity|]. split; [simpl; lia|].
    intros j. destruct (j <? i); [now rewrite app_nil_r|].
    destruct (j - i); simpl; now rewrite app_nil_r.
  - cbn [add_cells].
    set (matrix1 := if length matrix <? i + 1 then matrix ++ [[]] else matrix).
    assert (Hlen1 : length matrix1 = Nat.max (length matrix) (S i)).
    { subst matrix1. destruct (Nat.ltb_spec (length matrix) (i + 1)).
      - rewrite length_app. simpl. lia.
      - lia. }
    assert (Hnth1 : forall j, nth j matrix1 [] = nth j matrix []).
    { intros j. subst matrix1. destruct (Nat.ltb_spec (length matrix) (i + 1));
        [|reflexivity].
      destruct (Nat.lt_ge_cases j (length matrix)).
      - now rewrite app_nth1.
      - rewrite app_nth2, (nth_overflow matrix) by lia.
        destruct (j - length matrix) as [|[|k]]; reflexivity. }
    destruct (append_cell_spec matrix1 i data) as (matrix2 & -> & Hlen2 & Hnth2);
      [lia|].
    cbn [bind].
    destruct (IH (S i) matrix2) as (matrix' & Hrun & Hlen & Hnth); [lia|].
    exists matrix'. split; [exact Hrun|]. split; [simpl; lia|].
    intros j. rewrite Hnth, Hnth2, Hnth1, <- app_assoc. f_equal.
    destruct (Nat.eqb_spec j i) as [->|Hji].
    + destruct (Nat.ltb_spec i (S i)); [|lia].
      destruct (Nat.ltb_spec i i); [lia|].
      rewrite Nat.sub_diag. reflexivity.
    + destruct (Nat.ltb_spec j (S i)), (Nat.ltb_spec j i); try lia;
        [reflexivity|].
      replace (j - i) with (S (j - S i)) by lia. reflexivity.
Qed.

Lemma ConvertToCorrelMatrix_from_spec (rows : list Row) :
  forall matrix,
  exists matrix',
    ConvertToCorrelMatrix_from rows matrix = Ok matrix'
    /\ length matrix' = Nat.max (length matrix) (widest rows)
    /\ forall j, nth j matrix' [] = nth j matrix [] ++ column j rows.
Proof.
  induction rows as [|row rows IH]; intros matrix.
  - exists matrix. split; [reflexivity|]. split; [simpl; lia|].
    intros j. simpl. now rewrite app_nil_r.
  - cbn [ConvertToCorrelMatrix_from].
    destruct (add_cells_spec row 0 matrix) as (m1 & -> & Hlen1 & Hnth1); [lia|].
    cbn [bind].
    destruct (IH m1) as (m' & Hrun & Hlen & Hnth).
    exists m'. split; [exact Hrun|]. split; [simpl; lia|].
    intros j. rewrite Hnth, Hnth1, <- app_assoc. f_equal.
    simpl. rewrite Nat.sub_0_r. reflexivity.
Qed.

(** The loop of [ConvertToCorrelMatrix] never raises and transposes the
    training rows: the matrix handed to [np.corrcoef] has one line per
    column, as many as the longest row has cells, and line [j] holds the
    cells of column [j] in the order of the rows. *)
Theorem ConvertToCorrelMatrix_transposes (self : DecisionTree) :
  exists matrix,
    ConvertToCorrelMatrix_matrix self = Ok matrix
    /\ length matrix = widest (TrainingData self)
    /\ forall j, j < length matrix ->
         nth_error matrix j = Some (column j (TrainingData self)).
Proof.
  destruct (ConvertToCorrelMatrix_from_spec (TrainingData self) [])
    as (matrix & Hrun & Hlen & Hnth).
  exists matrix. split; [exact Hrun|]. split; [exact Hlen|].
  intros j Hj. rewrite (nth_error_nth' matrix [] Hj), Hnth.
  destruct j; reflexivity.
Qed.

(** ** Candidate values *)

(** In a dataset whose rows have the same kinds, the global candidates of
    a column of strings are a set that holds each string of the column
    once, and nothing else. *)
Theorem GetPossibleValues_string_column
    (sig : list bool) (rows : list Row) (j : nat) :
  rows <> [] ->
  uniform sig rows ->
  nth_error sig j = Some false ->
  exists pv cands,
    GetPossibleValues (length sig) rows = Ok pv
    /\ nth_error pv j = Some (CSet cands)
    /\ NoDup cands
    /\ forall s, In s cands <->
         exists row, In row rows /\ nth_error row j = Some (VStr s).
Proof.
  intros Hne Huni Hj.
  destruct (GetPossibleValues_spec sig rows Hne Huni) as (pv & Hrun & _ & Hcols).
  exists pv, (str_set (col_strs j rows)).
  destruct (str_set_spec (col_strs j rows)) as [Hnodup Hin].
  split; [exact Hrun|]. split; [exact (Hcols j false Hj)|].
  split; [exact Hnodup|].
  intros s. rewrite Hin. apply In_col_strs.
Qed.

Lemma GetPossibleValues_string_column_witness :
  exists pv cands,
    GetPossibleValues 3 example_rows = Ok pv
    /\ nth_error pv 0 = Some (CSet cands)
    /\ NoDup cands.
Proof.
  destruct (GetPossibleValues_string_column example_kinds example_rows 0)
    as (pv & cands & Hrun & Hnth & Hnodup & _).
  - discriminate.
  - repeat constructor.
  - reflexivity.
  - exists pv, cands. repeat split; assumption.
Defined.

(** On a non-empty subset of the training rows, [GetChildPossibleValues]
    returns one container per column.  For a column of floats it is a
    strictly ascending list of global thresholds, and for every float of
    the subset the first local threshold that is not below it is the first
    global one that is not below it: the subset is split as the global
    questions would split it.  For a column of strings it is a set that
    holds exactly the strings of the subset, each once. *)
Theorem GetChildPossibleValues_local (self : DecisionTree) (sig : list bool)
    (T ds : list Row) :
  built self sig T -> ds <> [] -> incl ds T ->
  exists uv,
    GetChildPossibleValues (length (AttributeNames self)) (GlobalQuestions self) ds
    = Ok uv
    /\ length uv = length sig
    /\ (forall j, nth_error sig j = Some true ->
          exists l,
            nth_error uv j = Some (CList l)
            /\ StronglySorted Qlt l
            /\ incl l (global_thresholds j T)
            /\ forall x, In x (col_floats j ds) ->
                 exists y, In y l
                   /\ find (Qle_bool x) l = Some y
                   /\ find (Qle_bool x) (global_thresholds j T) = Some y)
    /\ (forall j, nth_error sig j = Some false ->
          exists l,
            nth_error uv j = Some (CSet l)
            /\ NoDup l
            /\ forall s, In s l <-> In s (col_strs j ds)).
Proof.
  intros Hbuilt Hne Hincl.
  assert (Hq := built_questions self sig T Hbuilt).
  destruct Hbuilt as (HT & Huni & Hnames & Hglobal & _).
  destruct (global_facts sig T _ HT Huni Hglobal) as (Hagree & _ & Hcols).
  assert (Huds := uniform_incl sig T ds Huni Hincl).
  destruct (GetChildPossibleValues_spec sig _ ds Hne Huds Hagree)
    as (uv & Hchild & Hlen & Hlocal).
  exists uv. rewrite Hnames, Hq.
  split; [exact Hchild|]. split; [exact Hlen|]. split.
  - intros j Hj. exists (local_thresholds j T ds).
    split; [exact (Hlocal j _ (Hcols j true Hj))|].
    split; [apply l_sorted|]. split.
    + intros y Hy. now apply l_in_g in Hy.
    + intros x Hx.
      destruct (xs_covered T ds j Hincl x Hx) as (y & Hg & Hy & Hl).
      exists y. auto.
  - intros j Hj. exists (local_strs j T ds).
    split; [exact (Hlocal j _ (Hcols j false Hj))|].
    split; [apply strs_NoDup|]. apply strs_local, Hincl.
Qed.

Lemma GetChildPossibleValues_local_witness :
  exists uv,
    GetChildPossibleValues 3
      [[mkQuestion 0 (OVal (VStr "Green")); mkQuestion 0 (OVal (VStr "Yellow"));
        mkQuestion 0 (OVal (VStr "Red"))];
       [mkQuestion 1 (OVal (VFloat 1)); mkQuestion 1 (OVal (VFloat 3))];
       [mkQuestion 2 (OVal (VStr "Yes")); mkQuestion 2 (OVal (VStr "No"))]]
      [[VStr "Red"; VFloat 1; VStr "No"]; [VStr "Red"; VFloat 3; VStr "Yes"]]
    = Ok uv
    /\ length uv = 3.
Proof.
  destruct (GetChildPossibleValues_local
              (mkDecisionTree example_rows None example_names 0
                 [CSet ["Green"; "Yellow"; "Red"]%string; CList [1%Q; 3%Q];
                  CSet ["Yes"; "No"]%string]
                 [[mkQuestion 0 (OVal (VStr "Green"));
                   mkQuestion 0 (OVal (VStr "Yellow"));
                   mkQuestion 0 (OVal (VStr "Red"))];
                  [mkQuestion 1 (OVal (VFloat 1)); mkQuestion 1 (OVal (VFloat 3))];
                  [mkQuestion 2 (OVal (VStr "Yes"));
                   mkQuestion 2 (OVal (VStr "No"))]])
              example_kinds example_rows
              [[VStr "Red"; VFloat 1; VStr "No"]; [VStr "Red"; VFloat 3; VStr "Yes"]])
    as (uv & Hrun & Hlen & _).
  - unfold built. split; [discriminate|]. split; [repeat constructor|].
    split; [reflexivity|]. split; reflexivity.
  - discriminate.
  - intros row [<-|[<-|[]]]; simpl; auto.
  - exists uv. split; [exact Hrun|exact Hlen].
Defined.

(** ** Counts *)

Lemma Counts_from_short (a : Z) (e : value) (ds : list Row) :
  (exists row, In row ds /\ py_index row a = Raise IndexError) ->
  forall trues count, Counts_from trues count ds e a = Raise IndexError.
Proof.
  intros (row & Hrow & Hshort) trues count.
  destruct (Counts_from trues count ds e a) as [[[t f] c]|ex] eqn:Hrun.
  - exfalso. revert trues count Hrun.
    induction ds as [|r ds IH]; intros trues count Hrun; [contradiction|].
    cbn [Counts_from] in Hrun.
    apply bind_Ok in Hrun. destruct Hrun as (v & Hv & Hrun).
    destruct Hrow as [->|Hrow]; [congruence|].
    destruct (py_eq v (OVal e)).
    + apply bind_Ok in Hrun. destruct Hrun as (lbl & _ & Hrun).
      destruct (_ || _); exact (IH Hrow _ _ Hrun).
    + exact (IH Hrow _ _ Hrun).
  - now rewrite (Counts_from_raises a e ds _ _ _ Hrun).
Qed.

(** When every row has the attribute, [Counts] returns [count], the number
    of rows whose attribute equals the element, [trues], the number of
    those labelled ["Yes"] or [1], and [falses], all the others of them:
    [trues + falses = count <= len(aData)].  A row too short for the
    attribute makes it raise [IndexError]. *)
Theorem Counts_counts (aData : list Row) (aElement : value)
    (aAttributeIndex : Z) :
  ((forall row, In row aData -> returns (py_index row aAttributeIndex)) ->
   exists trues falses count,
     Counts aData aElement aAttributeIndex = Ok (trues, falses, count)
     /\ count = length (group aAttributeIndex aElement aData)
     /\ trues = length (filter positive (group aAttributeIndex aElement aData))
     /\ trues + falses = count
     /\ count <= length aData)
  /\ ((exists row, In row aData
                   /\ py_index row aAttributeIndex = Raise IndexError) ->
      Counts aData aElement aAttributeIndex = Raise IndexError).
Proof.
  split.
  - intros Hrows. unfold Counts.
    rewrite (Counts_from_spec aAttributeIndex aElement aData Hrows 0 0).
    cbn [Nat.add].
    assert (Htc := positive_le_group aAttributeIndex aElement aData).
    assert (Hcn := group_le aAttributeIndex aElement aData).
    do 3 eexists. split; [reflexivity|].
    split; [reflexivity|]. split; [reflexivity|]. split; [lia|exact Hcn].
  - intros Hshort. now apply Counts_from_short.
Qed.

Lemma Counts_counts_witness :
  exists trues falses count,
    Counts example_rows (VStr "Red") 0 = Ok (trues, falses, count)
    /\ trues + falses = count.
Proof.
  destruct (Counts_counts example_rows (VStr "Red") 0) as [H _].
  destruct H as (t & f & c & Hrun & _ & _ & Hsum & _).
  - intros row [<-|[<-|[<-|[<-|[]]]]]; eexists; reflexivity.
  - exists t, f, c. split; [exact Hrun|exact Hsum].
Defined.
